(** * Certify: the auto-fit text layout and the batch rendering engine

    A shallow embedding of [generate_certs.py] (the multiprocessing batch
    generator) and of [backend/main.py] (the FastAPI wrapper around the same
    rendering logic), with the properties their specification states.

    Pillow is outside the repository.  Its entry points are taken as
    parameters of the development:
    - [truetype_loads path size]: [ImageFont.truetype(path, size)] returns a
      font; otherwise it raises [OSError], which both handlers of the
      repository catch (the bare [except] of [get_font], the
      [except (OSError, IOError)] of [load_font]);
    - [textbbox face text]: [draw.textbbox((0, 0), text, font=font)], which
      depends on the glyphs of the font and not on the image drawn on;
    - [draw_text], [save_error], [decode]: drawing, writing an encoded image
      and decoding, each of which may raise; [new_image]: the pixel data of
      [Image.new('RGB', (1, 1))];
    - [path_exists], [platform_system], [FONTS_DIR], [isalnum], [isspace]:
      the file system, the platform, the fonts folder of the backend and the
      character classes of [str].

    What the standard library and the web framework hand to the code is an
    argument of the function that uses it: the rows [csv.DictReader] reads,
    the content type of an upload, the names a [glob] of the fonts folder
    yields, and [Path.stem].

    Python objects that the code shares are kept in an explicit heap: images
    are cells of [images], fonts carry the identity they were allocated
    with.  Every call of [truetype], [textbbox] and [draw.text] is appended
    to the log [calls]. *)

From Stdlib Require Import ZArith Lia Ascii.
From Stdlib Require OrdersEx.
From stdpp Require Import gmap strings list pretty sorting.
From Equations Require Import Equations.

Local Open Scope Z_scope.

(** ** Fonts, boxes and library calls *)

(** What a font object renders with: a resource at a pixel size, or the
    bitmap font of [ImageFont.load_default()]. *)
Inductive face : Type :=
| FreeType (path : string) (size : Z)
| BuiltinDefault.

(** A font object: the identity it was allocated with and its face. *)
Record font : Type := Font { font_id : nat; font_face : face }.

(** [(left, top, right, bottom)], as [textbbox] returns it. *)
Definition bbox : Type := Z * Z * Z * Z.

Definition bbox0 (b : bbox) : Z := b.1.1.1.
Definition bbox1 (b : bbox) : Z := b.1.1.2.
Definition bbox2 (b : bbox) : Z := b.1.2.
Definition bbox3 (b : bbox) : Z := b.2.

(** A fill colour: the tuple of the batch generator, or the string of the
    web form. *)
Inductive color : Type :=
| RGB (r g b : Z)
| ColorSpec (spec : string).

Inductive event : Type :=
| ETruetype (path : option string) (size : Z)
| ETextbbox (text : string) (f : font)
| EText (draw : nat) (xy : Z * Z) (text : string) (f : font) (fill : color).

#[global] Instance color_eq_dec : EqDecision color.
Proof. solve_decision. Defined.

#[global] Instance face_eq_dec : EqDecision face.
Proof. solve_decision. Defined.

#[global] Instance font_eq_dec : EqDecision font.
Proof. solve_decision. Defined.

#[global] Instance event_eq_dec : EqDecision event.
Proof. solve_decision. Defined.

(** [range(start, stop, step)] for a positive step. *)
Definition py_range (start stop step : Z) : list Z :=
  (λ k : nat, start + step * Z.of_nat k) <$>
    seq 0 (Z.to_nat ((stop - start + step - 1) `div` step)).

(** What the development takes from outside the repository. *)
Class Pillow : Type := {
  pixels : Type;
  truetype_loads : string → Z → bool;
  textbbox : face → string → bbox;
  draw_text : pixels → Z * Z → string → face → color → string + pixels;
  save_error : string → pixels → option string;
  decode : string → string + pixels;
  new_image : pixels;
  path_exists : string → bool;
  platform_system : string;
  FONTS_DIR : string;
  isalnum : ascii → bool;
  isspace : ascii → bool
}.

Section Program.

Context `{Pillow}.

(** ** Process state *)

(** The state of one process: the module globals of [generate_certs.py]
    ([_worker_template_img] is a reference into [images], [None] before
    [init_worker]), the local dictionary [font_size_cache] of the
    [process_batch] call in progress, the heap of image objects, the files
    written, and the log of library calls.  The global
    [_worker_template_bytes] is assigned once and never read, and is left
    out. *)
Record world : Type := World {
  _worker_template_img : option nat;
  _worker_font_path : option string;
  _worker_font_cache : gmap Z font;
  font_size_cache : gmap nat Z;
  images : list pixels;
  next_font_id : nat;
  calls : list event;
  files : list (string * pixels)
}.

Definition set_font_cache (c : gmap Z font) (w : world) : world :=
  World (_worker_template_img w) (_worker_font_path w) c
        (font_size_cache w) (images w) (next_font_id w) (calls w) (files w).

Definition set_template_img (t : option nat) (w : world) : world :=
  World t (_worker_font_path w) (_worker_font_cache w)
        (font_size_cache w) (images w) (next_font_id w) (calls w) (files w).

Definition set_font_path (p : option string) (w : world) : world :=
  World (_worker_template_img w) p (_worker_font_cache w)
        (font_size_cache w) (images w) (next_font_id w) (calls w) (files w).

Definition set_font_size_cache (c : gmap nat Z) (w : world) : world :=
  World (_worker_template_img w) (_worker_font_path w) (_worker_font_cache w)
        c (images w) (next_font_id w) (calls w) (files w).

Definition set_images (l : list pixels) (w : world) : world :=
  World (_worker_template_img w) (_worker_font_path w) (_worker_font_cache w)
        (font_size_cache w) l (next_font_id w) (calls w) (files w).

Definition set_files (l : list (string * pixels)) (w : world) : world :=
  World (_worker_template_img w) (_worker_font_path w) (_worker_font_cache w)
        (font_size_cache w) (images w) (next_font_id w) (calls w) l.

Definition log (e : event) (w : world) : world :=
  World (_worker_template_img w) (_worker_font_path w) (_worker_font_cache w)
        (font_size_cache w) (images w) (next_font_id w) (calls w ++ [e]) (files w).

(** A new font object: its identity is one no earlier font has. *)
Definition new_font (fc : face) (w : world) : font * world :=
  (Font (next_font_id w) fc,
   World (_worker_template_img w) (_worker_font_path w) (_worker_font_cache w)
         (font_size_cache w) (images w) (S (next_font_id w)) (calls w) (files w)).

(** [ImageFont.truetype(path, size)]: [None] when it raises. *)
Definition ImageFont_truetype (path : option string) (size : Z) (w : world)
  : option font * world :=
  let w := log (ETruetype path size) w in
  match path with
  | Some p =>
      if truetype_loads p size
      then let '(f, w) := new_font (FreeType p size) w in (Some f, w)
      else (None, w)
  | None => (None, w)
  end.

(** [ImageFont.load_default()]. *)
Definition ImageFont_load_default (w : world) : font * world :=
  new_font BuiltinDefault w.

(** [draw.textbbox((0, 0), text, font=font)]. *)
Definition draw_textbbox (text : string) (f : font) (w : world) : bbox * world :=
  (textbbox (font_face f) text, log (ETextbbox text f) w).

(** ** [generate_certs.py]: the font cache *)

Definition get_font (size : Z) (w : world) : font * world :=
  match _worker_font_cache w !! size with
  | Some f => (f, w)
  | None =>
      let '(r, w) := ImageFont_truetype (_worker_font_path w) size w in
      let '(f, w) := match r with
                     | Some f => (f, w)
                     | None => ImageFont_load_default w
                     end in
      (f, set_font_cache (<[size := f]> (_worker_font_cache w)) w)
  end.

(** ** [generate_certs.py]: the fit loop *)

Equations? find_font_size_loop (text : string) (box_w box_h : Z)
    (size : Z) (w : world) : Z * world by wf (Z.to_nat (size - 19)) lt :=
  find_font_size_loop text box_w box_h size w with decide (20 ≤ size) => {
    | left _ =>
        let fw := get_font size w in
        let bw := draw_textbbox text fw.1 fw.2 in
        let text_w := bbox2 bw.1 - bbox0 bw.1 in
        let text_h := bbox3 bw.1 - bbox1 bw.1 in
        if bool_decide (text_w ≤ box_w - 20 ∧ text_h ≤ box_h - 20)
        then (size, bw.2)
        else find_font_size_loop text box_w box_h (size - 4) bw.2;
    | right _ => (20, w) }.
Proof. lia. Qed.

Definition find_font_size (draw : nat) (text : string) (max_size : Z)
    (box_w box_h : Z) (w : world) : Z * world :=
  find_font_size_loop text box_w box_h max_size w.

(** ** Statements that may raise

    A computation runs on the process state and either returns a value or
    raises; [inl e] carries [str(e)].  What it did to the state before it
    raised stays done. *)

Definition M (A : Type) : Type := world → (string + A) * world.

Definition ret {A} (a : A) : M A := λ w, (inr a, w).

Definition raise {A} (e : string) : M A := λ w, (inl e, w).

Definition bind {A B} (m : M A) (k : A → M B) : M B :=
  λ w, match m w with
       | (inl e, w') => (inl e, w')
       | (inr a, w') => k a w'
       end.

Definition lift {A} (f : world → A * world) : M A :=
  λ w, let '(a, w') := f w in (inr a, w').

Definition gets {A} (f : world → A) : M A := λ w, (inr (f w), w).

Definition modify (f : world → world) : M unit := λ w, (inr tt, f w).

(** [try: body except Exception as e: handler(e)]. *)
Definition try_except {A} (body : M A) (handler : string → M A) : M A :=
  λ w, match body w with
       | (inl e, w') => handler e w'
       | (inr a, w') => (inr a, w')
       end.

Notation "'let*' x := m 'in' k" := (bind m (λ x, k))
  (at level 10, x name, m at level 100, k at level 200, only parsing).
Notation "m ;; k" := (bind m (λ _, k))
  (at level 100, k at level 200, right associativity, only parsing).

(** ** Image objects

    A reference always comes from the heap it is used on, so the branch of
    an operation for a reference that is not in the heap is never taken; it
    raises. *)

(** [img.copy()]: a new image object with the pixel data of [img]. *)
Definition Image_copy (img : nat) : M nat :=
  λ w, match images w !! img with
       | Some p => (inr (length (images w)), set_images (images w ++ [p]) w)
       | None => (inl "invalid image reference", w)
       end.

(** [draw.text(xy, text, font=font, fill=fill)], where [draw] draws on the
    image object it was made for. *)
Definition ImageDraw_text (draw : nat) (xy : Z * Z) (text : string) (f : font)
    (fill : color) : M unit :=
  λ w, let w := log (EText draw xy text f fill) w in
       match images w !! draw with
       | Some p =>
           match draw_text p xy text (font_face f) fill with
           | inr p' => (inr tt, set_images (<[draw := p']> (images w)) w)
           | inl e => (inl e, w)
           end
       | None => (inl "invalid image reference", w)
       end.

(** [img.save(path, "JPEG", quality=JPEG_QUALITY)]. *)
Definition Image_save (img : nat) (path : string) : M unit :=
  λ w, match images w !! img with
       | Some p =>
           match save_error path p with
           | None => (inr tt, set_files (files w ++ [(path, p)]) w)
           | Some e => (inl e, w)
           end
       | None => (inl "invalid image reference", w)
       end.

(** [Image.open(BytesIO(data)).convert("RGB")]. *)
Definition Image_open (data : string) : M nat :=
  λ w, match decode data with
       | inr p => (inr (length (images w)), set_images (images w ++ [p]) w)
       | inl e => (inl e, w)
       end.

(** [Image.new('RGB', (1, 1))]. *)
Definition Image_new (w : world) : nat * world :=
  (length (images w), set_images (images w ++ [new_image]) w).

(** ** Strings *)

Fixpoint str_map (f : ascii → ascii) (s : string) : string :=
  match s with
  | EmptyString => EmptyString
  | String c s => String (f c) (str_map f s)
  end.

Fixpoint str_filter (f : ascii → bool) (s : string) : string :=
  match s with
  | EmptyString => EmptyString
  | String c s => if f c then String c (str_filter f s) else str_filter f s
  end.

Fixpoint str_take (n : nat) (s : string) : string :=
  match n, s with
  | S n, String c s => String c (str_take n s)
  | _, _ => EmptyString
  end.

Fixpoint lstrip (s : string) : string :=
  match s with
  | EmptyString => EmptyString
  | String c r => if isspace c then lstrip r else s
  end.

Fixpoint rstrip (s : string) : string :=
  match s with
  | EmptyString => EmptyString
  | String c r =>
      match rstrip r with
      | EmptyString => if isspace c then EmptyString else String c EmptyString
      | r' => String c r'
      end
  end.

(** [s.strip()]. *)
Definition strip (s : string) : string := rstrip (lstrip s).

Definition char_in (lo hi : ascii) (c : ascii) : bool :=
  bool_decide (nat_of_ascii lo ≤ nat_of_ascii c ≤ nat_of_ascii hi)%nat.

(** [str(dir / name)] on a POSIX path: an absolute [name] replaces [dir].
    [dir] is spelled as [pathlib] spells a path: it is not empty and has no
    slash at its end. *)
Definition path_join (dir name : string) : string :=
  match name with
  | String "/" _ => name
  | _ => dir +:+ "/" +:+ name
  end.

(** ** [generate_certs.py]: configuration *)

Definition BOX_X : Z := 579.
Definition BOX_Y : Z := 611.
Definition BOX_W : Z := 840.
Definition BOX_H : Z := 199.
Definition DEFAULT_FONT_SIZE : Z := 72.
Definition DEFAULT_FONT_COLOR : color := RGB 0 0 0.

(** ** [generate_certs.py]: worker start-up *)

(** One round of the pre-load loop of [init_worker]: the entry for [size]
    is assigned whether or not there was one. *)
Definition preload (font_path : string) (w : world) (size : Z) : world :=
  let '(r, w) := ImageFont_truetype (Some font_path) size w in
  let '(f, w) := match r with
                 | Some f => (f, w)
                 | None => ImageFont_load_default w
                 end in
  set_font_cache (<[size := f]> (_worker_font_cache w)) w.

Definition init_worker (template_bytes : string) (font_path : string)
    (max_font_size : Z) : M unit :=
  modify (set_font_path (Some font_path)) ;;
  let* img := Image_open template_bytes in
  modify (set_template_img (Some img)) ;;
  modify (λ w, foldl (preload font_path) w (py_range 20 (max_font_size + 1) 4)).

(** ** [generate_certs.py]: one batch *)

(** The dictionaries [process_batch] appends to [results]. *)
Inductive RenderResult : Type :=
| Success
| Failure (error : string) (name : string).

Definition success (r : RenderResult) : bool :=
  match r with Success => true | Failure _ _ => false end.

(** [(name, output_path, max_font_size)]. *)
Definition task : Type := string * string * Z.

(** The body of the [try] of [process_batch].  The key of the size cache
    is [len(name)], which for a name of characters below 128 is the number
    of its bytes. *)
Definition render_item (item : task) : M unit :=
  let '(name, output_path, max_font_size) := item in
  let* template := gets _worker_template_img in
  let* img := match template with
              | Some t => Image_copy t
              | None => raise "'NoneType' object has no attribute 'copy'"
              end in
  let draw := img in
  let cache_key := String.length name in
  let* known := gets (λ w, font_size_cache w !! cache_key) in
  match known with
  | Some _ => ret tt
  | None =>
      let* size := lift (find_font_size draw name max_font_size BOX_W BOX_H) in
      modify (λ w, set_font_size_cache (<[cache_key := size]> (font_size_cache w)) w)
  end ;;
  let* cached := gets (λ w, font_size_cache w !! cache_key) in
  let* font_size := match cached with
                    | Some s => ret s
                    | None => raise "KeyError"
                    end in
  let* font := lift (get_font font_size) in
  let* bbox := lift (draw_textbbox name font) in
  let text_w := bbox2 bbox - bbox0 bbox in
  let text_h := bbox3 bbox - bbox1 bbox in
  let text_x := BOX_X + (BOX_W - text_w) `div` 2 in
  let text_y := BOX_Y + (BOX_H - text_h) `div` 2 in
  ImageDraw_text draw (text_x, text_y) name font DEFAULT_FONT_COLOR ;;
  Image_save img output_path.

(** One round of the [for] loop: the [try] with its handler. *)
Definition process_item (item : task) : M RenderResult :=
  try_except (render_item item ;; ret Success)
             (λ e, ret (Failure e item.1.1)).

Fixpoint process_batch_loop (batch : list task) (results : list RenderResult)
  : M (list RenderResult) :=
  match batch with
  | [] => ret results
  | item :: batch =>
      let* r := process_item item in
      process_batch_loop batch (results ++ [r])
  end.

Definition process_batch (batch : list task) : M (list RenderResult) :=
  modify (set_font_size_cache ∅) ;;
  process_batch_loop batch [].

(** ** [generate_certs.py]: [main] *)

(** The [candidates] of [find_system_font]. *)
Definition system_font_candidates : list string :=
  if decide (platform_system = "Windows") then
    [ "C:/Windows/Fonts/arial.ttf";
      "C:/Windows/Fonts/Arial.ttf";
      "C:/Windows/Fonts/segoeui.ttf";
      "C:/Windows/Fonts/calibri.ttf" ]
  else if decide (platform_system = "Darwin") then
    [ "/System/Library/Fonts/Supplemental/Arial.ttf";
      "/System/Library/Fonts/Helvetica.ttc";
      "/Library/Fonts/Arial.ttf";
      "/System/Library/Fonts/SFNS.ttf" ]
  else
    [ "/usr/share/fonts/TTF/Arial.TTF";
      "/usr/share/fonts/truetype/dejavu/DejaVuSans-Bold.ttf";
      "/usr/share/fonts/TTF/DejaVuSans-Bold.ttf";
      "/usr/share/fonts/truetype/liberation/LiberationSans-Bold.ttf";
      "/usr/share/fonts/liberation-sans/LiberationSans-Bold.ttf";
      "/usr/share/fonts/noto/NotoSans-Bold.ttf";
      "/usr/share/fonts/google-noto/NotoSans-Bold.ttf" ].

Definition find_system_font : string :=
  match filter (λ path, path_exists path = true) system_font_candidates with
  | path :: _ => path
  | [] => ""
  end.

(** The font [main] hands to the workers for [--font]. *)
Definition main_font (font : option string) : string :=
  match font with
  | Some f => if path_exists f then f else find_system_font
  | None => find_system_font
  end.

(** [f"{n:05d}"] for a natural number. *)
Definition format_05d (n : nat) : string :=
  let digits := pretty n in
  String.concat "" (replicate (5 - String.length digits) "0") +:+ digits.

(** The character test of [safe_name], on a character below 128. *)
Definition safe_char (c : ascii) : ascii :=
  if isalnum c || bool_decide (c ∈ [" "; "-"; "_"]%char) then c else "_"%char.

(** The loop that prepares the tasks: [i] is the index [enumerate] is at.
    [row[args.field]] raises [KeyError] on a row without the field. *)
Fixpoint prepare_tasks (output_dir field : string) (font_size : Z)
    (i : nat) (rows : list (gmap string string)) (tasks : list task)
  : string + list task :=
  match rows with
  | [] => inr tasks
  | row :: rows =>
      match row !! field with
      | Some name =>
          let safe_name := str_map safe_char name in
          let output_path :=
            path_join output_dir (format_05d (i + 1) +:+ "_" +:+ safe_name +:+ ".jpg") in
          prepare_tasks output_dir field font_size (S i) rows
                        (tasks ++ [(name, output_path, font_size)])
      | None => inl ("KeyError: " +:+ field)
      end
  end.

(** [[tasks[i:i + batch_size] for i in range(0, len(tasks), batch_size)]]. *)
Definition split_batches (tasks : list task) (batch_size : Z)
  : string + list (list task) :=
  if decide (batch_size = 0) then inl "range() arg 3 must not be zero"
  else if decide (batch_size < 0) then inr []
  else inr ((λ i, take (Z.to_nat batch_size) (drop (Z.to_nat i) tasks)) <$>
              py_range 0 (Z.of_nat (length tasks)) batch_size).

(** The counters of the collecting loop and the lines it prints. *)
Record tally : Type := Tally {
  completed : nat;
  errors : nat;
  printed : list string
}.

Definition collect_result (t : tally) (r : RenderResult) : tally :=
  let completed := S (completed t) in
  match r with
  | Success => Tally completed (errors t) (printed t)
  | Failure e _ =>
      let errors := S (errors t) in
      Tally completed errors
            (if decide (errors ≤ 5)%nat then printed t ++ ["  ERROR: " +:+ e]
             else printed t)
  end.

(** One completed future: the size of its batch and what [future.result()]
    gives, the results of the batch or the exception of the worker. *)
Definition collect_future (t : tally)
    (future : nat * (string + list RenderResult)) : tally :=
  match future.2 with
  | inr results => foldl collect_result t results
  | inl _ => Tally (completed t + future.1) (errors t + future.1) (printed t)
  end.

Definition collect (futures : list (nat * (string + list RenderResult))) : tally :=
  foldl collect_future (Tally 0 0 []) futures.

(** ** [backend/main.py]: fonts *)

(** The loop of [load_font] over [fallback_paths]. *)
Fixpoint load_fallback (paths : list string) (font_size : Z) (w : world)
  : font * world :=
  match paths with
  | [] => ImageFont_load_default w
  | path :: paths =>
      match ImageFont_truetype (Some path) font_size w with
      | (Some f, w) => (f, w)
      | (None, w) => load_fallback paths font_size w
      end
  end.

Definition fallback_paths : list string :=
  [ "/usr/share/fonts/truetype/dejavu/DejaVuSans.ttf";
    "/usr/share/fonts/truetype/liberation/LiberationSans-Regular.ttf";
    "C:/Windows/Fonts/arial.ttf" ].

Definition load_font (font_filename : string) (font_size : Z) (w : world)
  : font * world :=
  let font_path := path_join FONTS_DIR font_filename in
  let '(r, w) := if path_exists font_path
                 then ImageFont_truetype (Some font_path) font_size w
                 else (None, w) in
  match r with
  | Some f => (f, w)
  | None => load_fallback fallback_paths font_size w
  end.

(** ** [backend/main.py]: the fit loop *)

Definition min_font_size : Z := 10.

Equations? get_font_for_text_loop (name : string) (box_w box_h : Z)
    (font_filename : string) (font_size : Z) (w : world)
  : (font * Z) * world by wf (Z.to_nat (font_size - 9)) lt :=
  get_font_for_text_loop name box_w box_h font_filename font_size w
    with decide (min_font_size ≤ font_size) => {
    | left _ =>
        let fw := load_font font_filename font_size w in
        let tmp := Image_new fw.2 in
        let bw := draw_textbbox name fw.1 tmp.2 in
        let text_w := bbox2 bw.1 - bbox0 bw.1 in
        let text_h := bbox3 bw.1 - bbox1 bw.1 in
        if bool_decide (text_w ≤ box_w - 10 ∧ text_h ≤ box_h - 10)
        then ((fw.1, font_size), bw.2)
        else get_font_for_text_loop name box_w box_h font_filename
                                    (font_size - 2) bw.2;
    | right _ =>
        let fw := load_font font_filename min_font_size w in
        ((fw.1, min_font_size), fw.2) }.
Proof. unfold min_font_size in *. lia. Qed.

Definition get_font_for_text (name : string) (box_w box_h : Z)
    (max_font_size : Z) (font_filename : string) (w : world)
  : (font * Z) * world :=
  get_font_for_text_loop name box_w box_h font_filename max_font_size w.

(** ** [backend/main.py]: rendering *)

Definition draw_certificate (template : nat) (name : string)
    (box : Z * Z * Z * Z) (max_font_size : Z) (color : string)
    (font_filename : string) : M nat :=
  let* img := Image_copy template in
  let draw := img in
  let '(x, y, w, h) := box in
  let* fs := lift (get_font_for_text name w h max_font_size font_filename) in
  let font := fs.1 in
  let* bbox := lift (draw_textbbox name font) in
  let text_w := bbox2 bbox - bbox0 bbox in
  let text_h := bbox3 bbox - bbox1 bbox in
  let text_x := x + (w - text_w) `div` 2 in
  let text_y := y + h - text_h - 5 in
  let text_x := text_x - bbox0 bbox in
  let text_y := text_y - bbox1 bbox in
  ImageDraw_text draw (text_x, text_y) name font (ColorSpec color) ;;
  ret img.

(** ** [backend/main.py]: the archive of certificates *)

(** The class [[a-zA-Z0-9\s\-_]] that [sanitize_filename] keeps. *)
Definition filename_char (c : ascii) : bool :=
  char_in "a" "z" c || char_in "A" "Z" c || char_in "0" "9" c
  || isspace c || bool_decide (c ∈ ["-"; "_"]%char).

Definition sanitize_filename (name : string) : string :=
  let safe := str_filter filename_char name in
  let safe := str_map (λ c, if decide (c = " "%char) then "_"%char else c)
                      (strip safe) in
  if decide (safe = "") then "certificate" else str_take 50 safe.

(** The loop of [generate_certificates] over the rows, with the entries
    written to the archive so far and [generated_count].  The image is
    encoded to memory; an entry is kept as its name and the pixels
    encoded.  A row holds strings: the [None] that [csv.DictReader] puts
    for a field that a short record lacks is not a value here, and what is
    stated of the names of the rows is stated for rows that hold a string
    of characters below 128 under the name column. *)
Fixpoint generate_rows (template_img : nat) (name_column : string)
    (box : Z * Z * Z * Z) (font_size : Z) (font_color font_file : string)
    (rows : list (gmap string string))
    (zf : list (string * pixels)) (generated_count : nat)
  : M (list (string * pixels) * nat) :=
  match rows with
  | [] => ret (zf, generated_count)
  | row :: rows =>
      let name := strip (default "" (row !! name_column)) in
      if decide (name = "") then
        generate_rows template_img name_column box font_size font_color
                      font_file rows zf generated_count
      else
        let* cert_img := draw_certificate template_img name box font_size
                                          font_color font_file in
        let safe_name := sanitize_filename name in
        let* data := gets (λ w, images w !! cert_img) in
        match data with
        | Some p =>
            generate_rows template_img name_column box font_size font_color
              font_file rows
              (zf ++ [("certificates_jpg/" +:+ safe_name +:+ ".jpg", p);
                      ("certificates_pdf/" +:+ safe_name +:+ ".pdf", p)])
              (S generated_count)
        | None => raise "invalid image reference"
        end
  end.

End Program.

(** ** The fit, as the specification words it *)

(** The descending sequence [max_size, max_size - step, ...] of the sizes
    that are at least [floor]. *)
Definition descending (max_size floor step : Z) : list Z :=
  (λ k : nat, max_size - step * Z.of_nat k) <$>
    seq 0 (Z.to_nat ((max_size - floor) `div` step + 1)).

(** Both dimensions of a measured box fit the placement box less the
    padding. *)
Definition fits (padding : Z) (b : bbox) (box_w box_h : Z) : bool :=
  bool_decide (bbox2 b - bbox0 b ≤ box_w - padding ∧
               bbox3 b - bbox1 b ≤ box_h - padding).

(** The specification's fit: the first size of the descending sequence whose
    measured box fits, and the floor when none does.  [measure size] is the
    box of the text at the font of that size. *)
Definition spec_fit (measure : Z → bbox) (max_size floor step padding : Z)
    (box_w box_h : Z) : Z :=
  default floor
    (List.find (λ size, fits padding (measure size) box_w box_h)
               (descending max_size floor step)).

(** The specification's fallback chain: the first resource of [paths] that
    loads at [size], and the built-in font when none does. *)
Definition spec_fallback `{Pillow} (paths : list string) (size : Z) : face :=
  match List.find (λ path, truetype_loads path size) paths with
  | Some path => FreeType path size
  | None => BuiltinDefault
  end.

(** The face of the font that [get_font] gives for [size] in [w]. *)
Definition font_at `{Pillow} (w : world) (size : Z) : face :=
  font_face (get_font size w).1.

(** The resources [load_font] tries, in its order. *)
Definition load_font_paths `{Pillow} (font_filename : string) : list string :=
  (if path_exists (path_join FONTS_DIR font_filename)
   then [path_join FONTS_DIR font_filename] else []) ++ fallback_paths.

Definition is_textbbox (e : event) : bool :=
  match e with ETextbbox _ _ => true | _ => false end.

(** The measurements made so far. *)
Definition measurements `{Pillow} (w : world) : list event :=
  filter (λ e, is_textbbox e = true) (calls w).

(** ** A concrete environment

    An image is the list of the texts drawn on it.  Three font files
    exist: one of the fonts folder and one system font, which load, and one
    that is not a font and does not load.  A glyph box starts to the right
    of and below the drawing origin, as a font with a left side bearing has
    it.  An empty colour string and an empty output path are refused. *)

Definition demo_truetype_loads (path : string) (size : Z) : bool :=
  bool_decide (path ∈ ["/srv/fonts/Sans.ttf";
                       "/usr/share/fonts/truetype/dejavu/DejaVuSans-Bold.ttf"]).

Definition demo_textbbox (f : face) (text : string) : bbox :=
  let n := Z.of_nat (String.length text) in
  match f with
  | FreeType _ size =>
      (size `div` 12, size `div` 4,
       size `div` 12 + size * n `div` 2, size `div` 4 + size)
  | BuiltinDefault => (0, 0, 6 * n, 11)
  end.

Definition demo_draw_text (p : list (Z * Z * string)) (xy : Z * Z)
    (text : string) (f : face) (fill : color)
  : string + list (Z * Z * string) :=
  match fill with
  | ColorSpec "" => inl "unknown color specifier: ''"
  | _ => inr (p ++ [(xy.1, xy.2, text)])
  end.

Definition demo_save_error (path : string) (p : list (Z * Z * string))
  : option string :=
  if decide (path = "") then Some "[Errno 2] No such file or directory: ''"
  else None.

Definition demo_decode (data : string) : string + list (Z * Z * string) :=
  if decide (data = "") then inl "cannot identify image file" else inr [].

Definition demo_isalnum (c : ascii) : bool :=
  let n := nat_of_ascii c in
  bool_decide (48 ≤ n ≤ 57 ∨ 65 ≤ n ≤ 90 ∨ 97 ≤ n ≤ 122)%nat.

Definition demo_isspace (c : ascii) : bool :=
  let n := nat_of_ascii c in
  bool_decide (9 ≤ n ≤ 13 ∨ 28 ≤ n ≤ 32)%nat.

Definition demo : Pillow := {|
  pixels := list (Z * Z * string);
  truetype_loads := demo_truetype_loads;
  textbbox := demo_textbbox;
  draw_text := demo_draw_text;
  save_error := demo_save_error;
  decode := demo_decode;
  new_image := [];
  path_exists := λ path,
    bool_decide (path ∈ ["/srv/fonts/Sans.ttf"; "/custom/broken.ttf";
                         "/usr/share/fonts/truetype/dejavu/DejaVuSans-Bold.ttf"]);
  platform_system := "Linux";
  FONTS_DIR := "/srv/fonts";
  isalnum := demo_isalnum;
  isspace := demo_isspace
|}.

(** A worker of the demo environment with a decoded template and an empty
    font cache: the template is image 0 and nothing is drawn on it. *)
Definition demo_worker (font_path : string) : @world demo :=
  @World demo (Some 0%nat) (Some font_path) ∅ ∅ [[]] 0 [] [].

(** ** Invariants of a worker *)

(** The module globals of [generate_certs.py] when it is imported. *)
Definition initial_world `{Pillow} : world :=
  World None None ∅ ∅ [] 0 [] [].

(** What a worker process does after [init_worker]: it runs batches, and
    so fits texts and asks the cache for fonts. *)
Inductive worker_step `{Pillow} : world → world → Prop :=
| step_get_font size w :
    worker_step w (get_font size w).2
| step_find_font_size draw text max_size box_w box_h w :
    worker_step w (find_font_size draw text max_size box_w box_h w).2
| step_process_batch batch w :
    worker_step w (process_batch batch w).2.

Definition is_load (size : Z) (e : event) : bool :=
  match e with ETruetype _ s => bool_decide (s = size) | _ => false end.

(** How often the font resource was loaded at [size]. *)
Definition load_count `{Pillow} (size : Z) (w : world) : nat :=
  length (filter (λ e, is_load size e = true) (calls w)).

(** Every size was loaded once if it is cached and never if it is not. *)
Definition loaded_once `{Pillow} (w : world) : Prop :=
  ∀ size, load_count size w =
          match _worker_font_cache w !! size with Some _ => 1%nat | None => 0%nat end.

(** [w] comes after [w0] in the life of a worker: the globals that refer to
    the template and the font resource are the same, the cache has kept its
    entries, and the image objects of [w0] have kept their pixels. *)
Definition stable `{Pillow} (w0 w : world) : Prop :=
  _worker_template_img w = _worker_template_img w0
  ∧ _worker_font_path w = _worker_font_path w0
  ∧ _worker_font_cache w0 ⊆ _worker_font_cache w
  ∧ images w0 `prefix_of` images w
  ∧ (loaded_once w0 → loaded_once w).

(** [m] keeps the invariant [I], whether it returns or raises, and what it
    returns satisfies [φ]. *)
Definition triple `{Pillow} {A} (I : world → Prop) (m : M A) (φ : A → Prop)
  : Prop :=
  ∀ w, I w → I (m w).2 ∧ ∀ a, (m w).1 = inr a → φ a.

(** ** Results of a batch *)

(** The result [process_batch] records for a job whose [try] body ended
    with [outcome]. *)
Definition result_of (name : string) (outcome : string + ()) : RenderResult :=
  match outcome with
  | inl e => Failure e name
  | inr _ => Success
  end.

(** A result that belongs to a job: a success, or a failure that carries
    the name of the job. *)
Definition tagged (item : task) (r : RenderResult) : Prop :=
  r = Success ∨ ∃ e, r = Failure e item.1.1.

Definition successes (results : list RenderResult) : nat :=
  length (filter (λ r, success r = true) results).

Definition failures (results : list RenderResult) : nat :=
  length (filter (λ r, ¬ success r = true) results).

(** A batch that [main] submitted, with the state of the worker that took
    it, or [None] when the pool lost the worker and [future.result()]
    raises. *)
Definition run `{Pillow} : Type := list task * option world.

(** The future [main] collects for a run: the size [main] stored for the
    batch and what [future.result()] gives. *)
Definition future_of `{Pillow} (r : run) : nat * (string + list RenderResult) :=
  (length r.1,
   match r.2 with
   | Some w => (process_batch r.1 w).1
   | None => inl "A process in the process pool was terminated abruptly"
   end).

(** The jobs of a run that [main] counts as errors: the failures among the
    results, or every job of the batch when there are no results. *)
Definition errors_of `{Pillow} (r : run) : nat :=
  match (future_of r).2 with
  | inr results => failures results
  | inl _ => length r.1
  end.

(** ** Where the text lands *)

(** The box of the pixels that [draw.text(xy, text, font=font)] paints,
    [draw.textbbox(xy, text, font=font)]: the box measured at the origin,
    moved by [xy]. *)
Definition ink_box (xy : Z * Z) (b : bbox) : bbox :=
  (xy.1 + bbox0 b, xy.2 + bbox1 b, xy.1 + bbox2 b, xy.2 + bbox3 b).

(** The horizontal midpoint of the painted box is within one pixel of the
    midpoint of the placement box; both sides are doubled. *)
Definition centred (box_x box_w : Z) (ink : bbox) : Prop :=
  -2 ≤ (bbox0 ink + bbox2 ink) - (2 * box_x + box_w) ≤ 2.

#[global] Instance centred_dec box_x box_w ink : Decision (centred box_x box_w ink).
Proof. unfold centred. apply _. Defined.

(** A worker of the demo environment whose font resource loads. *)
Definition demo_w : @world demo := demo_worker "/srv/fonts/Sans.ttf".

(** The worker of the demo environment that [init_worker] starts. *)
Definition demo_started : @world demo :=
  (@init_worker demo "jpeg" "/srv/fonts/Sans.ttf" 72 initial_world).2.

(** The worker that [init_worker] starts when [--font] names the file that
    does not load. *)
Definition demo_broken : @world demo :=
  (@init_worker demo "jpeg" (@main_font demo (Some "/custom/broken.ttf")) 72
     initial_world).2.

Definition demo_batch : list task :=
  [("Al", "out/1.jpg", 72); ("Alexandria", "out/2.jpg", 72)].

(** ** Further notions *)

(** The elements of [l] up to and including the first one that satisfies
    [P]: what a loop that stops at the first success goes through. *)
Fixpoint upto_first {A} (P : A → bool) (l : list A) : list A :=
  match l with
  | [] => []
  | x :: l => x :: if P x then [] else upto_first P l
  end.

(** A row of the uploaded table with a name: the value it holds under the
    name column is not blank. *)
Definition has_name `{Pillow} (name_column : string)
    (row : gmap string string) : Prop :=
  ∃ value, row !! name_column = Some value ∧ strip value ≠ EmptyString.

#[global] Instance has_name_dec `{Pillow} name_column row :
  Decision (has_name name_column row).
Proof.
  unfold has_name. destruct (row !! name_column) as [value|].
  - destruct (decide (strip value = EmptyString)) as [Hblank|Hname].
    + right. intros (v & [= <-] & Hv). by apply Hv.
    + left. by exists value.
  - right. by intros (v & [=] & _).
Defined.


(** The line [main] prints for a failed result. *)
Definition error_line (r : RenderResult) : option string :=
  match r with
  | Failure e _ => Some ("  ERROR: " +:+ e)
  | Success => None
  end.


(** The size [process_batch] draws a name at: the size kept for names of
    that length in the batch in progress, and the fitted size, which is then
    kept, when there is none. *)
Definition item_size `{Pillow} (draw : nat) (name : string)
    (max_font_size : Z) (w : world) : Z * world :=
  match font_size_cache w !! String.length name with
  | Some size => (size, w)
  | None =>
      let sw := find_font_size draw name max_font_size BOX_W BOX_H w in
      (sw.1, set_font_size_cache
               (<[String.length name := sw.1]> (font_size_cache sw.2)) sw.2)
  end.

(** The position [process_batch] draws a text at whose measured box is
    [b]. *)
Definition batch_xy (b : bbox) : Z * Z :=
  (BOX_X + (BOX_W - (bbox2 b - bbox0 b)) `div` 2,
   BOX_Y + (BOX_H - (bbox3 b - bbox1 b)) `div` 2).


(** The jobs of a batch whose result is a success. *)
Definition succeeded (batch : list task) (results : list RenderResult)
  : list task :=
  (filter (λ ir : task * RenderResult, success ir.2 = true)
          (zip batch results)).*1.

(** A file that [process_batch] wrote for a job: it is at the output path
    of the job and holds the pixels of the template with the name of the
    job drawn on them. *)
Definition file_of `{Pillow} (tp : pixels) (item : task)
    (file : string * pixels) : Prop :=
  file.1 = item.1.2
  ∧ ∃ xy f, draw_text tp xy item.1.1 (font_face f) DEFAULT_FONT_COLOR
            = inr file.2.


(** A size that [init_worker] loads in advance for the maximum size
    [max_font_size]. *)
Definition preloaded (max_font_size size : Z) : Prop :=
  20 ≤ size ≤ max_font_size ∧ size `mod` 4 = 0.

(** [w] is a state of a batch that started in [w0] with every size loaded
    in advance and has loaded no font since: the sizes loaded in advance
    are cached, the sizes kept for name lengths are among them, and no font
    object was made. *)
Definition warm `{Pillow} (max_font_size : Z) (w0 w : world) : Prop :=
  (∀ size, preloaded max_font_size size →
           is_Some (_worker_font_cache w !! size))
  ∧ (∀ k size, font_size_cache w !! k = Some size →
               preloaded max_font_size size)
  ∧ (∀ size, load_count size w = load_count size w0)
  ∧ next_font_id w = next_font_id w0.


(** The output path [main] gives the row at position [k] (from 0) whose
    name is [name]. *)
Definition output_path_of `{Pillow} (output_dir : string) (k : nat)
    (name : string) : string :=
  path_join output_dir
    (format_05d (k + 1) +:+ "_" +:+ str_map safe_char name +:+ ".jpg").

Definition digit_chars : list ascii :=
  ["0"; "1"; "2"; "3"; "4"; "5"; "6"; "7"; "8"; "9"]%char.


(** The two entries [generate_certificates] writes to the archive for one
    name. *)
Definition archive_names `{Pillow} (name : string) : list string :=
  ["certificates_jpg/" +:+ sanitize_filename name +:+ ".jpg";
   "certificates_pdf/" +:+ sanitize_filename name +:+ ".pdf"].

(** The names the loop of [generate_certificates] draws, read off the
    rows; for rows that hold their values, see [column_values], they are
    the [stripped_names] of the values. *)
Definition row_names `{Pillow} (name_column : string)
    (rows : list (gmap string string)) : list string :=
  filter (λ name, name ≠ EmptyString)
    ((λ row, strip (default EmptyString (row !! name_column))) <$> rows).


(** The picture of a certificate of the backend, from what the request
    gives: the font is the one of the fallback chain at the size of the
    fit, and the name is drawn on the pixels of the template at the place
    [draw_certificate] works out from the box the font measures. *)
Definition certificate_picture `{Pillow} (tp : pixels) (name : string)
    (box : Z * Z * Z * Z) (max_font_size : Z) (color font_filename : string)
  : string + pixels :=
  let '(x, y, bw, bh) := box in
  let paths := load_font_paths font_filename in
  let size := spec_fit (λ s, textbbox (spec_fallback paths s) name)
                       max_font_size 10 2 10 bw bh in
  let b := textbbox (spec_fallback paths size) name in
  draw_text tp (x + (bw - (bbox2 b - bbox0 b)) `div` 2 - bbox0 b,
                y + bh - (bbox3 b - bbox1 b) - 5 - bbox1 b)
            name (spec_fallback paths size) (ColorSpec color).


(** ** [backend/main.py]: the request handlers *)

Section Endpoints.

Context `{Pillow}.

Notation "'let*' x := m 'in' k" := (bind m (λ x, k))
  (at level 10, x name, m at level 100, k at level 200, only parsing).

(** The [detail] of the [HTTPException]s the handlers raise:
    ["Template must be an image file"],
    [f"Failed to load template image: {str(e)}"],
    [f"Failed to parse CSV: {str(e)}"], ["CSV file is empty"],
    [f"Column '{name_column}' not found in CSV. Available columns:
    {list(rows[0].keys())}"] and ["No valid names found in CSV"]. *)
Inductive detail :=
| TemplateNotImage
| TemplateLoadFailed (e : string)
| CsvParseFailed (e : string)
| CsvEmpty
| ColumnNotFound (name_column : string) (row : gmap string string)
| NoValidNames.

(** What a handler answers: the [HTTPException] it raises, which the
    framework turns into a response of that status, or the
    [StreamingResponse] it returns, with the entries of the archive and the
    [X-Generated-Count] header, or with the encoded picture.  Another
    exception leaves the handler as it is raised. *)
Inductive response :=
| HTTPException (status_code : Z) (d : detail)
| ZipResponse (entries : list (string * pixels)) (generated_count : nat)
| ImageResponse (body : pixels).

(** [try: template_img = Image.open(...).convert("RGB") except Exception as
    e: ...], with the error kept for the [HTTPException]. *)
Definition open_template (template_bytes : string) : M (string + nat) :=
  try_except (let* template_img := Image_open template_bytes in
              ret (inr template_img))
             (λ e, ret (inl e)).

(** [generate_certificates].  [content_type] is the content type of the
    uploaded template, if it has one; [csv_rows] is what the [try] block
    around [csv.DictReader] gives: the error it raises, or the rows, each
    the dict of a record with as many fields as the header. *)
Definition generate_certificates (content_type : option string)
    (template_bytes : string) (csv_rows : string + list (gmap string string))
    (name_column : string) (box : Z * Z * Z * Z) (font_size : Z)
    (font_color font_file : string) : M response :=
  if negb (String.prefix "image/" (default EmptyString content_type))
  then ret (HTTPException 400 TemplateNotImage)
  else
    let* opened := open_template template_bytes in
    match opened with
    | inl e => ret (HTTPException 400 (TemplateLoadFailed e))
    | inr template_img =>
        match csv_rows with
        | inl e => ret (HTTPException 400 (CsvParseFailed e))
        | inr [] => ret (HTTPException 400 CsvEmpty)
        | inr ((row0 :: _) as rows) =>
            if decide (row0 !! name_column = None)
            then ret (HTTPException 400 (ColumnNotFound name_column row0))
            else
              let* zc := generate_rows template_img name_column box font_size
                                       font_color font_file rows [] 0 in
              if decide (zc.2 = 0%nat)
              then ret (HTTPException 400 NoValidNames)
              else ret (ZipResponse zc.1 zc.2)
        end
    end.

(** [preview_certificate]: the name is drawn as it is given. *)
Definition preview_certificate (template_bytes name : string)
    (box : Z * Z * Z * Z) (font_size : Z) (font_color font_file : string)
  : M response :=
  let* opened := open_template template_bytes in
  match opened with
  | inl e => ret (HTTPException 400 (TemplateLoadFailed e))
  | inr template_img =>
      let* cert_img := draw_certificate template_img name box font_size
                                        font_color font_file in
      let* data := gets (λ w, images w !! cert_img) in
      match data with
      | Some p => ret (ImageResponse p)
      | None => raise "invalid image reference"
      end
  end.

End Endpoints.


(** ** [backend/main.py]: the list of fonts *)

Section Fonts.

Context `{Pillow}.

(** [Path.stem], the file name without its last suffix. *)
Variable stem : string → string.

(** [re.sub(pattern, '', s)] for a pattern of plain characters that is not
    empty: the occurrences of [pattern] are taken out from left to right,
    and the search goes on behind each of them.  [skip] is the number of
    characters of the occurrence found that are still to be passed over. *)
Fixpoint remove_all_from (pattern : string) (skip : nat) (s : string)
  : string :=
  match s with
  | EmptyString => EmptyString
  | String c s' =>
      match skip with
      | S k => remove_all_from pattern k s'
      | O =>
          if String.prefix pattern s
          then remove_all_from pattern (String.length pattern - 1) s'
          else String c (remove_all_from pattern 0 s')
      end
  end.

(** [re.sub(r'\s+', ' ', s)]: every run of whitespace becomes one space.
    [in_run] tells that the character before was whitespace. *)
Fixpoint collapse_spaces (in_run : bool) (s : string) : string :=
  match s with
  | EmptyString => EmptyString
  | String c s' =>
      if isspace c
      then if in_run then collapse_spaces true s'
           else String " " (collapse_spaces true s')
      else String c (collapse_spaces false s')
  end.

(** The [display_name] that [get_available_fonts] works out from the stem
    of a file name, before the stem is taken if it is empty. *)
Definition clean_name (file_stem : string) : string :=
  let display_name :=
    str_map (λ c, if decide (c = "_"%char) then " "%char else c)
      (str_map (λ c, if decide (c = "-"%char) then " "%char else c)
               file_stem) in
  let display_name := remove_all_from "NerdFontPropo" 0 display_name in
  strip (collapse_spaces false display_name).

(** [display_name or font_file.stem]. *)
Definition display_name_of (file_stem : string) : string :=
  if decide (clean_name file_stem = EmptyString) then file_stem
  else clean_name file_stem.

Record font_entry := FontEntry { filename : string; displayName : string }.

Definition font_entry_of (name : string) : font_entry :=
  FontEntry name (display_name_of (stem name)).

(** [a < b] on [str]: the order of the code points, the first difference
    deciding, a proper prefix before the longer string. *)
Definition str_lt (a b : string) : bool :=
  match OrdersEx.String_as_OT.compare a b with Lt => true | _ => false end.

(** [sorted(fonts, key=lambda x: x["displayName"])].  [sorted] is stable
    and compares keys with [<]; its result is the one of the insertion
    sort that puts an entry before the entries placed so far, the later
    ones of the list, whose key is not smaller. *)
Fixpoint insort (x : font_entry) (l : list font_entry) : list font_entry :=
  match l with
  | [] => [x]
  | y :: l' =>
      if str_lt (displayName y) (displayName x) then y :: insort x l'
      else x :: l
  end.

Definition sorted_by_displayName (fonts : list font_entry)
  : list font_entry :=
  foldr insort [] fonts.

(** [get_available_fonts].  [ttf] and [otf] are the names of the files
    that [FONTS_DIR.glob("*.ttf")] and [FONTS_DIR.glob("*.otf")] yield, in
    the order they are yielded. *)
Definition get_available_fonts (ttf otf : list string) : list font_entry :=
  let fonts :=
    if path_exists FONTS_DIR
    then (font_entry_of <$> ttf) ++ (font_entry_of <$> otf)
    else [] in
  sorted_by_displayName fonts.

End Fonts.

(** No whitespace character of [s] is followed by another one. *)
Fixpoint no_space_pair `{Pillow} (s : string) : Prop :=
  match s with
  | String a (String b _ as s') =>
      (isspace a = true → isspace b = false) ∧ no_space_pair s'
  | _ => True
  end.


(** The demo environment with its fonts folder present. *)
Definition demo_folder : Pillow := {|
  pixels := list (Z * Z * string);
  truetype_loads := demo_truetype_loads;
  textbbox := demo_textbbox;
  draw_text := demo_draw_text;
  save_error := demo_save_error;
  decode := demo_decode;
  new_image := [];
  path_exists := λ path,
    bool_decide (path ∈ ["/srv/fonts"; "/srv/fonts/Sans.ttf"]);
  platform_system := "Linux";
  FONTS_DIR := "/srv/fonts";
  isalnum := demo_isalnum;
  isspace := demo_isspace
|}.


(** ** [generate_certs.py]: the rows [main] renders *)





(** The result that [process_batch] records for a job whose name is
    drawn with the font object [font] on a copy of the template with the
    pixels [tp]: a failure with the message of the exception when
    [draw.text] or [img.save] raises, and a success otherwise.  The name is
    drawn where the batch generator puts it. *)
Definition job_outcome `{Pillow} (tp : pixels) (item : task) (font : font)
  : RenderResult :=
  let xy := batch_xy (textbbox (font_face font) item.1.1) in
  match draw_text tp xy item.1.1 (font_face font) DEFAULT_FONT_COLOR with
  | inl e => Failure e item.1.1
  | inr p =>
      match save_error item.1.2 p with
      | Some e => Failure e item.1.1
      | None => Success
      end
  end.

(** ** Names of plain characters

    A string is kept as its bytes.  For a string of code points below 128
    the bytes are the characters: [len], slices, [str.strip] and the
    classes of [re] act on it as the functions above do. *)

(** [str.isspace] on the code points below 128: the tab, the line feed,
    the vertical tab, the form feed, the carriage return, the separators 28
    to 31 and the space; the class [\s] of [re] has the same ones. *)
Definition ascii_isspace (c : ascii) : bool :=
  let n := nat_of_ascii c in
  bool_decide (9 ≤ n ≤ 13 ∨ 28 ≤ n ≤ 32)%nat.

Definition ascii_only (s : string) : Prop :=
  Forall (λ c, (nat_of_ascii c < 128)%nat) (String.list_ascii_of_string s).

(** The rows hold [values] under the name column, in their order, each a
    string of code points below 128: what [csv.DictReader] gives for
    records that have as many fields as the header. *)
Definition column_values (name_column : string)
    (rows : list (gmap string string)) (values : list string) : Prop :=
  Forall2 (λ row value, row !! name_column = Some value ∧ ascii_only value)
          rows values.

(** The names that [generate_certificates] draws for the values of the
    name column: [value.strip()] where that is not empty. *)
Definition stripped_names `{Pillow} (values : list string) : list string :=
  filter (λ name, name ≠ EmptyString) (strip <$> values).

(** [draw.textbbox(xy, text, font=font)] for whole coordinates: the box
    the font measures for the text, [b], moved to [xy].  It is the box the
    code places; the pixels that [draw.text] paints lie where the glyphs
    have ink. *)
Definition measured_at (xy : Z * Z) (b : bbox) : bbox :=
  (xy.1 + bbox0 b, xy.2 + bbox1 b, xy.1 + bbox2 b, xy.2 + bbox3 b).

(** What the [try] block around [csv.DictReader] gives
    [generate_certificates]: the error raised, or the rows of a table
    whose records have as many fields as the header, so that the name
    column is a column of every row, with a value of plain characters, or
    of none. *)
Definition csv_table (name_column : string)
    (csv_rows : string + list (gmap string string)) : Prop :=
  match csv_rows with
  | inl _ => True
  | inr rows =>
      (∃ values, column_values name_column rows values)
      ∨ Forall (λ row, row !! name_column = None) rows
  end.

(** * Properties *)

Section Properties.

Context `{Pillow}.

Notation "'let*' x := m 'in' k" := (bind m (λ x, k))
  (at level 10, x name, m at level 100, k at level 200, only parsing).
Notation "m ;; k" := (bind m (λ _, k))
  (at level 100, k at level 200, right associativity, only parsing).

Implicit Types (w : world) (size : Z).

(** ** The descending sequence *)

Lemma descending_nil max_size floor step :
  0 < step → max_size < floor → descending max_size floor step = [].
Proof.
  intros Hstep Hlt. unfold descending.
  assert ((max_size - floor) `div` step < 0) by (apply Z.div_lt_upper_bound; lia).
  replace (Z.to_nat _) with 0%nat by lia. reflexivity.
Qed.

Lemma descending_cons max_size floor step :
  0 < step → floor ≤ max_size →
  descending max_size floor step =
  max_size :: descending (max_size - step) floor step.
Proof.
  intros Hstep Hle. unfold descending.
  replace (max_size - floor) with ((max_size - step - floor) + 1 * step) by lia.
  rewrite Z.div_add by lia.
  assert (0 ≤ (max_size - step - floor) `div` step + 1).
  { replace (_ + 1) with ((max_size - step - floor + 1 * step) `div` step)
      by (rewrite Z.div_add by lia; reflexivity).
    apply Z.div_pos; lia. }
  replace (Z.to_nat (_ + 1 + 1))
    with (S (Z.to_nat ((max_size - step - floor) `div` step + 1))) by lia.
  cbn [seq fmap list_fmap]. f_equal; [lia|].
  rewrite <- fmap_S_seq, <- list_fmap_compose.
  apply list_fmap_ext. intros _ k _. simpl. lia.
Qed.

Lemma descending_bounds max_size floor step size :
  0 < step → size ∈ descending max_size floor step → floor ≤ size ≤ max_size.
Proof.
  intros Hstep. unfold descending. rewrite list_elem_of_fmap.
  intros (k & -> & Hk). apply elem_of_seq in Hk.
  destruct (decide (max_size < floor)) as [Hlt|Hge].
  - assert ((max_size - floor) `div` step < 0) by (apply Z.div_lt_upper_bound; lia).
    lia.
  - assert (Z.of_nat k ≤ (max_size - floor) `div` step) as Hk' by lia.
    assert (step * ((max_size - floor) `div` step) ≤ max_size - floor)
      by (apply Z.mul_div_le; lia).
    nia.
Qed.

(** ** The font cache *)

Lemma font_at_unfold w size :
  font_at w size =
  match _worker_font_cache w !! size with
  | Some f => font_face f
  | None =>
      match _worker_font_path w with
      | Some p => if truetype_loads p size then FreeType p size else BuiltinDefault
      | None => BuiltinDefault
      end
  end.
Proof.
  unfold font_at, get_font, ImageFont_truetype, ImageFont_load_default.
  destruct (_worker_font_cache w !! size); [reflexivity|].
  cbn. destruct (_worker_font_path w) as [p|]; [|reflexivity].
  destruct (truetype_loads p size); reflexivity.
Qed.

Lemma get_font_font_path size w :
  _worker_font_path (get_font size w).2 = _worker_font_path w.
Proof.
  unfold get_font, ImageFont_truetype, ImageFont_load_default.
  destruct (_worker_font_cache w !! size); [reflexivity|].
  destruct (_worker_font_path w) as [p|] eqn:Hp; cbn; [|done].
  destruct (truetype_loads p size); done.
Qed.

Lemma get_font_font_cache size w :
  _worker_font_cache (get_font size w).2 =
  <[size := (get_font size w).1]> (_worker_font_cache w).
Proof.
  unfold get_font, ImageFont_truetype, ImageFont_load_default.
  destruct (_worker_font_cache w !! size) eqn:Hc.
  - simpl. symmetry. by apply insert_id.
  - cbn. destruct (_worker_font_path w) as [p|]; [|reflexivity].
    destruct (truetype_loads p size); reflexivity.
Qed.

Lemma font_at_get_font size size' w :
  font_at (get_font size w).2 size' = font_at w size'.
Proof.
  rewrite (font_at_unfold (get_font size w).2), get_font_font_cache,
    get_font_font_path.
  destruct (decide (size = size')) as [->|Hne].
  - rewrite lookup_insert_eq. reflexivity.
  - rewrite lookup_insert_ne by done. symmetry. apply font_at_unfold.
Qed.

Lemma font_at_log e w size : font_at (log e w) size = font_at w size.
Proof. rewrite !font_at_unfold. reflexivity. Qed.

(** ** The fit loop of the batch generator *)

Lemma find_font_size_loop_eq text box_w box_h size w :
  find_font_size_loop text box_w box_h size w =
  if decide (20 ≤ size) then
    let fw := get_font size w in
    let bw := draw_textbbox text fw.1 fw.2 in
    if bool_decide (bbox2 bw.1 - bbox0 bw.1 ≤ box_w - 20 ∧
                    bbox3 bw.1 - bbox1 bw.1 ≤ box_h - 20)
    then (size, bw.2)
    else find_font_size_loop text box_w box_h (size - 4) bw.2
  else (20, w).
Proof.
  simp find_font_size_loop. destruct (decide (20 ≤ size)); reflexivity.
Qed.

Lemma find_ext {A} (P Q : A → bool) (l : list A) :
  (∀ x, P x = Q x) → List.find P l = List.find Q l.
Proof.
  intros HPQ. induction l as [|x l IH]; simpl; [reflexivity|].
  rewrite HPQ, IH. reflexivity.
Qed.

Lemma find_font_size_loop_spec text box_w box_h (n : nat) : ∀ size w,
  (Z.to_nat (size - 19) ≤ n)%nat →
  (find_font_size_loop text box_w box_h size w).1 =
  spec_fit (λ s, textbbox (font_at w s) text) size 20 4 20 box_w box_h.
Proof.
  induction n as [|n IH]; intros size w Hn;
    rewrite find_font_size_loop_eq; unfold spec_fit;
    destruct (decide (20 ≤ size)) as [Hge|Hlt]; try lia.
  - rewrite descending_nil by lia. reflexivity.
  - rewrite descending_cons by lia. cbn [List.find]. unfold fits at 1.
    cbn [draw_textbbox fst snd]. fold (font_at w size).
    destruct (bool_decide _); [reflexivity|].
    rewrite IH by lia. unfold spec_fit. f_equal. apply find_ext.
    intros s. by rewrite font_at_log, font_at_get_font.
  - rewrite descending_nil by lia. reflexivity.
Qed.

Lemma spec_fit_bounds measure max_size floor step padding box_w box_h :
  0 < step →
  floor ≤ spec_fit measure max_size floor step padding box_w box_h
        ≤ Z.max max_size floor.
Proof.
  intros Hstep. unfold spec_fit.
  destruct (List.find _ _) as [s|] eqn:Hfind; simpl; [|lia].
  apply find_some in Hfind as [Hin _]. apply list_elem_of_In in Hin.
  apply descending_bounds in Hin; lia.
Qed.

(** A larger box is fitted no later in the descending sequence. *)
Lemma spec_fit_mono measure floor step padding bw1 bh1 bw2 bh2 (n : nat) :
  0 < step → bw1 ≤ bw2 → bh1 ≤ bh2 → ∀ max_size,
  (Z.to_nat (max_size - floor + 1) ≤ n)%nat →
  spec_fit measure max_size floor step padding bw1 bh1
  ≤ spec_fit measure max_size floor step padding bw2 bh2.
Proof.
  intros Hstep Hw Hh. induction n as [|n IH]; intros max_size Hn.
  - unfold spec_fit. rewrite descending_nil by lia. reflexivity.
  - destruct (decide (floor ≤ max_size)) as [Hge|Hlt].
    + pose proof (IH (max_size - step) ltac:(lia)) as IH'.
      pose proof (spec_fit_bounds measure (max_size - step) floor step
                    padding bw1 bh1 Hstep) as Hb.
      unfold spec_fit in *. rewrite descending_cons by lia.
      cbn [List.find]. unfold fits at 1 3.
      repeat case_bool_decide; simpl; lia.
    + unfold spec_fit. rewrite descending_nil by lia. reflexivity.
Qed.

(** ** Loading a font in the backend *)

Lemma load_fallback_face paths size w :
  font_face (load_fallback paths size w).1 = spec_fallback paths size.
Proof.
  revert w. unfold spec_fallback.
  induction paths as [|path paths IH]; intros w; [reflexivity|].
  cbn [load_fallback List.find]. unfold ImageFont_truetype.
  destruct (truetype_loads path size); [reflexivity|]. apply IH.
Qed.

Lemma load_font_face font_filename size w :
  font_face (load_font font_filename size w).1 =
  spec_fallback (load_font_paths font_filename) size.
Proof.
  unfold load_font, load_font_paths.
  destruct (path_exists _); cbn [app].
  - unfold ImageFont_truetype, spec_fallback. cbn [List.find].
    destruct (truetype_loads _ size); [reflexivity|]. apply load_fallback_face.
  - apply load_fallback_face.
Qed.

Lemma measurements_log e w :
  measurements (log e w) =
  measurements w ++ (if is_textbbox e then [e] else []).
Proof.
  unfold measurements, log. cbn [calls]. rewrite filter_app. f_equal.
  destruct e; reflexivity.
Qed.

Lemma measurements_truetype path size w :
  measurements (ImageFont_truetype path size w).2 = measurements w.
Proof.
  assert (measurements (log (ETruetype path size) w) = measurements w) as Hlog
    by (rewrite measurements_log; apply app_nil_r).
  unfold ImageFont_truetype. destruct path as [p|]; [|exact Hlog].
  destruct (truetype_loads p size); exact Hlog.
Qed.

Lemma measurements_load_fallback paths size w :
  measurements (load_fallback paths size w).2 = measurements w.
Proof.
  revert w. induction paths as [|path paths IH]; intros w; [reflexivity|].
  cbn [load_fallback].
  pose proof (measurements_truetype (Some path) size w) as Ht.
  destruct (ImageFont_truetype (Some path) size w) as [[f|] w']; [exact Ht|].
  rewrite IH. exact Ht.
Qed.

Lemma measurements_load_font font_filename size w :
  measurements (load_font font_filename size w).2 = measurements w.
Proof.
  unfold load_font. destruct (path_exists _).
  - pose proof (measurements_truetype
                  (Some (path_join FONTS_DIR font_filename)) size w) as Ht.
    destruct (ImageFont_truetype _ size w) as [[f|] w']; [exact Ht|].
    rewrite measurements_load_fallback. exact Ht.
  - apply measurements_load_fallback.
Qed.

(** ** The fit loop of the backend *)

Lemma get_font_for_text_loop_eq name box_w box_h font_filename size w :
  get_font_for_text_loop name box_w box_h font_filename size w =
  if decide (min_font_size ≤ size) then
    let fw := load_font font_filename size w in
    let tmp := Image_new fw.2 in
    let bw := draw_textbbox name fw.1 tmp.2 in
    if bool_decide (bbox2 bw.1 - bbox0 bw.1 ≤ box_w - 10 ∧
                    bbox3 bw.1 - bbox1 bw.1 ≤ box_h - 10)
    then ((fw.1, size), bw.2)
    else get_font_for_text_loop name box_w box_h font_filename (size - 2) bw.2
  else
    let fw := load_font font_filename min_font_size w in
    ((fw.1, min_font_size), fw.2).
Proof.
  simp get_font_for_text_loop.
  destruct (decide (min_font_size ≤ size)); reflexivity.
Qed.

Lemma get_font_for_text_loop_spec name box_w box_h font_filename (n : nat) :
  ∀ size w,
  (Z.to_nat (size - 9) ≤ n)%nat →
  let r := (get_font_for_text_loop name box_w box_h font_filename size w).1 in
  r.2 = spec_fit (λ s, textbbox (spec_fallback (load_font_paths font_filename) s) name)
                 size 10 2 10 box_w box_h
  ∧ font_face r.1 = spec_fallback (load_font_paths font_filename) r.2.
Proof.
  induction n as [|n IH]; intros size w Hn;
    rewrite get_font_for_text_loop_eq; unfold spec_fit, min_font_size;
    destruct (decide (10 ≤ size)) as [Hge|Hlt]; try lia.
  - rewrite descending_nil by lia. split; [reflexivity|apply load_font_face].
  - rewrite descending_cons by lia. cbn [List.find]. unfold fits at 1.
    cbn [draw_textbbox fst snd]. rewrite load_font_face.
    destruct (bool_decide _).
    + split; [reflexivity|apply load_font_face].
    + apply IH. lia.
  - rewrite descending_nil by lia. split; [reflexivity|apply load_font_face].
Qed.

(** ** The fit *)

Lemma find_font_size_spec w (draw : nat) (text : string)
    (max_size box_w box_h : Z) :
  (find_font_size draw text max_size box_w box_h w).1 =
  spec_fit (λ s, textbbox (font_at w s) text) max_size 20 4 20 box_w box_h.
Proof.
  by apply (find_font_size_loop_spec _ _ _ (Z.to_nat (max_size - 19))).
Qed.

Lemma get_font_for_text_spec w (name : string) (box_w box_h max_size : Z)
    (font_filename : string) :
  (get_font_for_text name box_w box_h max_size font_filename w).1.2 =
    spec_fit (λ s, textbbox (spec_fallback (load_font_paths font_filename) s) name)
             max_size 10 2 10 box_w box_h
  ∧ font_face (get_font_for_text name box_w box_h max_size font_filename w).1.1 =
    spec_fallback (load_font_paths font_filename)
      (get_font_for_text name box_w box_h max_size font_filename w).1.2.
Proof.
  by apply (get_font_for_text_loop_spec _ _ _ _ (Z.to_nat (max_size - 9))).
Qed.

(** C1: the fit returns the first size of the descending sequence
    [max_size, max_size - step, ...] (step 4 and floor 20 in the batch
    generator, step 2 and floor 10 in the backend) whose measured box
    satisfies both the width and the height constraint, and the floor size
    when no size of the sequence does; the backend returns the font loaded at
    the size it returns.  Both functions are total: nothing is raised. *)
Theorem fit_first_fitting_size w (draw : nat) (text : string)
    (max_size box_w box_h : Z) (font_filename : string) :
  (find_font_size draw text max_size box_w box_h w).1 =
    spec_fit (λ s, textbbox (font_at w s) text) max_size 20 4 20 box_w box_h
  ∧ (get_font_for_text text box_w box_h max_size font_filename w).1.2 =
    spec_fit (λ s, textbbox (spec_fallback (load_font_paths font_filename) s) text)
             max_size 10 2 10 box_w box_h
  ∧ font_face (get_font_for_text text box_w box_h max_size font_filename w).1.1 =
    spec_fallback (load_font_paths font_filename)
      (get_font_for_text text box_w box_h max_size font_filename w).1.2.
Proof.
  split; [apply find_font_size_spec|apply get_font_for_text_spec].
Qed.

(** C3: when the maximum size is at least the floor size, the size the fit
    returns lies between the floor size and the maximum size. *)
Theorem fit_size_in_range w (draw : nat) (text : string)
    (max_size box_w box_h : Z) (font_filename : string) :
  (20 ≤ max_size →
   20 ≤ (find_font_size draw text max_size box_w box_h w).1 ≤ max_size)
  ∧ (10 ≤ max_size →
     10 ≤ (get_font_for_text text box_w box_h max_size font_filename w).1.2
        ≤ max_size).
Proof.
  rewrite find_font_size_spec.
  destruct (get_font_for_text_spec w text box_w box_h max_size font_filename)
    as [-> _].
  split; intros Hmax.
  - pose proof (spec_fit_bounds (λ s, textbbox (font_at w s) text)
                  max_size 20 4 20 box_w box_h) as Hb. lia.
  - pose proof (spec_fit_bounds
                  (λ s, textbbox (spec_fallback (load_font_paths font_filename) s) text)
                  max_size 10 2 10 box_w box_h) as Hb. lia.
Qed.

(** C6: for the same text and the same maximum size, a box that contains
    another one, strictly in at least one dimension, is fitted at a size at
    least as large. *)
Theorem fit_monotone w (draw : nat) (text : string) (max_size : Z)
    (bw1 bh1 bw2 bh2 : Z) (font_filename : string) :
  bw1 ≤ bw2 → bh1 ≤ bh2 → bw1 < bw2 ∨ bh1 < bh2 →
  (find_font_size draw text max_size bw1 bh1 w).1
    ≤ (find_font_size draw text max_size bw2 bh2 w).1
  ∧ (get_font_for_text text bw1 bh1 max_size font_filename w).1.2
    ≤ (get_font_for_text text bw2 bh2 max_size font_filename w).1.2.
Proof.
  intros Hw Hh _.
  rewrite !find_font_size_spec.
  destruct (get_font_for_text_spec w text bw1 bh1 max_size font_filename)
    as [-> _].
  destruct (get_font_for_text_spec w text bw2 bh2 max_size font_filename)
    as [-> _].
  split.
  - by apply (spec_fit_mono _ _ _ _ _ _ _ _ (Z.to_nat (max_size - 20 + 1))).
  - by apply (spec_fit_mono _ _ _ _ _ _ _ _ (Z.to_nat (max_size - 10 + 1))).
Qed.

(** C10: below the floor size the fit measures nothing and returns the
    floor size, which is above the maximum size asked for.  The batch
    generator leaves its state as it is; the backend loads the font of the
    floor size. *)
Theorem fit_below_floor w (draw : nat) (text : string)
    (max_size box_w box_h : Z) (font_filename : string) :
  (max_size < 20 →
   find_font_size draw text max_size box_w box_h w = (20, w)
   ∧ max_size < (find_font_size draw text max_size box_w box_h w).1)
  ∧ (max_size < 10 →
     get_font_for_text text box_w box_h max_size font_filename w =
       (((load_font font_filename 10 w).1, 10), (load_font font_filename 10 w).2)
     ∧ measurements
         (get_font_for_text text box_w box_h max_size font_filename w).2 =
       measurements w
     ∧ max_size < (get_font_for_text text box_w box_h max_size font_filename w).1.2).
Proof.
  unfold find_font_size, get_font_for_text. split; intros Hmax.
  - rewrite find_font_size_loop_eq. destruct (decide (20 ≤ max_size)); [lia|].
    by split.
  - rewrite get_font_for_text_loop_eq. unfold min_font_size.
    destruct (decide (10 ≤ max_size)); [lia|]. cbn [fst snd].
    split; [reflexivity|]. split; [apply measurements_load_font|lia].
Qed.

(** ** Rules for statements that may raise *)

Lemma triple_ret {A} (I : world → Prop) (φ : A → Prop) (a : A) :
  φ a → triple I (ret a) φ.
Proof. intros Ha w Hw. split; [exact Hw|]. simpl. by intros ? [= <-]. Qed.

Lemma triple_raise {A} (I : world → Prop) (φ : A → Prop) (e : string) :
  triple I (raise e) φ.
Proof. intros w Hw. split; [exact Hw|]. simpl. by intros ? [=]. Qed.

Lemma triple_bind {A B} (I : world → Prop) (m : M A) (k : A → M B)
    (φ : A → Prop) (ψ : B → Prop) :
  triple I m φ → (∀ a, φ a → triple I (k a) ψ) → triple I (bind m k) ψ.
Proof.
  intros Hm Hk w Hw. destruct (Hm w Hw) as [Hw' Ha]. unfold bind.
  destruct (m w) as [[e|a] w']; simpl in *.
  - split; [exact Hw'|]. by intros ? [=].
  - apply (Hk a); [by apply Ha|exact Hw'].
Qed.

Lemma triple_gets {A} (I : world → Prop) (f : world → A) (φ : A → Prop) :
  (∀ w, I w → φ (f w)) → triple I (gets f) φ.
Proof.
  intros Hf w Hw. split; [exact Hw|]. simpl. intros ? [= <-]. by apply Hf.
Qed.

Lemma triple_modify (I : world → Prop) (f : world → world) :
  (∀ w, I w → I (f w)) → triple I (modify f) (λ _, True).
Proof. intros Hf w Hw. split; [by apply Hf|done]. Qed.

Lemma triple_lift {A} (I : world → Prop) (f : world → A * world)
    (φ : A → Prop) :
  (∀ w, I w → I (f w).2 ∧ φ (f w).1) → triple I (lift f) φ.
Proof.
  intros Hf w Hw. destruct (Hf w Hw) as [Hw' Ha]. unfold lift.
  destruct (f w) as [a w']. split; [exact Hw'|]. simpl. by intros ? [= <-].
Qed.

Lemma triple_try_except {A} (I : world → Prop) (body : M A)
    (handler : string → M A) (φ : A → Prop) :
  triple I body φ → (∀ e, triple I (handler e) φ) →
  triple I (try_except body handler) φ.
Proof.
  intros Hb Hh w Hw. destruct (Hb w Hw) as [Hw' Ha]. unfold try_except.
  destruct (body w) as [[e|a] w']; simpl in *.
  - by apply Hh.
  - split; [exact Hw'|]. intros ? [= <-]. by apply Ha.
Qed.

Lemma triple_weaken {A} (I : world → Prop) (m : M A) (φ ψ : A → Prop) :
  triple I m φ → (∀ a, φ a → ψ a) → triple I m ψ.
Proof.
  intros Hm Himp w Hw. destruct (Hm w Hw) as [Hw' Ha].
  split; [exact Hw'|]. intros a Heq. by apply Himp, Ha.
Qed.

(** ** What the operations of a worker leave as it is *)

Lemma stable_refl w : stable w w.
Proof. by repeat split. Qed.

(** A change of state that touches neither the globals, the cache nor the
    log, and keeps the image objects of [w0]. *)
Lemma stable_frame w0 w w' :
  stable w0 w →
  _worker_template_img w' = _worker_template_img w →
  _worker_font_path w' = _worker_font_path w →
  _worker_font_cache w' = _worker_font_cache w →
  calls w' = calls w →
  images w0 `prefix_of` images w' →
  stable w0 w'.
Proof.
  intros (Ht & Hp & Hc & Hi & Hl) Ht' Hp' Hc' Hcalls Hi'.
  repeat split; [congruence|congruence|by rewrite Hc'|exact Hi'|].
  intros H0 size. specialize (Hl H0 size).
  unfold load_count in *. by rewrite Hc', Hcalls.
Qed.

Lemma load_count_log size e w :
  load_count size (log e w) =
  (load_count size w + (if is_load size e then 1 else 0))%nat.
Proof.
  unfold load_count, log. cbn [calls]. rewrite filter_app, length_app.
  f_equal. rewrite filter_cons, filter_nil.
  destruct (is_load size e); by case_decide.
Qed.

Lemma stable_log e w0 w :
  (∀ size, is_load size e = false) → stable w0 w → stable w0 (log e w).
Proof.
  intros He (Ht & Hp & Hc & Hi & Hl). repeat split; try done.
  intros H0 size. rewrite load_count_log, He, Nat.add_0_r. by apply Hl.
Qed.

Lemma get_font_calls size w :
  calls (get_font size w).2 =
  calls w ++ match _worker_font_cache w !! size with
             | Some _ => []
             | None => [ETruetype (_worker_font_path w) size]
             end.
Proof.
  unfold get_font, ImageFont_truetype, ImageFont_load_default.
  destruct (_worker_font_cache w !! size); [by rewrite app_nil_r|].
  destruct (_worker_font_path w) as [p|] eqn:Hp; cbn; [|done].
  destruct (truetype_loads p size); done.
Qed.

Lemma get_font_frame size w :
  _worker_template_img (get_font size w).2 = _worker_template_img w
  ∧ images (get_font size w).2 = images w
  ∧ files (get_font size w).2 = files w
  ∧ font_size_cache (get_font size w).2 = font_size_cache w.
Proof.
  unfold get_font, ImageFont_truetype, ImageFont_load_default.
  destruct (_worker_font_cache w !! size); [done|].
  destruct (_worker_font_path w) as [p|] eqn:Hp; cbn; [|done].
  destruct (truetype_loads p size); done.
Qed.

Lemma get_font_hit size f w :
  _worker_font_cache w !! size = Some f → get_font size w = (f, w).
Proof. intros Hc. unfold get_font. by rewrite Hc. Qed.

Lemma loaded_once_get_font size w :
  loaded_once w → loaded_once (get_font size w).2.
Proof.
  intros Hl size'. specialize (Hl size'). unfold load_count in *.
  rewrite get_font_calls, get_font_font_cache.
  destruct (_worker_font_cache w !! size) as [f|] eqn:Hc.
  - rewrite app_nil_r, Hl.
    destruct (decide (size = size')) as [->|Hne].
    + by rewrite lookup_insert_eq, Hc.
    + by rewrite lookup_insert_ne.
  - rewrite filter_app, length_app, Hl, filter_cons, filter_nil.
    cbn [is_load]. destruct (decide (size = size')) as [->|Hne].
    + rewrite lookup_insert_eq, Hc. rewrite bool_decide_eq_true_2 by done.
      by case_decide.
    + rewrite lookup_insert_ne by done.
      rewrite bool_decide_eq_false_2 by done. case_decide; [done|].
      simpl. lia.
Qed.

Lemma stable_get_font size w0 w :
  stable w0 w → stable w0 (get_font size w).2.
Proof.
  intros (Ht & Hp & Hc & Hi & Hl).
  destruct (get_font_frame size w) as (Ht' & Hi' & _).
  repeat split.
  - congruence.
  - rewrite get_font_font_path. exact Hp.
  - etrans; [exact Hc|]. rewrite get_font_font_cache.
    destruct (_worker_font_cache w !! size) as [f|] eqn:Hhit.
    + rewrite (get_font_hit _ _ _ Hhit). simpl. by rewrite insert_id.
    + by apply insert_subseteq.
  - by rewrite Hi'.
  - intros H0. by apply loaded_once_get_font, Hl.
Qed.

Lemma stable_find_font_size_loop text box_w box_h w0 (n : nat) :
  ∀ size w, (Z.to_nat (size - 19) ≤ n)%nat → stable w0 w →
  stable w0 (find_font_size_loop text box_w box_h size w).2.
Proof.
  induction n as [|n IH]; intros size w Hn Hw;
    rewrite find_font_size_loop_eq;
    destruct (decide (20 ≤ size)) as [Hge|Hlt]; try lia; try exact Hw.
  assert (stable w0 (draw_textbbox text (get_font size w).1 (get_font size w).2).2)
    as Hw' by (by apply stable_log, stable_get_font).
  cbn zeta. destruct (bool_decide _); [exact Hw'|]. apply IH; [lia|exact Hw'].
Qed.

Lemma stable_find_font_size draw text max_size box_w box_h w0 w :
  stable w0 w → stable w0 (find_font_size draw text max_size box_w box_h w).2.
Proof.
  apply (stable_find_font_size_loop _ _ _ _ (Z.to_nat (max_size - 19))). lia.
Qed.

Lemma prefix_of_insert {A} (l0 l : list A) (i : nat) (x : A) :
  l0 `prefix_of` l → (length l0 ≤ i)%nat → l0 `prefix_of` <[i := x]> l.
Proof.
  intros [k ->] Hi. rewrite insert_app_r_alt by done. by eexists.
Qed.

Lemma triple_Image_copy w0 (img : nat) :
  triple (stable w0) (Image_copy img) (λ r, (length (images w0) ≤ r)%nat).
Proof.
  intros w Hw. unfold Image_copy.
  destruct (images w !! img) as [p|]; simpl.
  - split.
    + apply (stable_frame w0 w); try done.
      destruct Hw as (_ & _ & _ & Hi & _). by apply prefix_app_r.
    + intros ? [= <-]. destruct Hw as (_ & _ & _ & Hi & _).
      by apply prefix_length.
  - split; [exact Hw|]. by intros ? [=].
Qed.

Lemma triple_ImageDraw_text w0 (draw : nat) xy text f fill :
  (length (images w0) ≤ draw)%nat →
  triple (stable w0) (ImageDraw_text draw xy text f fill) (λ _, True).
Proof.
  intros Hdraw w Hw. unfold ImageDraw_text.
  assert (stable w0 (log (EText draw xy text f fill) w)) as Hw'
    by (by apply stable_log).
  cbn zeta. destruct (images _ !! draw) as [p|]; [|by split].
  destruct (draw_text p xy text (font_face f) fill) as [e|p']; [by split|].
  split; [|done]. apply (stable_frame w0 _ _ Hw'); try done.
  apply prefix_of_insert; [|done]. by destruct Hw' as (_ & _ & _ & Hi & _).
Qed.

Lemma triple_Image_save w0 (img : nat) (path : string) :
  triple (stable w0) (Image_save img path) (λ _, True).
Proof.
  intros w Hw. unfold Image_save.
  destruct (images w !! img) as [p|]; [|by split].
  destruct (save_error path p); [by split|].
  split; [|done]. apply (stable_frame w0 w); try done.
  by destruct Hw as (_ & _ & _ & Hi & _).
Qed.

Lemma triple_render_item w0 (item : task) :
  triple (stable w0) (render_item item) (λ _, True).
Proof.
  destruct item as [[name output_path] max_font_size]. unfold render_item.
  apply triple_bind with (φ := λ _, True); [by apply triple_gets|].
  intros template _.
  apply triple_bind with (φ := λ img, (length (images w0) ≤ img)%nat).
  { destruct template; [apply triple_Image_copy|apply triple_raise]. }
  intros img Himg.
  apply triple_bind with (φ := λ _, True); [by apply triple_gets|].
  intros known _.
  apply triple_bind with (φ := λ _, True).
  { destruct known; [by apply triple_ret|].
    apply triple_bind with (φ := λ _, True).
    - apply triple_lift. intros w Hw. split; [|done].
      by apply stable_find_font_size.
    - intros size _. apply triple_modify. intros w Hw.
      by apply (stable_frame w0 w); try done; destruct Hw as (_ & _ & _ & Hi & _). }
  intros _ _.
  apply triple_bind with (φ := λ _, True); [by apply triple_gets|].
  intros cached _.
  apply triple_bind with (φ := λ _, True).
  { destruct cached; [by apply triple_ret|apply triple_raise]. }
  intros font_size _.
  apply triple_bind with (φ := λ _, True).
  { apply triple_lift. intros w Hw. split; [|done]. by apply stable_get_font. }
  intros f _.
  apply triple_bind with (φ := λ _, True).
  { apply triple_lift. intros w Hw. split; [|done]. by apply stable_log. }
  intros b _.
  apply triple_bind with (φ := λ _, True);
    [by apply triple_ImageDraw_text|].
  intros _ _. apply triple_Image_save.
Qed.

Lemma triple_process_item w0 (item : task) :
  triple (stable w0) (process_item item) (λ _, True).
Proof.
  apply triple_try_except.
  - apply triple_bind with (φ := λ _, True); [apply triple_render_item|].
    intros _ _. by apply triple_ret.
  - intros e. by apply triple_ret.
Qed.

Lemma triple_process_batch_loop w0 (batch : list task) :
  ∀ results, triple (stable w0) (process_batch_loop batch results) (λ _, True).
Proof.
  induction batch as [|item batch IH]; intros results; simpl.
  - by apply triple_ret.
  - apply triple_bind with (φ := λ _, True); [apply triple_process_item|].
    intros r _. apply IH.
Qed.

Lemma stable_process_batch (batch : list task) w0 w :
  stable w0 w → stable w0 (process_batch batch w).2.
Proof.
  intros Hw.
  assert (triple (stable w0) (process_batch batch) (λ _, True)) as Ht.
  { apply triple_bind with (φ := λ _, True).
    - apply triple_modify. intros w' Hw'.
      by apply (stable_frame w0 w'); try done;
        destruct Hw' as (_ & _ & _ & Hi & _).
    - intros _ _. apply triple_process_batch_loop. }
  by apply Ht.
Qed.

(** ** Image objects in the backend *)

Lemma images_truetype path size w :
  images (ImageFont_truetype path size w).2 = images w.
Proof.
  unfold ImageFont_truetype. destruct path as [p|]; [|done].
  by destruct (truetype_loads p size).
Qed.

Lemma images_load_fallback paths size w :
  images (load_fallback paths size w).2 = images w.
Proof.
  revert w. induction paths as [|path paths IH]; intros w; [done|].
  cbn [load_fallback].
  pose proof (images_truetype (Some path) size w) as Ht.
  destruct (ImageFont_truetype (Some path) size w) as [[f|] w']; [exact Ht|].
  rewrite IH. exact Ht.
Qed.

Lemma images_load_font font_filename size w :
  images (load_font font_filename size w).2 = images w.
Proof.
  unfold load_font. destruct (path_exists _).
  - pose proof (images_truetype
                  (Some (path_join FONTS_DIR font_filename)) size w) as Ht.
    destruct (ImageFont_truetype _ size w) as [[f|] w']; [exact Ht|].
    rewrite images_load_fallback. exact Ht.
  - apply images_load_fallback.
Qed.

Lemma images_get_font_for_text_loop name box_w box_h font_filename (n : nat) :
  ∀ size w, (Z.to_nat (size - 9) ≤ n)%nat →
  images w `prefix_of`
    images (get_font_for_text_loop name box_w box_h font_filename size w).2.
Proof.
  induction n as [|n IH]; intros size w Hn;
    rewrite get_font_for_text_loop_eq; unfold min_font_size;
    destruct (decide (10 ≤ size)) as [Hge|Hlt]; try lia;
    try (cbn [snd]; by rewrite images_load_font).
  cbn zeta.
  assert (images w `prefix_of`
          images (draw_textbbox name (load_font font_filename size w).1
                    (Image_new (load_font font_filename size w).2).2).2) as Hw'.
  { cbn [draw_textbbox Image_new log snd images set_images].
    rewrite images_load_font. by apply prefix_app_r. }
  destruct (bool_decide _); [exact Hw'|].
  etrans; [exact Hw'|]. apply IH. lia.
Qed.

Lemma triple_draw_certificate_body (l0 : list pixels) (img : nat) (name : string)
    (box : Z * Z * Z * Z) (max_font_size : Z) (color font_filename : string) :
  (length l0 ≤ img)%nat →
  triple (λ w, l0 `prefix_of` images w)
    (let '(x, y, bw, bh) := box in
     let* fs := lift (get_font_for_text name bw bh max_font_size font_filename) in
     let font := fs.1 in
     let* bbox := lift (draw_textbbox name font) in
     let text_w := bbox2 bbox - bbox0 bbox in
     let text_h := bbox3 bbox - bbox1 bbox in
     let text_x := x + (bw - text_w) `div` 2 in
     let text_y := y + bh - text_h - 5 in
     let text_x := text_x - bbox0 bbox in
     let text_y := text_y - bbox1 bbox in
     ImageDraw_text img (text_x, text_y) name font (ColorSpec color) ;;
     ret img)
    (λ r, r = img).
Proof.
  intros Himg. destruct box as [[[x y] bw] bh].
  apply triple_bind with (φ := λ _, True).
  { apply triple_lift. intros w Hw. split; [|done]. etrans; [exact Hw|].
    apply (images_get_font_for_text_loop _ _ _ _
             (Z.to_nat (max_font_size - 9))). lia. }
  intros fs _.
  apply triple_bind with (φ := λ _, True).
  { apply triple_lift. by intros w Hw. }
  intros b _.
  apply triple_bind with (φ := λ _, True); [|intros _ _; by apply triple_ret].
  intros w Hw. unfold ImageDraw_text. cbn zeta.
  destruct (images _ !! img) as [p|]; [|by split].
  destruct (draw_text p _ name _ _) as [e|p']; [by split|].
  split; [|done]. by apply prefix_of_insert.
Qed.

Lemma draw_certificate_images (template : nat) (name : string)
    (box : Z * Z * Z * Z) (max_font_size : Z) (color font_filename : string) w :
  images w `prefix_of`
    images (draw_certificate template name box max_font_size color
              font_filename w).2
  ∧ ∀ img, (draw_certificate template name box max_font_size color
              font_filename w).1 = inr img →
           img = length (images w).
Proof.
  destruct (draw_certificate _ _ _ _ _ _ w) as [r w'] eqn:Hd.
  unfold draw_certificate in Hd. unfold bind at 1 in Hd.
  unfold Image_copy in Hd.
  destruct (images w !! template) as [p|].
  - pose proof (triple_draw_certificate_body (images w) (length (images w))
                  name box max_font_size color font_filename (le_n _)
                  (set_images (images w ++ [p]) w)
                  (prefix_app_r _ _ _ (reflexivity _))) as Hbody.
    cbv beta zeta in Hbody, Hd. by rewrite Hd in Hbody.
  - injection Hd as <- <-. split; [reflexivity|by intros ? [=]].
Qed.

Lemma generate_rows_images (template_img : nat) (name_column : string)
    (box : Z * Z * Z * Z) (font_size : Z) (font_color font_file : string)
    (rows : list (gmap string string)) :
  ∀ zf generated_count w,
  images w `prefix_of`
    images (generate_rows template_img name_column box font_size font_color
              font_file rows zf generated_count w).2.
Proof.
  induction rows as [|row rows IH]; intros zf generated_count w;
    cbn [generate_rows]; [reflexivity|].
  destruct (decide (strip (default EmptyString (row !! name_column)) = EmptyString));
    [apply IH|].
  unfold bind at 1.
  pose proof (draw_certificate_images template_img
                (strip (default EmptyString (row !! name_column)))
                box font_size font_color font_file w) as [Hd _].
  destruct (draw_certificate _ _ _ _ _ _ w) as [[e|cert_img] w1];
    [exact Hd|].
  unfold bind, gets. cbn [fst snd] in *.
  destruct (images w1 !! cert_img) as [p|]; [|exact Hd].
  etrans; [exact Hd|apply IH].
Qed.

(** The image [draw_certificate] returns holds the pixels of the template
    with the text drawn on them. *)
Lemma draw_certificate_returns_copy (template : nat) (name : string)
    (box : Z * Z * Z * Z) (max_font_size : Z) (color font_filename : string)
    w (p : pixels) (img : nat) :
  images w !! template = Some p →
  (draw_certificate template name box max_font_size color font_filename w).1
    = inr img →
  ∃ xy f p',
    draw_text p xy name (font_face f) (ColorSpec color) = inr p'
    ∧ images (draw_certificate template name box max_font_size color
                font_filename w).2 !! img = Some p'.
Proof.
  intros Hp. destruct box as [[[x y] bw] bh].
  unfold draw_certificate, bind, lift, Image_copy. rewrite Hp.
  pose proof (images_get_font_for_text_loop name bw bh font_filename
                (Z.to_nat (max_font_size - 9)) max_font_size
                (set_images (images w ++ [p]) w) ltac:(lia)) as Hpre.
  fold (get_font_for_text name bw bh max_font_size font_filename
          (set_images (images w ++ [p]) w)) in Hpre.
  destruct (get_font_for_text name bw bh max_font_size font_filename _)
    as [[f fsize] w1].
  cbn [fst snd draw_textbbox set_images images] in *.
  assert (images w1 !! length (images w) = Some p) as Hcell.
  { eapply prefix_lookup_Some; [|exact Hpre]. apply list_lookup_middle. done. }
  unfold ImageDraw_text. cbn zeta. cbn [log images]. rewrite Hcell.
  destruct (draw_text p _ name (font_face f) (ColorSpec color)) as [e|p'] eqn:Hdraw;
    cbn [fst snd ret]; [by intros [=]|].
  intros [= <-]. eexists _, f, p'. split; [exact Hdraw|].
  cbn [set_images images log]. apply list_lookup_insert_eq.
  by eapply lookup_lt_Some.
Qed.

(** ** The template *)

(** C7: a render leaves the image objects that exist as they are, the
    decoded template among them.  A batch keeps the global that refers to
    the template; [draw_certificate] copies the template, draws on the copy
    and returns the copy, a new object that holds the pixels of the
    template with the text drawn on them; the loop of the backend over the
    rows leaves the template as it is after any number of rows. *)
Theorem template_unchanged (batch : list task) (name name_column : string)
    (box : Z * Z * Z * Z) (max_font_size : Z) (color font_filename : string)
    (rows : list (gmap string string)) (zf : list (string * pixels))
    (generated_count : nat) w (template : nat) (p : pixels) :
  images w !! template = Some p →
  (_worker_template_img (process_batch batch w).2 = _worker_template_img w
   ∧ images (process_batch batch w).2 !! template = Some p)
  ∧ (images (draw_certificate template name box max_font_size color
               font_filename w).2 !! template = Some p
     ∧ ∀ img, (draw_certificate template name box max_font_size color
                 font_filename w).1 = inr img →
              img = length (images w) ∧ img ≠ template
              ∧ ∃ xy f p',
                  draw_text p xy name (font_face f) (ColorSpec color) = inr p'
                  ∧ images (draw_certificate template name box max_font_size
                              color font_filename w).2 !! img = Some p')
  ∧ images (generate_rows template name_column box max_font_size color
              font_filename rows zf generated_count w).2 !! template = Some p.
Proof.
  intros Hp. split; [|split].
  - destruct (stable_process_batch batch w w (stable_refl w))
      as (Ht & _ & _ & Hi & _).
    split; [exact Ht|]. by eapply prefix_lookup_Some.
  - destruct (draw_certificate_images template name box max_font_size color
                font_filename w) as [Hi Himg].
    split; [by eapply prefix_lookup_Some|].
    intros img Hr. specialize (Himg img Hr). split; [exact Himg|].
    split; [apply lookup_lt_Some in Hp; lia|].
    by apply draw_certificate_returns_copy.
  - eapply prefix_lookup_Some; [exact Hp|]. apply generate_rows_images.
Qed.

(** ** The life of a worker *)

Lemma NoDup_py_range start stop step :
  0 < step → NoDup (py_range start stop step).
Proof.
  intros Hstep. unfold py_range. apply NoDup_fmap_2; [|apply NoDup_seq].
  intros k1 k2 Heq. nia.
Qed.

Lemma preload_effect font_path w size :
  ∃ f, _worker_font_cache (preload font_path w size) =
         <[size := f]> (_worker_font_cache w)
       ∧ calls (preload font_path w size) =
         calls w ++ [ETruetype (Some font_path) size].
Proof.
  unfold preload, ImageFont_truetype, ImageFont_load_default.
  destruct (truetype_loads font_path size); cbn; eauto.
Qed.

Lemma loaded_once_preload font_path w size :
  loaded_once w → _worker_font_cache w !! size = None →
  loaded_once (preload font_path w size).
Proof.
  intros Hl Hnone size'. specialize (Hl size'). unfold load_count in *.
  destruct (preload_effect font_path w size) as (f & -> & ->).
  rewrite filter_app, length_app, Hl, filter_cons, filter_nil. cbn [is_load].
  destruct (decide (size = size')) as [->|Hne].
  - rewrite lookup_insert_eq, Hnone, bool_decide_eq_true_2 by done.
    by case_decide.
  - rewrite lookup_insert_ne, bool_decide_eq_false_2 by done.
    case_decide; [done|]. simpl. lia.
Qed.

Lemma loaded_once_foldl_preload font_path (sizes : list Z) :
  ∀ w, NoDup sizes → loaded_once w →
  (∀ size, size ∈ sizes → _worker_font_cache w !! size = None) →
  loaded_once (foldl (preload font_path) w sizes).
Proof.
  induction sizes as [|size sizes IH]; intros w Hnd Hl Hnone; [exact Hl|].
  apply NoDup_cons in Hnd as [Hnotin Hnd]. cbn [foldl]. apply IH.
  - exact Hnd.
  - apply loaded_once_preload; [exact Hl|]. apply Hnone. left.
  - intros size' Hin.
    destruct (preload_effect font_path w size) as (f & -> & _).
    rewrite lookup_insert_ne by (intros ->; contradiction).
    apply Hnone. by right.
Qed.

Lemma init_worker_loaded_once template_bytes font_path max_font_size w0 :
  init_worker template_bytes font_path max_font_size initial_world
    = (inr (), w0) →
  loaded_once w0.
Proof.
  unfold init_worker, bind, modify, Image_open. cbn.
  destruct (decode template_bytes) as [e|p]; [by intros [=]|].
  intros [= <-]. apply loaded_once_foldl_preload.
  - by apply NoDup_py_range.
  - intros size. unfold load_count. cbn. by rewrite lookup_empty.
  - intros size _. cbn. apply lookup_empty.
Qed.

Lemma stable_trans w0 w1 w2 : stable w0 w1 → stable w1 w2 → stable w0 w2.
Proof.
  intros (Ht & Hp & Hc & Hi & Hl) (Ht' & Hp' & Hc' & Hi' & Hl').
  repeat split; [congruence|congruence|by etrans|by etrans|auto].
Qed.

Lemma worker_step_stable w w' : worker_step w w' → stable w w'.
Proof.
  intros [size w1|draw text max_size box_w box_h w1|batch w1].
  - apply stable_get_font, stable_refl.
  - apply stable_find_font_size, stable_refl.
  - apply stable_process_batch, stable_refl.
Qed.

Lemma worker_steps_stable w w' : rtc worker_step w w' → stable w w'.
Proof.
  induction 1 as [w|w w1 w2 Hstep _ IH]; [apply stable_refl|].
  eapply stable_trans; [by apply worker_step_stable|exact IH].
Qed.

Lemma stable_lookup w w' size f :
  stable w w' → _worker_font_cache w !! size = Some f →
  _worker_font_cache w' !! size = Some f.
Proof.
  intros (_ & _ & Hc & _) Hf. by eapply lookup_weaken.
Qed.

(** C9: in the life of a worker, from [init_worker] on, the font resource
    is loaded at most once for a size; an entry of the cache is neither
    evicted nor replaced; and once the font of a size was asked for, every
    later call for that size returns the font object of the first call and
    loads nothing. *)
Theorem font_cache_loads_once (template_bytes font_path : string)
    (max_font_size : Z) w0 w :
  init_worker template_bytes font_path max_font_size initial_world
    = (inr (), w0) →
  rtc worker_step w0 w →
  (∀ size, (load_count size w ≤ 1)%nat)
  ∧ (∀ size f w', _worker_font_cache w !! size = Some f →
       rtc worker_step w w' →
       _worker_font_cache w' !! size = Some f ∧ get_font size w' = (f, w'))
  ∧ (∀ size w', rtc worker_step (get_font size w).2 w' →
       get_font size w' = ((get_font size w).1, w')).
Proof.
  intros Hinit Hsteps. split; [|split].
  - intros size. apply init_worker_loaded_once in Hinit.
    apply worker_steps_stable in Hsteps as (_ & _ & _ & _ & Hl).
    rewrite (Hl Hinit size). destruct (_ !! size); lia.
  - intros size f w' Hf Hsteps'. apply worker_steps_stable in Hsteps'.
    pose proof (stable_lookup _ _ _ _ Hsteps' Hf) as Hf'.
    split; [exact Hf'|by apply get_font_hit].
  - intros size w' Hsteps'. apply worker_steps_stable in Hsteps'.
    apply get_font_hit. eapply stable_lookup; [exact Hsteps'|].
    rewrite get_font_font_cache. apply lookup_insert_eq.
Qed.

(** ** The results of a batch *)

Lemma process_item_eq (item : task) w :
  process_item item w =
  (inr (result_of item.1.1 (render_item item w).1), (render_item item w).2).
Proof.
  unfold process_item, try_except, bind, ret.
  by destruct (render_item item w) as [[e|[]] w'].
Qed.

Lemma process_batch_loop_cons (item : task) (batch : list task)
    (results : list RenderResult) w :
  process_batch_loop (item :: batch) results w =
  process_batch_loop batch
    (results ++ [result_of item.1.1 (render_item item w).1])
    (render_item item w).2.
Proof.
  cbn [process_batch_loop]. unfold bind at 1. by rewrite process_item_eq.
Qed.

Lemma tagged_result_of (item : task) (outcome : string + ()) :
  tagged item (result_of item.1.1 outcome).
Proof. destruct outcome as [e|[]]; [right; by exists e|by left]. Qed.

Lemma process_batch_loop_results (batch : list task) :
  ∀ results w, ∃ new,
    (process_batch_loop batch results w).1 = inr (results ++ new)
    ∧ Forall2 tagged batch new.
Proof.
  induction batch as [|item batch IH]; intros results w.
  - exists []. by rewrite app_nil_r.
  - rewrite process_batch_loop_cons.
    destruct (IH (results ++ [result_of item.1.1 (render_item item w).1])
                 (render_item item w).2) as (new & -> & Hnew).
    eexists (_ :: new). rewrite <- app_assoc. split; [done|].
    constructor; [apply tagged_result_of|exact Hnew].
Qed.

Lemma process_batch_results (batch : list task) w :
  ∃ results, (process_batch batch w).1 = inr results
             ∧ Forall2 tagged batch results.
Proof.
  unfold process_batch, bind, modify.
  destruct (process_batch_loop_results batch [] (set_font_size_cache ∅ w))
    as (new & Hnew & Htag).
  by exists new.
Qed.

Lemma successes_failures (results : list RenderResult) :
  (successes results + failures results = length results)%nat.
Proof.
  unfold successes, failures. rewrite <- length_app.
  apply Permutation_length, filter_app_complement.
Qed.

Lemma foldl_collect_result (results : list RenderResult) : ∀ t,
  completed (foldl collect_result t results)
    = (completed t + length results)%nat
  ∧ errors (foldl collect_result t results)
    = (errors t + failures results)%nat.
Proof.
  unfold failures.
  induction results as [|r results IH]; intros t; cbn [foldl].
  - simpl. lia.
  - destruct (IH (collect_result t r)) as [-> ->].
    rewrite filter_cons. destruct r; cbn; case_decide; simpl in *;
      try congruence; lia.
Qed.

Lemma collect_future_of (runs : list run) : ∀ t,
  completed (foldl collect_future t (future_of <$> runs))
    = (completed t + sum_list_with (λ r, length r.1) runs)%nat
  ∧ errors (foldl collect_future t (future_of <$> runs))
    = (errors t + sum_list_with errors_of runs)%nat.
Proof.
  induction runs as [|[batch [w|]] runs IH]; intros t;
    cbn [fmap list_fmap foldl].
  - simpl. lia.
  - destruct (IH (collect_future t (future_of (batch, Some w)))) as [-> ->].
    unfold errors_of, collect_future, future_of. cbn [fst snd sum_list_with].
    destruct (process_batch_results batch w) as (results & -> & Htag).
    apply Forall2_length in Htag.
    destruct (foldl_collect_result results t) as [-> ->]. lia.
  - destruct (IH (collect_future t (future_of (batch, None)))) as [-> ->].
    unfold errors_of, collect_future, future_of. cbn. lia.
Qed.

(** ** Batches *)

Lemma concat_chunks {A} (k : nat) (m : nat) : ∀ l : list A,
  (length l ≤ m * k)%nat →
  concat ((λ j : nat, take k (drop (j * k) l)) <$> seq 0 m) = l.
Proof.
  induction m as [|m IH]; intros l Hlen.
  - destruct l; [done|simpl in Hlen; lia].
  - cbn [seq fmap list_fmap concat]. rewrite drop_0, <- fmap_S_seq.
    rewrite <- list_fmap_compose.
    etrans; [|apply (take_drop k l)]. f_equal.
    etrans; [|apply (IH (drop k l)); rewrite length_drop; lia].
    f_equal. apply list_fmap_ext. intros _ j _. simpl.
    rewrite drop_drop. do 2 f_equal; lia.
Qed.

Lemma split_batches_concat (tasks : list task) (batch_size : Z) :
  0 < batch_size →
  ∃ batches, split_batches tasks batch_size = inr batches
             ∧ concat batches = tasks.
Proof.
  intros Hpos. unfold split_batches.
  rewrite decide_False, decide_False by lia. eexists. split; [done|].
  unfold py_range. rewrite <- list_fmap_compose.
  set (m := Z.to_nat ((Z.of_nat (length tasks) - 0 + batch_size - 1)
                        `div` batch_size)).
  etrans; [|apply (concat_chunks (Z.to_nat batch_size) m tasks)].
  - f_equal. apply list_fmap_ext. intros _ j _. simpl. do 2 f_equal; lia.
  - pose proof (Z.div_mod (Z.of_nat (length tasks) - 0 + batch_size - 1)
                  batch_size ltac:(lia)) as Hdm.
    pose proof (Z.mod_pos_bound (Z.of_nat (length tasks) - 0 + batch_size - 1)
                  batch_size Hpos) as Hm.
    assert (0 ≤ (Z.of_nat (length tasks) - 0 + batch_size - 1) `div` batch_size)
      by (apply Z.div_pos; lia).
    unfold m. nia.
Qed.

Lemma sum_list_with_length_concat {A} (ls : list (list A)) :
  sum_list_with length ls = length (concat ls).
Proof.
  induction ls as [|l ls IH]; [done|].
  cbn [sum_list_with concat]. rewrite length_app. lia.
Qed.

Lemma sum_list_with_fst_length (runs : list run) :
  sum_list_with (λ r, length r.1) runs = sum_list_with length (runs.*1).
Proof.
  induction runs as [|r runs IH]; [done|].
  rewrite fmap_cons. cbn [sum_list_with]. by rewrite IH.
Qed.

(** ** Loading a font *)

Lemma get_font_face size w :
  font_face (get_font size w).1 =
  match _worker_font_cache w !! size with
  | Some f => font_face f
  | None => spec_fallback (option_list (_worker_font_path w)) size
  end.
Proof.
  fold (font_at w size). rewrite font_at_unfold.
  destruct (_worker_font_cache w !! size); [reflexivity|].
  destruct (_worker_font_path w) as [p|]; [|reflexivity].
  unfold spec_fallback. cbn. by destruct (truetype_loads p size).
Qed.

(** Loading a font never raises and always gives a font.  [load_font] of
    the backend tries the configured resource, when the file exists, and
    then the platform paths in their order, and gives the built-in font
    when none loads.  [get_font] of the batch generator gives the cached
    font; on a miss it tries the configured resource alone and gives the
    built-in font when that does not load. *)
Theorem font_loading_total (size : Z) (font_filename : string) w :
  font_face (load_font font_filename size w).1 =
    spec_fallback (load_font_paths font_filename) size
  ∧ font_face (get_font size w).1 =
    match _worker_font_cache w !! size with
    | Some f => font_face f
    | None => spec_fallback (option_list (_worker_font_path w)) size
    end.
Proof. split; [apply load_font_face|apply get_font_face]. Qed.

(** ** Centring *)

Lemma centred_corrected (x bw : Z) (b : bbox) :
  centred x bw
    (ink_box (x + (bw - (bbox2 b - bbox0 b)) `div` 2 - bbox0 b, 0) b).
Proof.
  unfold centred, ink_box, bbox0, bbox2. cbn [fst snd].
  pose proof (Z.div_mod (bw - (b.1.2 - b.1.1.1)) 2 ltac:(lia)) as Hdm.
  pose proof (Z.mod_pos_bound (bw - (b.1.2 - b.1.1.1)) 2 ltac:(lia)) as Hm.
  lia.
Qed.

(** The backend paints the text centred in the box and with its bottom
    five pixels above the bottom of the box. *)
Lemma draw_certificate_centred (template : nat) (name : string)
    (x y bw bh : Z) (max_font_size : Z) (color font_filename : string)
    w (p : pixels) :
  images w !! template = Some p →
  ∃ pre xy f,
    calls (draw_certificate template name (x, y, bw, bh) max_font_size color
             font_filename w).2
      = pre ++ [EText (length (images w)) xy name f (ColorSpec color)]
    ∧ centred x bw (ink_box xy (textbbox (font_face f) name))
    ∧ bbox3 (ink_box xy (textbbox (font_face f) name)) = y + bh - 5.
Proof.
  intros Hp. unfold draw_certificate, bind, lift, Image_copy. rewrite Hp.
  destruct (get_font_for_text name bw bh max_font_size font_filename _)
    as [[f fsize] w1].
  cbn [fst snd draw_textbbox]. set (b := textbbox (font_face f) name).
  set (xy := (x + (bw - (bbox2 b - bbox0 b)) `div` 2 - bbox0 b,
              y + bh - (bbox3 b - bbox1 b) - 5 - bbox1 b)).
  exists (calls (log (ETextbbox name f) w1)), xy, f. split; [|split].
  - unfold ImageDraw_text. cbn zeta.
    destruct (images _ !! length (images w)) as [q|]; [|reflexivity].
    by destruct (draw_text q xy name (font_face f) (ColorSpec color)).
  - pose proof (centred_corrected x bw b) as Hc.
    unfold centred, ink_box, xy in *. cbn [fst snd bbox0 bbox2] in *. exact Hc.
  - unfold ink_box, xy, b, bbox3, bbox1. cbn [fst snd]. lia.
Qed.

(** ** Records without a name *)

(** The backend skips a row whose name is missing, empty or blank: nothing
    is rendered, nothing is added to the archive, nothing is raised. *)
Lemma generate_rows_skip (template_img : nat) (name_column : string)
    (box : Z * Z * Z * Z) (font_size : Z) (font_color font_file : string)
    (row : gmap string string) (rows : list (gmap string string))
    (zf : list (string * pixels)) (generated_count : nat) :
  strip (default EmptyString (row !! name_column)) = EmptyString →
  generate_rows template_img name_column box font_size font_color font_file
                (row :: rows) zf generated_count =
  generate_rows template_img name_column box font_size font_color font_file
                rows zf generated_count.
Proof.
  intros Hblank. cbn [generate_rows]. by rewrite decide_True.
Qed.

(** [main] of the batch generator prepares a task for every row that has
    the field, whatever the name is. *)
Lemma prepare_tasks_every_row (output_dir field : string) (font_size : Z)
    (rows : list (gmap string string)) :
  Forall (λ row, is_Some (row !! field)) rows →
  ∀ i tasks, ∃ new,
    prepare_tasks output_dir field font_size i rows tasks = inr (tasks ++ new)
    ∧ (λ item : task, item.1.1) <$> new
      = (λ row, default EmptyString (row !! field)) <$> rows.
Proof.
  induction 1 as [|row rows [name Hname] _ IH]; intros i tasks.
  - exists []. by rewrite app_nil_r.
  - cbn [prepare_tasks]. rewrite Hname.
    destruct (IH (S i) (tasks ++ [(name, path_join output_dir
                 (format_05d (i + 1) +:+ "_" +:+ str_map safe_char name
                  +:+ ".jpg"), font_size)])) as (new & -> & Hnames).
    eexists (_ :: new). rewrite <- app_assoc. split; [done|].
    rewrite !fmap_cons, Hnames, Hname. reflexivity.
Qed.

(** ** File names of the archive *)

Lemma Forall_chars_str_filter (f : ascii → bool) (s : string) :
  Forall (λ c, f c = true) (String.list_ascii_of_string (str_filter f s)).
Proof.
  induction s as [|c s IH]; cbn; [constructor|].
  destruct (f c) eqn:Hc; cbn; [by constructor|exact IH].
Qed.

Lemma Forall_chars_lstrip (P : ascii → Prop) (s : string) :
  Forall P (String.list_ascii_of_string s) → Forall P (String.list_ascii_of_string (lstrip s)).
Proof.
  induction s as [|c s IH]; cbn; [done|]. intros Hs.
  destruct (isspace c); [apply IH; by inversion Hs|exact Hs].
Qed.

Lemma Forall_chars_rstrip (P : ascii → Prop) (s : string) :
  Forall P (String.list_ascii_of_string s) → Forall P (String.list_ascii_of_string (rstrip s)).
Proof.
  induction s as [|c s IH]; cbn; [done|]. intros Hs.
  apply Forall_cons in Hs as [Hc Hs]. specialize (IH Hs).
  destruct (rstrip s) as [|c' r].
  - destruct (isspace c); cbn; [constructor|by repeat constructor].
  - cbn in *. by constructor.
Qed.

Lemma Forall_chars_str_map (P Q : ascii → Prop) (f : ascii → ascii) (s : string) :
  (∀ c, P c → Q (f c)) →
  Forall P (String.list_ascii_of_string s) →
  Forall Q (String.list_ascii_of_string (str_map f s)).
Proof.
  intros Hf. induction s as [|c s IH]; cbn; [done|]. intros Hs.
  apply Forall_cons in Hs as [Hc Hs]. constructor; auto.
Qed.

Lemma Forall_chars_str_take (P : ascii → Prop) (n : nat) (s : string) :
  Forall P (String.list_ascii_of_string s) →
  Forall P (String.list_ascii_of_string (str_take n s)).
Proof.
  revert s. induction n as [|n IH]; intros [|c s]; cbn; try done.
  intros Hs. apply Forall_cons in Hs as [Hc Hs]. constructor; auto.
Qed.

Lemma length_str_take (n : nat) (s : string) :
  (String.length (str_take n s) ≤ n)%nat.
Proof.
  revert s. induction n as [|n IH]; intros [|c s]; cbn; try lia.
  specialize (IH s). lia.
Qed.

Lemma str_take_nonempty (n : nat) (s : string) :
  s ≠ EmptyString → str_take (S n) s ≠ EmptyString.
Proof. by destruct s. Qed.

Lemma sanitize_filename_chars (name : string) :
  sanitize_filename name ≠ EmptyString
  ∧ (String.length (sanitize_filename name) ≤ 50)%nat
  ∧ Forall (λ c, filename_char c = true ∧ c ≠ " "%char)
           (String.list_ascii_of_string (sanitize_filename name)).
Proof.
  unfold sanitize_filename.
  set (safe := str_map _ (strip (str_filter filename_char name))).
  assert (Forall (λ c, filename_char c = true ∧ c ≠ " "%char)
                 (String.list_ascii_of_string safe)) as Hsafe.
  { apply (Forall_chars_str_map (λ c, filename_char c = true)).
    - intros c Hc. case_decide as Heq; [|done]. subst c. split; [|done].
      unfold filename_char. rewrite orb_true_iff. right.
      apply bool_decide_eq_true_2. set_solver.
    - apply Forall_chars_rstrip, Forall_chars_lstrip, Forall_chars_str_filter. }
  case_decide as Hempty.
  - split; [done|]. split; [cbn; lia|].
    cbn. repeat constructor; try done; unfold filename_char;
      rewrite !orb_true_iff; do 4 left; by apply bool_decide_eq_true_2.
  - split; [by apply str_take_nonempty|].
    split; [apply length_str_take|by apply Forall_chars_str_take].
Qed.

Lemma Forall_chars_str_filter_keep (P : ascii → Prop) (f : ascii → bool)
    (s : string) :
  Forall P (String.list_ascii_of_string s) →
  Forall P (String.list_ascii_of_string (str_filter f s)).
Proof.
  induction s as [|c s IH]; cbn; [done|]. intros Hs.
  apply Forall_cons in Hs as [Hc Hs].
  destruct (f c); cbn; [constructor|]; auto.
Qed.

Lemma ascii_only_sanitize_filename (name : string) :
  ascii_only name → ascii_only (sanitize_filename name).
Proof.
  unfold ascii_only, sanitize_filename. intros Hname. case_decide.
  - cbn. repeat constructor; cbn; lia.
  - apply Forall_chars_str_take.
    apply (Forall_chars_str_map (λ c, (nat_of_ascii c < 128)%nat)).
    { intros c Hc. case_decide; [vm_compute; lia|done]. }
    by apply Forall_chars_rstrip, Forall_chars_lstrip,
      Forall_chars_str_filter_keep.
Qed.

(** X1: for a name of code points below 128, with [str.isspace] as Python
    has it there, the file name [sanitize_filename] makes is never empty
    and has at most 50 characters, each a letter, a digit, a hyphen, an
    underscore or a whitespace character other than the space (a tab or a
    line break inside the name stays).  So it holds no path separator, no
    dot and no space. *)
Theorem sanitize_filename_safe (name : string) :
  (∀ c, (nat_of_ascii c < 128)%nat → isspace c = ascii_isspace c) →
  ascii_only name →
  sanitize_filename name ≠ EmptyString
  ∧ (String.length (sanitize_filename name) ≤ 50)%nat
  ∧ Forall (λ c, char_in "a" "z" c = true ∨ char_in "A" "Z" c = true
                 ∨ char_in "0" "9" c = true ∨ c = "-"%char ∨ c = "_"%char
                 ∨ (9 ≤ nat_of_ascii c ≤ 13)%nat
                 ∨ (28 ≤ nat_of_ascii c ≤ 31)%nat)
           (String.list_ascii_of_string (sanitize_filename name))
  ∧ ("/"%char ∉ String.list_ascii_of_string (sanitize_filename name))
  ∧ ("."%char ∉ String.list_ascii_of_string (sanitize_filename name))
  ∧ (" "%char ∉ String.list_ascii_of_string (sanitize_filename name)).
Proof.
  intros Hspace Hname.
  destruct (sanitize_filename_chars name) as (Hne & Hlen & Hchars).
  pose proof (ascii_only_sanitize_filename name Hname) as Hascii.
  assert (Forall (λ c, char_in "a" "z" c = true ∨ char_in "A" "Z" c = true
                 ∨ char_in "0" "9" c = true ∨ c = "-"%char ∨ c = "_"%char
                 ∨ (9 ≤ nat_of_ascii c ≤ 13)%nat
                 ∨ (28 ≤ nat_of_ascii c ≤ 31)%nat)
           (String.list_ascii_of_string (sanitize_filename name))) as Hclass.
  { unfold ascii_only in Hascii. rewrite Forall_forall in Hchars, Hascii.
    apply Forall_forall. intros c Hc.
    destruct (Hchars c Hc) as [Hfc Hsp]. specialize (Hascii c Hc).
    unfold filename_char in Hfc. rewrite !orb_true_iff in Hfc.
    destruct Hfc as [[[[?|?]|?]|Hws]|Hsym]; [tauto..| |].
    - rewrite (Hspace c Hascii) in Hws. unfold ascii_isspace in Hws.
      apply bool_decide_eq_true_1 in Hws.
      assert (nat_of_ascii c ≠ 32%nat) as Hne32.
      { intros Heq. apply Hsp.
        rewrite <- (ascii_nat_embedding c), Heq. reflexivity. }
      lia.
    - apply bool_decide_eq_true_1 in Hsym.
      apply elem_of_cons in Hsym as [->|Hsym]; [tauto|].
      apply elem_of_cons in Hsym as [->|Hsym]; [tauto|].
      by apply not_elem_of_nil in Hsym. }
  split; [exact Hne|]. split; [exact Hlen|]. split; [exact Hclass|].
  rewrite Forall_forall in Hclass.
  split; [|split]; intros Hin; apply Hclass in Hin; vm_compute in Hin;
    destruct Hin as [?|[?|[?|[?|[?|[?|?]]]]]]; first [done|lia].
Qed.

(** ** The font of the batch generator *)

Lemma first_existing_spec (candidates : list string) :
  let found := match filter (λ path, path_exists path = true) candidates with
               | path :: _ => path
               | [] => EmptyString
               end in
  (found = EmptyString
   ∧ Forall (λ path, path_exists path = false) candidates)
  ∨ (path_exists found = true
     ∧ ∃ before after,
         candidates = before ++ found :: after
         ∧ Forall (λ path, path_exists path = false) before).
Proof.
  induction candidates as [|path paths IH].
  - left. by split.
  - rewrite filter_cons. destruct (path_exists path) eqn:Hpath.
    + rewrite decide_True by done. right. split; [done|].
      exists [], paths. by split.
    + rewrite decide_False by done.
      destruct IH as [[Hempty Hnone]|[Hex (before & after & Heq & Hbefore)]].
      * left. split; [exact Hempty|by constructor].
      * right. split; [exact Hex|].
        exists (path :: before), after. rewrite Heq at 1.
        split; [done|by constructor].
Qed.

Lemma find_system_font_spec :
  (find_system_font = EmptyString
   ∧ Forall (λ path, path_exists path = false) system_font_candidates)
  ∨ (path_exists find_system_font = true
     ∧ ∃ before after,
         system_font_candidates = before ++ find_system_font :: after
         ∧ Forall (λ path, path_exists path = false) before).
Proof. apply first_existing_spec. Qed.

(** X2: the font [main] hands to the workers is [--font] itself when that
    file exists; otherwise it is the first path of the platform's list that
    exists, and the empty string when none does.  So it is empty or the path
    of a file that exists. *)
Theorem main_font_exists (font : option string) :
  (∀ f, font = Some f → path_exists f = true → main_font font = f)
  ∧ ((∀ f, font = Some f → path_exists f = false) →
     main_font font = find_system_font)
  ∧ (main_font font = EmptyString ∨ path_exists (main_font font) = true)
  ∧ ((find_system_font = EmptyString
      ∧ Forall (λ path, path_exists path = false) system_font_candidates)
     ∨ (path_exists find_system_font = true
        ∧ ∃ before after,
            system_font_candidates = before ++ find_system_font :: after
            ∧ Forall (λ path, path_exists path = false) before)).
Proof.
  split; [|split; [|split; [|apply find_system_font_spec]]].
  - intros f -> Hf. unfold main_font. by rewrite Hf.
  - intros Hno. unfold main_font. destruct font as [f|]; [|done].
    by rewrite (Hno f eq_refl).
  - unfold main_font.
    destruct find_system_font_spec as [[Hempty _]|[Hex _]];
      destruct font as [f|]; try destruct (path_exists f) eqn:Hf; auto.
Qed.

(** ** The batches of [main] *)

(** X3: for a positive batch size, [main] makes [ceil (N / batch_size)]
    batches; batch [i] holds the tasks from position [i * batch_size] on, at
    most [batch_size] of them and at least one, so every batch before the
    last one is full. *)
Theorem split_batches_shape (tasks : list task) (batch_size : Z) :
  0 < batch_size →
  ∃ batches,
    split_batches tasks batch_size = inr batches
    ∧ length batches
      = Z.to_nat ((Z.of_nat (length tasks) + batch_size - 1) `div` batch_size)
    ∧ ∀ (i : nat) (b : list task), batches !! i = Some b →
        b = take (Z.to_nat batch_size) (drop (i * Z.to_nat batch_size) tasks)
        ∧ (i * Z.to_nat batch_size < length tasks)%nat
        ∧ length b = (Z.to_nat batch_size
                        `min` (length tasks - i * Z.to_nat batch_size))%nat.
Proof.
  intros Hpos. unfold split_batches.
  rewrite decide_False, decide_False by lia. eexists. split; [done|].
  unfold py_range. rewrite !length_fmap, length_seq.
  split; [f_equal; f_equal; lia|].
  intros i b. rewrite <- list_fmap_compose, list_lookup_fmap.
  destruct (seq 0 _ !! i) as [j|] eqn:Hj; [|done].
  apply lookup_seq in Hj as [-> Hi]. cbn. intros [= <-].
  replace (Z.to_nat (0 + batch_size * Z.of_nat i))
    with (i * Z.to_nat batch_size)%nat by lia.
  split; [done|].
  pose proof (Z.mul_div_le (Z.of_nat (length tasks) - 0 + batch_size - 1)
                batch_size Hpos) as Hq.
  assert (i * Z.to_nat batch_size < length tasks)%nat as Hlt by nia.
  split; [exact Hlt|]. rewrite length_take, length_drop. done.
Qed.

(** ** The lines [main] prints *)

Lemma collect_result_inv (t : tally) (r : RenderResult) :
  (length (printed t) ≤ 5 ∧ length (printed t) ≤ errors t
   ∧ errors t ≤ completed t)%nat →
  (length (printed (collect_result t r)) ≤ 5
   ∧ length (printed (collect_result t r)) ≤ errors (collect_result t r)
   ∧ errors (collect_result t r) ≤ completed (collect_result t r))%nat.
Proof.
  intros (H5 & Hpe & Hec). destruct r as [|e name]; cbn; [lia|].
  case_decide; cbn; rewrite ?length_app; cbn; lia.
Qed.

Lemma collect_future_inv (t : tally)
    (future : nat * (string + list RenderResult)) :
  (length (printed t) ≤ 5 ∧ length (printed t) ≤ errors t
   ∧ errors t ≤ completed t)%nat →
  (length (printed (collect_future t future)) ≤ 5
   ∧ length (printed (collect_future t future)) ≤ errors (collect_future t future)
   ∧ errors (collect_future t future) ≤ completed (collect_future t future))%nat.
Proof.
  destruct future as [size [e|results]]; unfold collect_future; cbn [fst snd].
  - cbn. lia.
  - revert t. induction results as [|r results IH]; intros t Ht; [exact Ht|].
    cbn [foldl]. by apply IH, collect_result_inv.
Qed.

Lemma collect_result_lines (lines : list string) (results : list RenderResult) :
  ∀ t, printed t = take 5 lines → errors t = length lines →
  printed (foldl collect_result t results)
    = take 5 (lines ++ omap error_line results)
  ∧ errors (foldl collect_result t results)
    = length (lines ++ omap error_line results).
Proof.
  revert lines. induction results as [|r results IH]; intros lines t Hp He.
  - cbn. by rewrite app_nil_r.
  - cbn [foldl omap list_omap]. destruct r as [|e name]; cbn [error_line].
    + apply IH; done.
    + replace (lines ++ ("  ERROR: " +:+ e) :: omap error_line results)
        with ((lines ++ ["  ERROR: " +:+ e]) ++ omap error_line results)
        by (by rewrite <- app_assoc).
      apply IH; cbn; rewrite ?length_app; cbn; [|lia].
      rewrite He, Hp. case_decide.
      * rewrite !take_ge by (rewrite ?length_app; cbn; lia). done.
      * rewrite take_app_le by lia. done.
Qed.

(** X4: [main] prints at most five error lines, whatever the number of
    failed jobs and lost workers, and never counts more errors than
    completed jobs; when every batch comes back with results, the lines are
    those of the first five failed jobs in the order collected. *)
Theorem collect_prints_five
    (futures : list (nat * (string + list RenderResult)))
    (batches : list (list RenderResult)) :
  (length (printed (collect futures)) ≤ 5)%nat
  ∧ (errors (collect futures) ≤ completed (collect futures))%nat
  ∧ printed (collect ((λ results, (length results, inr results)) <$> batches))
    = take 5 (omap error_line (concat batches)).
Proof.
  split; [|split].
  - unfold collect.
    assert (∀ t, (length (printed t) ≤ 5 ∧ length (printed t) ≤ errors t
                  ∧ errors t ≤ completed t)%nat →
                 (length (printed (foldl collect_future t futures)) ≤ 5)%nat)
      as Hinv.
    { induction futures as [|future futures IH]; intros t Ht; cbn [foldl].
      - apply Ht.
      - by apply IH, collect_future_inv. }
    apply Hinv. cbn. lia.
  - unfold collect.
    assert (∀ t, (length (printed t) ≤ 5 ∧ length (printed t) ≤ errors t
                  ∧ errors t ≤ completed t)%nat →
                 (errors (foldl collect_future t futures)
                  ≤ completed (foldl collect_future t futures))%nat) as Hinv.
    { induction futures as [|future futures IH]; intros t Ht; cbn [foldl].
      - apply Ht.
      - by apply IH, collect_future_inv. }
    apply Hinv. cbn. lia.
  - unfold collect.
    assert (∀ lines t, printed t = take 5 lines → errors t = length lines →
              printed (foldl collect_future t
                         ((λ results, (length results, inr results)) <$> batches))
              = take 5 (lines ++ omap error_line (concat batches))) as Hinv.
    { induction batches as [|results batches IH]; intros lines t Hp He.
      - cbn. by rewrite app_nil_r.
      - cbn [fmap list_fmap foldl concat]. unfold collect_future at 2.
        cbn [fst snd].
        destruct (collect_result_lines lines results t Hp He) as [Hp' He'].
        rewrite omap_app, app_assoc. by apply IH. }
    apply (Hinv [] (Tally 0 0 [])); done.
Qed.

(** ** Rows without a name in the backend *)

Lemma lstrip_all_space (s : string) :
  Forall (λ c, isspace c = true) (String.list_ascii_of_string s) ↔
  Forall (λ c, isspace c = true) (String.list_ascii_of_string (lstrip s)).
Proof.
  induction s as [|c s IH]; cbn; [done|].
  destruct (isspace c) eqn:Hc; [|done].
  rewrite <- IH. split; [by inversion 1|by constructor].
Qed.

Lemma rstrip_empty_iff (s : string) :
  rstrip s = EmptyString ↔
  Forall (λ c, isspace c = true) (String.list_ascii_of_string s).
Proof.
  induction s as [|c s IH]; cbn; [by split; [constructor|]|].
  destruct (rstrip s) as [|c' r].
  - destruct (isspace c) eqn:Hc.
    + split; [intros _; constructor; [done|by apply IH]|done].
    + split; [done|]. inversion 1; congruence.
  - split; [done|]. inversion 1 as [|? ? _ Hs]. by apply IH in Hs.
Qed.

Lemma strip_empty_iff (s : string) :
  strip s = EmptyString ↔
  Forall (λ c, isspace c = true) (String.list_ascii_of_string s).
Proof. unfold strip. by rewrite rstrip_empty_iff, <- lstrip_all_space. Qed.

Lemma generate_rows_filter_pointwise (template_img : nat) (name_column : string)
    (box : Z * Z * Z * Z) (font_size : Z) (font_color font_file : string)
    (rows : list (gmap string string)) :
  ∀ zf generated_count w,
  generate_rows template_img name_column box font_size font_color font_file
                rows zf generated_count w =
  generate_rows template_img name_column box font_size font_color font_file
                (filter (has_name name_column) rows)
                zf generated_count w.
Proof.
  induction rows as [|row rows IH]; intros zf generated_count w; [done|].
  rewrite filter_cons.
  destruct (decide (strip (default EmptyString (row !! name_column))
                    = EmptyString)) as [Hblank|Hname].
  - rewrite decide_False.
    + rewrite <- IH. by rewrite generate_rows_skip.
    + intros (value & Hvalue & Hv). rewrite Hvalue in Hblank. by apply Hv.
  - rewrite decide_True.
    + cbn [generate_rows]. rewrite !decide_False by done. unfold bind.
      destruct (draw_certificate _ _ _ _ _ _ w) as [[e|cert_img] w1]; [done|].
      destruct (gets _ w1) as [[e|[p|]] w2]; first [done|apply IH].
    + destruct (row !! name_column) as [value|] eqn:Hvalue; [by exists value|].
      cbn in Hname. by destruct Hname.
Qed.

(** X5: for rows that hold a value of plain characters under the name
    column, the loop of [generate_certificates] gives the same archive,
    the same count and the same state as on the rows with a name alone:
    the rows whose value is blank are passed over wherever they stand.  A
    value is blank when it is empty or made of whitespace only. *)
Theorem generate_rows_filter (template_img : nat) (name_column : string)
    (box : Z * Z * Z * Z) (font_size : Z) (font_color font_file : string)
    (rows : list (gmap string string)) (values : list string)
    (zf : list (string * pixels)) (generated_count : nat) w :
  column_values name_column rows values →
  generate_rows template_img name_column box font_size font_color font_file
                rows zf generated_count w =
  generate_rows template_img name_column box font_size font_color font_file
                (filter (has_name name_column) rows)
                zf generated_count w
  ∧ Forall2 (λ row value,
       has_name name_column row ↔
       ¬ Forall (λ c, isspace c = true) (String.list_ascii_of_string value))
      rows values
  ∧ length (filter (has_name name_column) rows)
    = length (stripped_names values).
Proof.
  intros Hvalues. split; [apply generate_rows_filter_pointwise|].
  split.
  - eapply Forall2_impl; [exact Hvalues|]. intros row value [Hvalue _].
    rewrite <- strip_empty_iff. unfold has_name. rewrite Hvalue. split.
    + by intros (v & [= <-] & Hv).
    + intros Hv. by exists value.
  - unfold stripped_names.
    induction Hvalues as [|row value rows values [Hvalue _] _ IH]; [done|].
    rewrite fmap_cons, !filter_cons.
    destruct (decide (strip value = EmptyString)) as [Hblank|Hname].
    + rewrite decide_False; [by rewrite decide_False by (by intros Hn)|].
      intros (v & Hv & Hne). rewrite Hvalue in Hv. injection Hv as <-.
      by apply Hne.
    + rewrite decide_True by (by exists value). rewrite decide_True by done.
      cbn. by rewrite IH.
Qed.

(** ** The attempts of [load_font] *)



(** ** The worker that [init_worker] starts *)

Lemma elem_of_py_range_20 (max_font_size size : Z) :
  size ∈ py_range 20 (max_font_size + 1) 4 ↔
  20 ≤ size ≤ max_font_size ∧ size `mod` 4 = 0.
Proof.
  unfold py_range. rewrite list_elem_of_fmap. split.
  - intros (k & -> & Hk). apply elem_of_seq in Hk.
    pose proof (Z.mul_div_le (max_font_size + 1 - 20 + 4 - 1) 4 ltac:(lia)).
    assert ((max_font_size + 1 - 20 + 4 - 1) `div` 4 ≤ 0
            ∨ 0 < (max_font_size + 1 - 20 + 4 - 1) `div` 4) as [?|?] by lia;
      [lia|].
    split; [lia|].
    replace (20 + 4 * Z.of_nat k) with (0 + (5 + Z.of_nat k) * 4) by lia.
    by rewrite Z.mod_add by lia.
  - intros [Hrange Hmod]. exists (Z.to_nat ((size - 20) `div` 4)).
    pose proof (Z.div_mod size 4 ltac:(lia)) as Hsize.
    pose proof (Z.div_mod (size - 20) 4 ltac:(lia)) as Hdm.
    assert ((size - 20) `mod` 4 = 0) as Hmod'.
    { replace (size - 20) with (size + (-5) * 4) by lia.
      by rewrite Z.mod_add by lia. }
    assert (0 ≤ (size - 20) `div` 4) by (apply Z.div_pos; lia).
    split; [lia|]. apply elem_of_seq. split; [lia|].
    assert ((size - 20) `div` 4 < (max_font_size + 1 - 20 + 4 - 1) `div` 4);
      [|lia].
    apply Z.div_lt_upper_bound; [lia|].
    pose proof (Z.div_mod (max_font_size + 1 - 20 + 4 - 1) 4 ltac:(lia)).
    pose proof (Z.mod_pos_bound (max_font_size + 1 - 20 + 4 - 1) 4 ltac:(lia)).
    lia.
Qed.

Lemma preload_face font_path w size :
  ∃ f, _worker_font_cache (preload font_path w size)
         = <[size := f]> (_worker_font_cache w)
       ∧ font_face f = spec_fallback [font_path] size
       ∧ _worker_template_img (preload font_path w size) = _worker_template_img w
       ∧ _worker_font_path (preload font_path w size) = _worker_font_path w
       ∧ images (preload font_path w size) = images w.
Proof.
  unfold preload, ImageFont_truetype, ImageFont_load_default, spec_fallback.
  cbn [List.find]. destruct (truetype_loads font_path size); cbn; eauto 10.
Qed.

Lemma foldl_preload_state font_path (sizes : list Z) : ∀ w,
  (∀ size,
     font_face <$> _worker_font_cache (foldl (preload font_path) w sizes) !! size
     = if decide (size ∈ sizes) then Some (spec_fallback [font_path] size)
       else font_face <$> _worker_font_cache w !! size)
  ∧ _worker_template_img (foldl (preload font_path) w sizes)
    = _worker_template_img w
  ∧ _worker_font_path (foldl (preload font_path) w sizes) = _worker_font_path w
  ∧ images (foldl (preload font_path) w sizes) = images w.
Proof.
  induction sizes as [|s sizes IH]; intros w.
  - split; [|done]. intros size.
    by rewrite decide_False by apply not_elem_of_nil.
  - cbn [foldl]. destruct (IH (preload font_path w s)) as (Hc & Ht & Hp & Hi).
    destruct (preload_face font_path w s) as (f & Hc' & Hf & Ht' & Hp' & Hi').
    repeat split; [|congruence..].
    intros size. rewrite Hc, Hc'.
    destruct (decide (size ∈ sizes)) as [Hin|Hnotin].
    + by rewrite decide_True by (by right).
    + destruct (decide (size = s)) as [->|Hne].
      * rewrite decide_True by left. rewrite lookup_insert_eq. cbn.
        by rewrite Hf.
      * rewrite decide_False by (by rewrite elem_of_cons; intros [?|?]).
        by rewrite lookup_insert_ne.
Qed.

(** X7: when the template decodes, [init_worker] leaves a worker whose
    template global refers to the decoded image, whose font path is the
    one given, and whose cache holds exactly the sizes 20, 24, ... up to the
    maximum size, each with the font of the resource if it loads at that
    size and the built-in font otherwise.  When the template does not
    decode, [init_worker] raises the error of the decoder and no font is
    loaded. *)
Theorem init_worker_state (template_bytes font_path : string)
    (max_font_size : Z) :
  (∀ p, decode template_bytes = inr p →
     ∃ w0, init_worker template_bytes font_path max_font_size initial_world
             = (inr (), w0)
       ∧ _worker_template_img w0 = Some 0%nat
       ∧ images w0 = [p]
       ∧ _worker_font_path w0 = Some font_path
       ∧ ∀ size,
           font_face <$> _worker_font_cache w0 !! size
           = if decide (20 ≤ size ≤ max_font_size ∧ size `mod` 4 = 0)
             then Some (spec_fallback [font_path] size) else None)
  ∧ (∀ e, decode template_bytes = inl e →
       init_worker template_bytes font_path max_font_size initial_world
       = (inl e, set_font_path (Some font_path) initial_world)).
Proof.
  split.
  - intros p Hp. unfold init_worker, bind, modify, Image_open. cbn.
    rewrite Hp. eexists. split; [reflexivity|].
    pose proof (foldl_preload_state font_path
                  (py_range 20 (max_font_size + 1) 4)) as Hfold.
    destruct (Hfold (set_template_img (Some 0%nat)
                       (set_images [p]
                          (set_font_path (Some font_path) initial_world))))
      as (Hc & Ht & Hpath & Hi).
    split; [exact Ht|]. split; [exact Hi|]. split; [exact Hpath|].
    intros size. rewrite Hc. cbn [_worker_font_cache set_template_img
      set_images set_font_path initial_world]. rewrite lookup_empty.
    destruct (decide (size ∈ _)) as [Hin|Hnotin];
      rewrite elem_of_py_range_20 in *;
      [by rewrite decide_True|by rewrite decide_False].
  - intros e He. unfold init_worker, bind, modify, Image_open. cbn.
    by rewrite He.
Qed.

(** ** How often the fit measures *)

Lemma length_upto_first {A} (P : A → bool) (l : list A) :
  (length (upto_first P l) ≤ length l)%nat.
Proof. induction l as [|x l IH]; cbn; [lia|]. destruct (P x); cbn; lia. Qed.

Lemma upto_first_ext {A} (P Q : A → bool) (l : list A) :
  (∀ x, P x = Q x) → upto_first P l = upto_first Q l.
Proof.
  intros HPQ. induction l as [|x l IH]; cbn; [done|]. by rewrite HPQ, IH.
Qed.

Lemma measurements_get_font size w :
  measurements (get_font size w).2 = measurements w.
Proof.
  unfold measurements. rewrite get_font_calls, filter_app.
  destruct (_ !! size); [by rewrite filter_nil, app_nil_r|].
  rewrite filter_cons, decide_False by done. by rewrite filter_nil, app_nil_r.
Qed.

Lemma find_font_size_loop_measures text box_w box_h (n : nat) : ∀ size w,
  (Z.to_nat (size - 19) ≤ n)%nat →
  length (measurements (find_font_size_loop text box_w box_h size w).2)
  = (length (measurements w)
     + length (upto_first
                 (λ s, fits 20 (textbbox (font_at w s) text) box_w box_h)
                 (descending size 20 4)))%nat.
Proof.
  induction n as [|n IH]; intros size w Hn;
    rewrite find_font_size_loop_eq;
    destruct (decide (20 ≤ size)) as [Hge|Hlt]; try lia.
  - rewrite descending_nil by lia. cbn. lia.
  - rewrite descending_cons by lia. cbn [upto_first]. unfold fits at 1.
    cbn [draw_textbbox fst snd]. fold (font_at w size).
    destruct (bool_decide _); cbn [snd].
    + rewrite measurements_log, length_app, measurements_get_font. done.
    + rewrite IH by lia.
      rewrite measurements_log, length_app, measurements_get_font.
      cbn [is_textbbox length]. rewrite <- Nat.add_assoc. f_equal. cbn.
      f_equal. f_equal. apply upto_first_ext. intros s.
      by rewrite font_at_log, font_at_get_font.
  - rewrite descending_nil by lia. cbn. lia.
Qed.

Lemma get_font_for_text_loop_measures name box_w box_h font_filename (n : nat) :
  ∀ size w,
  (Z.to_nat (size - 9) ≤ n)%nat →
  length (measurements
            (get_font_for_text_loop name box_w box_h font_filename size w).2)
  = (length (measurements w)
     + length (upto_first
                 (λ s, fits 10 (textbbox (spec_fallback
                                            (load_font_paths font_filename) s)
                                         name) box_w box_h)
                 (descending size 10 2)))%nat.
Proof.
  induction n as [|n IH]; intros size w Hn;
    rewrite get_font_for_text_loop_eq; unfold min_font_size;
    destruct (decide (10 ≤ size)) as [Hge|Hlt]; try lia.
  - rewrite descending_nil by lia. cbn [snd].
    rewrite measurements_load_font. cbn. lia.
  - rewrite descending_cons by lia. cbn [upto_first]. unfold fits at 1.
    cbn [draw_textbbox fst snd]. rewrite load_font_face.
    assert (measurements (Image_new (load_font font_filename size w).2).2
            = measurements w) as Hnew
      by (unfold measurements, Image_new; cbn; apply measurements_load_font).
    destruct (bool_decide _); cbn [snd].
    + rewrite measurements_log, length_app, Hnew. done.
    + rewrite IH by lia. rewrite measurements_log, length_app, Hnew.
      cbn [is_textbbox length]. lia.
  - rewrite descending_nil by lia. cbn [snd].
    rewrite measurements_load_font. cbn. lia.
Qed.

Lemma length_descending max_size floor step :
  length (descending max_size floor step)
  = Z.to_nat ((max_size - floor) `div` step + 1).
Proof. unfold descending. by rewrite length_fmap, length_seq. Qed.

(** X8: the fit measures the text once for every size of the descending
    sequence up to and including the first one that fits, and so at most
    [(max_size - 20) / 4 + 1] times in the batch generator and
    [(max_size - 10) / 2 + 1] times in the backend. *)
Theorem fit_measurements w (draw : nat) (text : string)
    (max_size box_w box_h : Z) (font_filename : string) :
  (length (measurements (find_font_size draw text max_size box_w box_h w).2)
   = (length (measurements w)
      + length (upto_first
                  (λ s, fits 20 (textbbox (font_at w s) text) box_w box_h)
                  (descending max_size 20 4)))%nat
   ∧ (length (measurements (find_font_size draw text max_size box_w box_h w).2)
      ≤ length (measurements w) + Z.to_nat ((max_size - 20) `div` 4 + 1))%nat)
  ∧ (length (measurements
               (get_font_for_text text box_w box_h max_size font_filename w).2)
     = (length (measurements w)
        + length (upto_first
                    (λ s, fits 10 (textbbox (spec_fallback
                                               (load_font_paths font_filename) s)
                                            text) box_w box_h)
                    (descending max_size 10 2)))%nat
     ∧ (length (measurements
                  (get_font_for_text text box_w box_h max_size font_filename w).2)
        ≤ length (measurements w) + Z.to_nat ((max_size - 10) `div` 2 + 1))%nat).
Proof.
  unfold find_font_size, get_font_for_text. split.
  - rewrite (find_font_size_loop_measures _ _ _ (Z.to_nat (max_size - 19)))
      by lia.
    split; [done|]. rewrite <- length_descending.
    apply Nat.add_le_mono_l, length_upto_first.
  - rewrite (get_font_for_text_loop_measures _ _ _ _ (Z.to_nat (max_size - 9)))
      by lia.
    split; [done|]. rewrite <- length_descending.
    apply Nat.add_le_mono_l, length_upto_first.
Qed.

(** ** One job of a batch, step by step *)

Lemma find_font_size_loop_frame text box_w box_h (n : nat) : ∀ size w,
  (Z.to_nat (size - 19) ≤ n)%nat →
  let w' := (find_font_size_loop text box_w box_h size w).2 in
  _worker_template_img w' = _worker_template_img w
  ∧ images w' = images w
  ∧ files w' = files w
  ∧ font_size_cache w' = font_size_cache w.
Proof.
  induction n as [|n IH]; intros size w Hn;
    rewrite find_font_size_loop_eq;
    destruct (decide (20 ≤ size)) as [Hge|Hlt]; try lia; try done.
  cbn zeta. pose proof (get_font_frame size w) as Hframe.
  destruct (bool_decide _); cbn [snd draw_textbbox]; [exact Hframe|].
  destruct (IH (size - 4) (log (ETextbbox text (get_font size w).1)
                             (get_font size w).2) ltac:(lia))
    as (Ht & Hi & Hf & Hc).
  destruct Hframe as (Ht' & Hi' & Hf' & Hc').
  cbn [draw_textbbox snd] in *.
  rewrite Ht, Hi, Hf, Hc. unfold log. cbn. done.
Qed.

Lemma find_font_size_frame draw text max_size box_w box_h w :
  let w' := (find_font_size draw text max_size box_w box_h w).2 in
  _worker_template_img w' = _worker_template_img w
  ∧ images w' = images w
  ∧ files w' = files w
  ∧ font_size_cache w' = font_size_cache w.
Proof.
  apply (find_font_size_loop_frame _ _ _ (Z.to_nat (max_size - 19))). lia.
Qed.

Lemma item_size_frame draw name max_font_size w :
  let sw := item_size draw name max_font_size w in
  images sw.2 = images w
  ∧ files sw.2 = files w
  ∧ _worker_template_img sw.2 = _worker_template_img w
  ∧ font_size_cache sw.2 !! String.length name = Some sw.1.
Proof.
  unfold item_size. destruct (font_size_cache w !! _) as [s|] eqn:Hs; [done|].
  destruct (find_font_size_frame draw name max_font_size BOX_W BOX_H w)
    as (Ht & Hi & Hf & _).
  cbn. repeat split; try done. apply lookup_insert_eq.
Qed.

(** What [process_batch] does for one job when the template global refers
    to an image: every step in the order of the source. *)
Lemma render_item_eq (name output_path : string) (max_font_size : Z)
    w (t : nat) (tp : pixels) :
  _worker_template_img w = Some t → images w !! t = Some tp →
  render_item (name, output_path, max_font_size) w =
  let img := length (images w) in
  let sw := item_size img name max_font_size
                      (set_images (images w ++ [tp]) w) in
  let fw := get_font sw.1 sw.2 in
  let xy := batch_xy (textbbox (font_face fw.1) name) in
  let w2 := log (EText img xy name fw.1 DEFAULT_FONT_COLOR)
                (log (ETextbbox name fw.1) fw.2) in
  match draw_text tp xy name (font_face fw.1) DEFAULT_FONT_COLOR with
  | inl e => (inl e, w2)
  | inr p' =>
      let w3 := set_images (<[img := p']> (images w2)) w2 in
      match save_error output_path p' with
      | Some e => (inl e, w3)
      | None => (inr (), set_files (files w3 ++ [(output_path, p')]) w3)
      end
  end.
Proof.
  intros Ht Hp. cbv zeta.
  pose proof (item_size_frame (length (images w)) name max_font_size
                (set_images (images w ++ [tp]) w)) as (Hi & _ & _ & Hkey).
  pose proof (get_font_frame
                (item_size (length (images w)) name max_font_size
                           (set_images (images w ++ [tp]) w)).1
                (item_size (length (images w)) name max_font_size
                           (set_images (images w ++ [tp]) w)).2)
    as (_ & Hi' & _ & Hc').
  unfold render_item, bind at 1, gets at 1. rewrite Ht.
  unfold bind at 1, Image_copy. rewrite Hp.
  unfold bind at 1, gets at 1. unfold bind at 1.
  assert (∀ w1 : world,
            (match font_size_cache w1 !! String.length name with
             | Some _ => ret ()
             | None =>
                 bind (lift (find_font_size (length (images w)) name
                               max_font_size BOX_W BOX_H))
                      (λ size, modify (λ w, set_font_size_cache
                         (<[String.length name := size]> (font_size_cache w)) w))
             end) w1
            = (inr (), (item_size (length (images w)) name max_font_size w1).2))
    as Hsize.
  { intros w1. unfold item_size.
    destruct (font_size_cache w1 !! _); [done|].
    unfold bind, lift, modify.
    by destruct (find_font_size _ _ _ _ _ w1). }
  rewrite Hsize. unfold bind at 1, gets at 1. rewrite Hkey.
  unfold bind at 1, ret at 1. unfold bind at 1, lift at 1.
  destruct (get_font _ _) as [f w1] eqn:Hfw. cbn [fst snd] in *.
  unfold bind at 1, lift at 1. cbn [draw_textbbox].
  unfold bind at 1, ImageDraw_text. cbn zeta. fold (batch_xy (textbbox (font_face f) name)).
  cbn [log images]. rewrite Hi', Hi. cbn [set_images images].
  rewrite list_lookup_middle by done.
  destruct (draw_text tp _ name (font_face f) DEFAULT_FONT_COLOR) as [e|p'];
    [done|].
  unfold Image_save. cbn [set_images images].
  rewrite list_lookup_insert_eq by (rewrite length_app; cbn; lia).
  by destruct (save_error output_path p').
Qed.

(** ** The files of a batch *)

Lemma render_item_outcome (item : task) w (t : nat) (tp : pixels) :
  _worker_template_img w = Some t → images w !! t = Some tp →
  match (render_item item w).1 with
  | inr _ => ∃ file, files (render_item item w).2 = files w ++ [file]
                     ∧ file_of tp item file
  | inl _ => files (render_item item w).2 = files w
  end.
Proof.
  intros Ht Hp. destruct item as [[name output_path] max_font_size].
  rewrite (render_item_eq _ _ _ _ _ _ Ht Hp). cbv zeta.
  destruct (item_size_frame (length (images w)) name max_font_size
              (set_images (images w ++ [tp]) w)) as (_ & Hf & _ & _).
  destruct (get_font_frame
              (item_size (length (images w)) name max_font_size
                         (set_images (images w ++ [tp]) w)).1
              (item_size (length (images w)) name max_font_size
                         (set_images (images w ++ [tp]) w)).2)
    as (_ & _ & Hf' & _).
  destruct (draw_text tp _ name _ DEFAULT_FONT_COLOR) as [e|p'] eqn:Hdraw;
    cbn [fst snd log files].
  - by rewrite Hf', Hf.
  - destruct (save_error output_path p'); cbn [fst snd set_images set_files
      log files]; rewrite Hf', Hf; [done|].
    eexists. split; [done|]. split; [done|]. eauto.
Qed.

Lemma process_batch_loop_files (tp : pixels) (t : nat) (batch : list task) :
  ∀ results w,
  _worker_template_img w = Some t → images w !! t = Some tp →
  ∃ new written,
    (process_batch_loop batch results w).1 = inr (results ++ new)
    ∧ length new = length batch
    ∧ files (process_batch_loop batch results w).2 = files w ++ written
    ∧ Forall2 (file_of tp) (succeeded batch new) written.
Proof.
  induction batch as [|item batch IH]; intros results w Ht Hp.
  - exists [], []. rewrite !app_nil_r. repeat split. constructor.
  - rewrite process_batch_loop_cons.
    pose proof (render_item_outcome item w t tp Ht Hp) as Hout.
    destruct (triple_render_item w item w (stable_refl w))
      as [(Ht' & _ & _ & Hi' & _) _].
    destruct (IH (results ++ [result_of item.1.1 (render_item item w).1])
                 (render_item item w).2)
      as (new & written & Hres & Hlen & Hfiles & Hall).
    { congruence. }
    { by eapply prefix_lookup_Some. }
    rewrite Hres, Hfiles.
    exists (result_of item.1.1 (render_item item w).1 :: new).
    destruct (render_item item w).1 as [e|[]].
    + exists written. rewrite Hout, <- app_assoc. cbn. repeat split; try done.
      by rewrite Hlen.
    + destruct Hout as (file & -> & Hfile).
      exists (file :: written). rewrite <- !app_assoc. cbn.
      repeat split; try done; [by rewrite Hlen|].
      by constructor.
Qed.

(** X9: a batch writes one file for every job whose result is a success
    and none for the others, in the order of the jobs; the file of a job is
    at its output path and holds the template with that one name drawn on
    it, whatever was drawn for the jobs before. *)
Theorem process_batch_files (batch : list task) w (t : nat) (tp : pixels) :
  _worker_template_img w = Some t → images w !! t = Some tp →
  ∃ results written,
    (process_batch batch w).1 = inr results
    ∧ length results = length batch
    ∧ files (process_batch batch w).2 = files w ++ written
    ∧ Forall2 (file_of tp) (succeeded batch results) written.
Proof.
  intros Ht Hp. unfold process_batch, bind, modify.
  destruct (process_batch_loop_files tp t batch [] (set_font_size_cache ∅ w)
              Ht Hp) as (new & written & Hres & Hlen & Hfiles & Hall).
  by exists new, written.
Qed.

(** ** The results of a batch, job by job *)

Lemma render_item_job_outcome (item : task) w (t : nat) (tp : pixels) :
  _worker_template_img w = Some t → images w !! t = Some tp →
  ∃ f, result_of item.1.1 (render_item item w).1 = job_outcome tp item f.
Proof.
  intros Ht Hp. destruct item as [[name output_path] max_font_size].
  rewrite (render_item_eq _ _ _ _ _ _ Ht Hp). cbv zeta.
  set (f := (get_font
               (item_size (length (images w)) name max_font_size
                          (set_images (images w ++ [tp]) w)).1
               (item_size (length (images w)) name max_font_size
                          (set_images (images w ++ [tp]) w)).2).1).
  exists f. unfold job_outcome. cbn [fst snd].
  destruct (draw_text tp _ name (font_face f) DEFAULT_FONT_COLOR) as [e|p'];
    [done|].
  by destruct (save_error output_path p').
Qed.

Lemma process_batch_loop_outcomes (tp : pixels) (t : nat) (batch : list task) :
  ∀ results w,
  _worker_template_img w = Some t → images w !! t = Some tp →
  ∃ new,
    (process_batch_loop batch results w).1 = inr (results ++ new)
    ∧ Forall2 (λ item r, ∃ f, r = job_outcome tp item f) batch new.
Proof.
  induction batch as [|item batch IH]; intros results w Ht Hp.
  - exists []. rewrite app_nil_r. split; [done|constructor].
  - rewrite process_batch_loop_cons.
    destruct (render_item_job_outcome item w t tp Ht Hp) as [f Hf].
    destruct (triple_render_item w item w (stable_refl w))
      as [(Ht' & _ & _ & Hi' & _) _].
    destruct (IH (results ++ [result_of item.1.1 (render_item item w).1])
                 (render_item item w).2) as (new & Hres & Hall).
    { congruence. }
    { by eapply prefix_lookup_Some. }
    exists (result_of item.1.1 (render_item item w).1 :: new).
    rewrite Hres, <- app_assoc. split; [done|].
    constructor; [by exists f|exact Hall].
Qed.

Lemma render_item_no_template (item : task) w :
  _worker_template_img w = None →
  render_item item w
  = (inl "'NoneType' object has no attribute 'copy'", w).
Proof.
  intros Ht. destruct item as [[name output_path] max_font_size].
  unfold render_item, bind, gets, raise. cbn [fst snd]. by rewrite Ht.
Qed.

Lemma process_batch_loop_no_template (batch : list task) :
  ∀ results w,
  _worker_template_img w = None →
  (process_batch_loop batch results w).1
  = inr (results ++ ((λ item : task,
                        Failure "'NoneType' object has no attribute 'copy'"
                                item.1.1) <$> batch)).
Proof.
  induction batch as [|item batch IH]; intros results w Ht.
  - cbn. by rewrite app_nil_r.
  - rewrite process_batch_loop_cons, (render_item_no_template item w Ht).
    cbn [fst snd result_of]. rewrite (IH _ w Ht), <- app_assoc. done.
Qed.

(** C2: a batch of N jobs gives N results, one for each job in order, each
    a success or a failure that carries the name of its job, so successes
    and failures add up to N.  The result of a job is decided by that job
    alone: in a worker with a decoded template it is the failure
    [Failure e name] with the message raised when drawing the name or
    writing the file raises, and a success otherwise, whatever became of
    the jobs before it, and the files written are those of the successes;
    in a worker without a template every job is the failure of the
    exception that the copy raises.  A job that raises is recorded and the
    loop goes on with the jobs that remain; and [main], whatever the order
    in which the batches complete, counts one completed certificate for
    every job it submitted, with the failures as its errors. *)
Theorem batch_complete (batch : list task) w (item : task)
    (results : list RenderResult) (tasks : list task) (batch_size : Z) :
  (∃ rs, (process_batch batch w).1 = inr rs
         ∧ length rs = length batch
         ∧ Forall2 tagged batch rs
         ∧ (successes rs + failures rs = length batch)%nat
         ∧ (∀ t tp, _worker_template_img w = Some t → images w !! t = Some tp →
              Forall2 (λ item r, ∃ f, r = job_outcome tp item f) batch rs
              ∧ ∃ written,
                  files (process_batch batch w).2 = files w ++ written
                  ∧ Forall2 (file_of tp) (succeeded batch rs) written)
         ∧ (_worker_template_img w = None →
            rs = (λ item : task,
                    Failure "'NoneType' object has no attribute 'copy'"
                            item.1.1) <$> batch))
  ∧ process_batch_loop (item :: batch) results w =
    process_batch_loop batch
      (results ++ [result_of item.1.1 (render_item item w).1])
      (render_item item w).2
  ∧ (0 < batch_size →
     ∃ batches, split_batches tasks batch_size = inr batches
       ∧ concat batches = tasks
       ∧ ∀ runs : list run, runs.*1 ≡ₚ batches →
           completed (collect (future_of <$> runs)) = length tasks
           ∧ errors (collect (future_of <$> runs))
             = sum_list_with errors_of runs).
Proof.
  split; [|split; [apply process_batch_loop_cons|]].
  - destruct (process_batch_results batch w) as (rs & Hrs & Htag).
    exists rs. pose proof (Forall2_length _ _ _ Htag) as Hlen.
    split; [exact Hrs|]. split; [done|]. split; [exact Htag|].
    split; [by rewrite successes_failures|]. split.
    + intros t tp Ht Hp. unfold process_batch, bind, modify in Hrs |- *.
      cbn [fst snd] in Hrs |- *. split.
      * destruct (process_batch_loop_outcomes tp t batch []
                    (set_font_size_cache ∅ w) Ht Hp) as (new & Hnew & Hall).
        rewrite Hrs in Hnew. by injection Hnew as ->.
      * destruct (process_batch_loop_files tp t batch []
                    (set_font_size_cache ∅ w) Ht Hp)
          as (new & written & Hnew & _ & Hfiles & Hall).
        rewrite Hrs in Hnew. injection Hnew as ->. by exists written.
    + intros Ht. unfold process_batch, bind, modify in Hrs.
      cbn [fst snd] in Hrs.
      rewrite (process_batch_loop_no_template batch []
                 (set_font_size_cache ∅ w) Ht) in Hrs.
      by injection Hrs as <-.
  - intros Hpos.
    destruct (split_batches_concat tasks batch_size Hpos)
      as (batches & Hsplit & Hconcat).
    exists batches. split; [exact Hsplit|]. split; [exact Hconcat|].
    intros runs Hperm. unfold collect.
    destruct (collect_future_of runs (Tally 0 0 [])) as [-> ->].
    split; [|done]. cbn [completed]. rewrite Nat.add_0_l.
    rewrite sum_list_with_fst_length, sum_list_with_length_concat.
    rewrite <- Hconcat. apply Permutation_length.
    by rewrite Hperm.
Qed.

Lemma render_item_calls (name output_path : string) (max_font_size : Z)
    w (t : nat) (tp : pixels) :
  _worker_template_img w = Some t → images w !! t = Some tp →
  let sw := item_size (length (images w)) name max_font_size
                      (set_images (images w ++ [tp]) w) in
  let fw := get_font sw.1 sw.2 in
  let w' := (render_item (name, output_path, max_font_size) w).2 in
  calls w' = calls fw.2
               ++ [ETextbbox name fw.1;
                   EText (length (images w))
                         (batch_xy (textbbox (font_face fw.1) name))
                         name fw.1 DEFAULT_FONT_COLOR]
  ∧ font_size_cache w' = font_size_cache sw.2
  ∧ _worker_font_cache w' = _worker_font_cache fw.2
  ∧ _worker_font_path w' = _worker_font_path fw.2.
Proof.
  intros Ht Hp. cbv zeta. rewrite (render_item_eq _ _ _ _ _ _ Ht Hp). cbv zeta.
  destruct (get_font_frame
              (item_size (length (images w)) name max_font_size
                         (set_images (images w ++ [tp]) w)).1
              (item_size (length (images w)) name max_font_size
                         (set_images (images w ++ [tp]) w)).2)
    as (_ & _ & _ & Hc).
  destruct (draw_text tp _ name _ DEFAULT_FONT_COLOR) as [e|p'];
    [|destruct (save_error output_path p')];
    cbn [fst snd log set_images set_files calls font_size_cache
         _worker_font_cache _worker_font_path];
    rewrite <- app_assoc; by rewrite Hc.
Qed.

Lemma last_two {A} (l : list A) (x y : A) : last (l ++ [x; y]) = Some y.
Proof.
  replace (l ++ [x; y]) with ((l ++ [x]) ++ [y]) by (by rewrite <- app_assoc).
  apply last_snoc.
Qed.

(** X10: in the batch generator the box that the font measures for the
    name, at the place where the name is drawn (what [draw.textbbox]
    reports there), is displaced from the centre of the placement box by
    the origin of the measured box: twice its midpoint exceeds twice the
    midpoint of the placement box by [2 * bbox[0]] or one less,
    horizontally, and by [2 * bbox[1]] or one less, vertically.  So the
    measured box is centred within a pixel only when it starts within a
    pixel of the origin. *)
Theorem batch_text_displaced (name output_path : string) (max_font_size : Z)
    w (t : nat) (tp : pixels) :
  _worker_template_img w = Some t → images w !! t = Some tp →
  ∃ f,
    let b := textbbox (font_face f) name in
    let placed := measured_at (batch_xy b) b in
    last (calls (render_item (name, output_path, max_font_size) w).2)
      = Some (EText (length (images w)) (batch_xy b) name f DEFAULT_FONT_COLOR)
    ∧ 2 * bbox0 b - 1 ≤ (bbox0 placed + bbox2 placed) - (2 * BOX_X + BOX_W)
                      ≤ 2 * bbox0 b
    ∧ 2 * bbox1 b - 1 ≤ (bbox1 placed + bbox3 placed) - (2 * BOX_Y + BOX_H)
                      ≤ 2 * bbox1 b
    ∧ (-2 ≤ (bbox0 placed + bbox2 placed) - (2 * BOX_X + BOX_W) ≤ 2 →
       -1 ≤ bbox0 b ≤ 1).
Proof.
  intros Ht Hp.
  destruct (render_item_calls name output_path max_font_size w t tp Ht Hp)
    as (Hcalls & _).
  eexists. cbv zeta. split; [rewrite Hcalls; apply last_two|].
  set (b := textbbox _ name).
  unfold measured_at, batch_xy, bbox0, bbox1, bbox2, bbox3. cbn [fst snd].
  pose proof (Z.div_mod (BOX_W - (b.1.2 - b.1.1.1)) 2 ltac:(lia)).
  pose proof (Z.mod_pos_bound (BOX_W - (b.1.2 - b.1.1.1)) 2 ltac:(lia)).
  pose proof (Z.div_mod (BOX_H - (b.2 - b.1.1.2)) 2 ltac:(lia)).
  pose proof (Z.mod_pos_bound (BOX_H - (b.2 - b.1.1.2)) 2 ltac:(lia)).
  lia.
Qed.

(** X11: two jobs of a batch whose names, of plain characters, have the
    same length are drawn with the same font object, the one fitted for
    the first of them: the second name is measured once, for its position,
    and not fitted, whatever its own extent and its own maximum size. *)
Theorem same_length_same_font (name1 path1 : string) (max1 : Z)
    (name2 path2 : string) (max2 : Z) w (t : nat) (tp : pixels) :
  _worker_template_img w = Some t → images w !! t = Some tp →
  ascii_only name1 → ascii_only name2 →
  String.length name2 = String.length name1 →
  let w1 := (render_item (name1, path1, max1) w).2 in
  let w2 := (render_item (name2, path2, max2) w1).2 in
  ∃ f,
    last (calls w1)
      = Some (EText (length (images w))
                    (batch_xy (textbbox (font_face f) name1)) name1 f
                    DEFAULT_FONT_COLOR)
    ∧ calls w2
      = calls w1 ++ [ETextbbox name2 f;
                     EText (length (images w1))
                           (batch_xy (textbbox (font_face f) name2)) name2 f
                           DEFAULT_FONT_COLOR].
Proof.
  intros Ht Hp _ _ Hlen. cbv zeta.
  destruct (render_item_calls name1 path1 max1 w t tp Ht Hp)
    as (Hcalls1 & Hfsc1 & Hcache1 & Hpath1).
  destruct (item_size_frame (length (images w)) name1 max1
              (set_images (images w ++ [tp]) w)) as (_ & _ & _ & Hkey).
  set (sw := item_size (length (images w)) name1 max1
                       (set_images (images w ++ [tp]) w)) in *.
  set (w1 := (render_item (name1, path1, max1) w).2) in *.
  destruct (triple_render_item w (name1, path1, max1) w (stable_refl w))
    as [(Ht1 & _ & _ & Hi1 & _) _]. fold w1 in Ht1, Hi1.
  assert (_worker_template_img w1 = Some t) as Ht' by congruence.
  assert (images w1 !! t = Some tp) as Hp' by (by eapply prefix_lookup_Some).
  destruct (render_item_calls name2 path2 max2 w1 t tp Ht' Hp')
    as (Hcalls2 & _).
  assert (_worker_font_cache w1 !! sw.1 = Some (get_font sw.1 sw.2).1) as Hhit.
  { rewrite Hcache1, get_font_font_cache. apply lookup_insert_eq. }
  assert (item_size (length (images w1)) name2 max2
                    (set_images (images w1 ++ [tp]) w1)
          = (sw.1, set_images (images w1 ++ [tp]) w1)) as Hsize.
  { unfold item_size. cbn [set_images font_size_cache].
    by rewrite Hlen, Hfsc1, Hkey. }
  rewrite Hsize in Hcalls2. cbn [fst snd] in Hcalls2.
  rewrite (get_font_hit sw.1 (get_font sw.1 sw.2).1) in Hcalls2 by exact Hhit.
  exists (get_font sw.1 sw.2).1. split.
  - rewrite Hcalls1. apply last_two.
  - exact Hcalls2.
Qed.

Lemma draw_certificate_last_call (template : nat) (name : string)
    (x y bw bh : Z) (max_font_size : Z) (color font_filename : string)
    w (p : pixels) :
  images w !! template = Some p →
  ∃ f,
    let b := textbbox (font_face f) name in
    last (calls (draw_certificate template name (x, y, bw, bh) max_font_size
                   color font_filename w).2)
    = Some (EText (length (images w))
                  (x + (bw - (bbox2 b - bbox0 b)) `div` 2 - bbox0 b,
                   y + bh - (bbox3 b - bbox1 b) - 5 - bbox1 b)
                  name f (ColorSpec color)).
Proof.
  intros Hp. unfold draw_certificate, bind, lift, Image_copy. rewrite Hp.
  destruct (get_font_for_text name bw bh max_font_size font_filename _)
    as [[f fsize] w1].
  cbn [fst snd draw_textbbox]. exists f. cbv zeta.
  set (xy := (_, _)).
  assert (calls (ImageDraw_text (length (images w)) xy name f (ColorSpec color)
                   (log (ETextbbox name f) w1)).2
          = calls (log (ETextbbox name f) w1)
            ++ [EText (length (images w)) xy name f (ColorSpec color)])
    as Hcalls.
  { unfold ImageDraw_text. cbn zeta.
    destruct (images _ !! length (images w)) as [q|]; [|reflexivity].
    by destruct (draw_text q xy name (font_face f) (ColorSpec color)). }
  destruct (ImageDraw_text _ xy name f _ _) as [[e|[]] w2];
    cbn [fst snd ret] in *; rewrite Hcalls; apply last_snoc.
Qed.

(** X12: the last call [draw_certificate] makes draws the name at the
    place where the box that the font measures for it (what
    [draw.textbbox] reports there) is horizontally centred in the
    placement box, half a pixel to the left at most, and has its bottom
    edge five pixels above the bottom of the placement box, whatever the
    origin of the measured box is. *)
Theorem backend_text_placement (template : nat) (name : string)
    (x y bw bh : Z) (max_font_size : Z) (color font_filename : string)
    w (p : pixels) :
  images w !! template = Some p →
  ∃ xy f,
    let placed := measured_at xy (textbbox (font_face f) name) in
    last (calls (draw_certificate template name (x, y, bw, bh) max_font_size
                   color font_filename w).2)
      = Some (EText (length (images w)) xy name f (ColorSpec color))
    ∧ -1 ≤ (bbox0 placed + bbox2 placed) - (2 * x + bw) ≤ 0
    ∧ bbox3 placed = y + bh - 5.
Proof.
  intros Hp.
  destruct (draw_certificate_last_call template name x y bw bh max_font_size
              color font_filename w p Hp) as (f & Hlast).
  cbv zeta in Hlast. eexists _, f. cbv zeta. split; [exact Hlast|].
  set (b := textbbox (font_face f) name).
  unfold measured_at, bbox0, bbox1, bbox2, bbox3. cbn [fst snd].
  pose proof (Z.div_mod (bw - (b.1.2 - b.1.1.1)) 2 ltac:(lia)).
  pose proof (Z.mod_pos_bound (bw - (b.1.2 - b.1.1.1)) 2 ltac:(lia)).
  lia.
Qed.

(** ** Fonts loaded in advance *)

Lemma warm_frame max_font_size w0 w w' :
  warm max_font_size w0 w →
  _worker_font_cache w' = _worker_font_cache w →
  font_size_cache w' = font_size_cache w →
  (∀ size, load_count size w' = load_count size w) →
  next_font_id w' = next_font_id w →
  warm max_font_size w0 w'.
Proof.
  intros (Hc & Hk & Hl & Hn) Hc' Hk' Hl' Hn'. split; [|split; [|split]].
  - intros size Hs. rewrite Hc'. by apply Hc.
  - intros key size. rewrite Hk'. apply Hk.
  - intros size. by rewrite Hl'.
  - congruence.
Qed.

Lemma warm_log max_font_size w0 w e :
  (∀ size, is_load size e = false) →
  warm max_font_size w0 w → warm max_font_size w0 (log e w).
Proof.
  intros He Hw. apply (warm_frame _ _ w); try done.
  intros size. by rewrite load_count_log, He, Nat.add_0_r.
Qed.

Lemma warm_get_font max_font_size w0 w size :
  warm max_font_size w0 w → preloaded max_font_size size →
  ∃ f, get_font size w = (f, w).
Proof.
  intros (Hc & _) Hs. destruct (Hc size Hs) as [f Hf].
  exists f. by apply get_font_hit.
Qed.

Lemma warm_find_font_size_loop max_font_size w0 text box_w box_h (n : nat) :
  20 ≤ max_font_size → max_font_size `mod` 4 = 0 →
  ∀ size w, (Z.to_nat (size - 19) ≤ n)%nat →
  size ≤ max_font_size → size `mod` 4 = 0 →
  warm max_font_size w0 w →
  warm max_font_size w0 (find_font_size_loop text box_w box_h size w).2
  ∧ preloaded max_font_size (find_font_size_loop text box_w box_h size w).1.
Proof.
  intros Hmax Hmod.
  induction n as [|n IH]; intros size w Hn Hle Hsize Hw;
    rewrite find_font_size_loop_eq;
    destruct (decide (20 ≤ size)) as [Hge|Hlt]; try lia;
    try (split; [exact Hw|by split]).
  destruct (warm_get_font _ _ _ size Hw) as [f Hf]; [by split|].
  rewrite Hf. cbn zeta. cbn [fst snd draw_textbbox].
  assert (warm max_font_size w0 (log (ETextbbox text f) w)) as Hw'
    by (by apply warm_log).
  destruct (bool_decide _); cbn [fst snd]; [by split|].
  apply IH; [lia|lia| |exact Hw'].
  replace (size - 4) with (size + (-1) * 4) by lia.
  by rewrite Z.mod_add by lia.
Qed.

Lemma triple_warm_render_item max_font_size w0 (item : task) :
  20 ≤ max_font_size → max_font_size `mod` 4 = 0 →
  item.2 = max_font_size →
  triple (warm max_font_size w0) (render_item item) (λ _, True).
Proof.
  intros Hmax Hmod. destruct item as [[name output_path] m]. cbn. intros ->.
  unfold render_item.
  apply triple_bind with (φ := λ _, True); [by apply triple_gets|].
  intros template _.
  apply triple_bind with (φ := λ _, True).
  { destruct template as [t|]; [|apply triple_raise].
    intros w Hw. unfold Image_copy.
    destruct (images w !! t); cbn; [|by split].
    split; [|done]. by apply (warm_frame _ _ w). }
  intros img _.
  apply triple_bind with (φ := λ _, True); [by apply triple_gets|].
  intros known _.
  apply triple_bind with (φ := λ _, True).
  { destruct known; [by apply triple_ret|].
    apply triple_bind with (φ := preloaded max_font_size).
    - apply triple_lift. intros w Hw.
      by apply (warm_find_font_size_loop _ _ _ _ _
                  (Z.to_nat (max_font_size - 19))).
    - intros size Hsize. apply triple_modify.
      intros w (Hc & Hk & Hl & Hn). split; [|split; [|split]]; try done.
      intros key size'. cbn [set_font_size_cache font_size_cache].
      rewrite lookup_insert. case_decide; [by intros [= <-]|apply Hk]. }
  intros _ _.
  apply triple_bind with (φ := λ cached, ∀ size, cached = Some size →
                                         preloaded max_font_size size).
  { apply triple_gets. intros w (_ & Hk & _) size. apply Hk. }
  intros cached Hcached.
  apply triple_bind with (φ := preloaded max_font_size).
  { destruct cached as [size|]; [apply triple_ret; by apply Hcached|
                                 apply triple_raise]. }
  intros font_size Hsize.
  apply triple_bind with (φ := λ _, True).
  { apply triple_lift. intros w Hw.
    destruct (warm_get_font _ _ _ font_size Hw Hsize) as [f ->]. by split. }
  intros f _.
  apply triple_bind with (φ := λ _, True).
  { apply triple_lift. intros w Hw. split; [|done]. by apply warm_log. }
  intros b _.
  apply triple_bind with (φ := λ _, True).
  { intros w Hw. unfold ImageDraw_text. cbn zeta.
    assert (warm max_font_size w0
              (log (EText img (BOX_X + (BOX_W - (bbox2 b - bbox0 b)) `div` 2,
                               BOX_Y + (BOX_H - (bbox3 b - bbox1 b)) `div` 2)
                          name f DEFAULT_FONT_COLOR) w)) as Hw'
      by (by apply warm_log).
    destruct (images _ !! img) as [p|]; [|by split].
    destruct (draw_text p _ name (font_face f) DEFAULT_FONT_COLOR);
      [by split|].
    split; [|done]. by eapply warm_frame. }
  intros _ _. intros w Hw. unfold Image_save.
  destruct (images w !! img) as [p|]; [|by split].
  destruct (save_error output_path p); [by split|].
  split; [|done]. by apply (warm_frame _ _ w).
Qed.

Lemma triple_warm_process_batch_loop max_font_size w0 (batch : list task) :
  20 ≤ max_font_size → max_font_size `mod` 4 = 0 →
  Forall (λ item : task, item.2 = max_font_size) batch →
  ∀ results,
  triple (warm max_font_size w0) (process_batch_loop batch results)
         (λ _, True).
Proof.
  intros Hmax Hmod. induction 1 as [|item batch Hitem _ IH]; intros results;
    cbn [process_batch_loop].
  - by apply triple_ret.
  - apply triple_bind with (φ := λ _, True); [|intros r _; apply IH].
    apply triple_try_except; [|intros e; by apply triple_ret].
    apply triple_bind with (φ := λ _, True);
      [by apply triple_warm_render_item|].
    intros _ _. by apply triple_ret.
Qed.

(** X13: when the maximum size is a multiple of four that is at least
    20, the fonts [init_worker] loads in advance are all the fonts a worker
    ever needs: a batch of jobs with that maximum size loads no font and
    makes no font object, at any time in the life of the worker. *)
Theorem preload_is_complete (template_bytes font_path : string)
    (max_font_size : Z) (batch : list task) w0 w :
  init_worker template_bytes font_path max_font_size initial_world
    = (inr (), w0) →
  rtc worker_step w0 w →
  20 ≤ max_font_size → max_font_size `mod` 4 = 0 →
  Forall (λ item : task, item.2 = max_font_size) batch →
  (∀ size, load_count size (process_batch batch w).2 = load_count size w)
  ∧ next_font_id (process_batch batch w).2 = next_font_id w.
Proof.
  intros Hinit Hsteps Hmax Hmod Hbatch.
  assert (∀ size, preloaded max_font_size size →
                  is_Some (_worker_font_cache w !! size)) as Hcached.
  { intros size Hsize.
    destruct (init_worker_state template_bytes font_path max_font_size)
      as [Hok Hfail].
    destruct (decode template_bytes) as [e|p] eqn:Hdecode.
    { rewrite (Hfail e eq_refl) in Hinit. done. }
    destruct (Hok p eq_refl) as (w0' & Hinit' & _ & _ & _ & Hfaces).
    assert (w0' = w0) as -> by congruence.
    specialize (Hfaces size). rewrite decide_True in Hfaces by exact Hsize.
    destruct (_worker_font_cache w0 !! size) as [f|] eqn:Hf; [|done].
    apply worker_steps_stable in Hsteps.
    exists f. by eapply stable_lookup. }
  assert (warm max_font_size w (set_font_size_cache ∅ w)) as Hstart.
  { by split; [|split; [|split]]. }
  destruct (triple_warm_process_batch_loop max_font_size w batch Hmax Hmod
              Hbatch [] _ Hstart) as [(_ & _ & Hl & Hn) _].
  split; [exact Hl|exact Hn].
Qed.

(** ** The output paths of [main] *)

Lemma chars_app (a b : string) :
  String.list_ascii_of_string (a +:+ b)
  = String.list_ascii_of_string a ++ String.list_ascii_of_string b.
Proof. induction a as [|c a IH]; simpl; [done|]. by f_equal. Qed.

Lemma chars_inj (a b : string) :
  String.list_ascii_of_string a = String.list_ascii_of_string b → a = b.
Proof.
  intros Heq. rewrite <- (String.string_of_list_ascii_of_string a),
    <- (String.string_of_list_ascii_of_string b). by rewrite Heq.
Qed.

Lemma length_chars (a : string) :
  length (String.list_ascii_of_string a) = String.length a.
Proof. induction a as [|c a IH]; simpl; [done|]. by f_equal. Qed.

Lemma pretty_N_char_digit (x : N) : pretty_N_char x ∈ digit_chars.
Proof.
  unfold pretty_N_char, digit_chars.
  repeat case_match; apply list_elem_of_In; cbn; tauto.
Qed.

Lemma pretty_N_go_shape (x : N) :
  (0 < x)%N →
  (∀ s, String.list_ascii_of_string (pretty_N_go x s)
        = String.list_ascii_of_string (pretty_N_go x EmptyString)
          ++ String.list_ascii_of_string s)
  ∧ Forall (λ c, c ∈ digit_chars)
           (String.list_ascii_of_string (pretty_N_go x EmptyString))
  ∧ ∃ c r, String.list_ascii_of_string (pretty_N_go x EmptyString) = c :: r
           ∧ c ≠ "0"%char.
Proof.
  induction (N.lt_wf_0 x) as [x _ IH]. intros Hx.
  assert (pretty_N_char (x `mod` 10) ≠ "0"%char ∨ (0 < x `div` 10)%N) as Hlast.
  { destruct (decide (0 < x `div` 10)%N) as [?|Hdiv]; [by right|left].
    intros Hzero.
    apply (pretty_N_char_inj (x `mod` 10) 0) in Hzero;
      [|by apply N.mod_lt|done].
    pose proof (N.div_mod x 10 ltac:(done)). lia. }
  assert (∀ s, pretty_N_go x s
               = pretty_N_go (x `div` 10)
                   (String (pretty_N_char (x `mod` 10)) s)) as Hstep
    by (intros s; by apply pretty_N_go_step).
  destruct (decide (0 < x `div` 10)%N) as [Hdiv|Hdiv].
  - destruct (IH (x `div` 10)%N (N.div_lt x 10 Hx eq_refl) Hdiv)
      as (Happ & Hdigits & c & r & Hhead & Hc).
    split; [|split].
    + intros s. rewrite !Hstep, (Happ (String _ s)), (Happ (String _ EmptyString)).
      cbn. by rewrite <- app_assoc.
    + rewrite Hstep, Happ. apply Forall_app. split; [exact Hdigits|].
      cbn. apply Forall_singleton, pretty_N_char_digit.
    + rewrite Hstep, Happ, Hhead. cbn.
      eexists _, _; split; [reflexivity|exact Hc].
  - assert (x `div` 10 = 0)%N as Hzero
      by (destruct (N.eq_0_gt_0_cases (x `div` 10)); [done|contradiction]).
    destruct Hlast as [Hlast|?]; [|done].
    split; [|split].
    + intros s. by rewrite !Hstep, Hzero, !pretty_N_go_0.
    + rewrite Hstep, Hzero, pretty_N_go_0. cbn. apply Forall_singleton, pretty_N_char_digit.
    + rewrite Hstep, Hzero, pretty_N_go_0. cbn.
      eexists _, _; split; [reflexivity|exact Hlast].
Qed.

Lemma pretty_nat_shape (n : nat) :
  Forall (λ c, c ∈ digit_chars) (String.list_ascii_of_string (pretty n))
  ∧ ((n = 0%nat ∧ pretty n = "0")
     ∨ ∃ c r, String.list_ascii_of_string (pretty n) = c :: r
              ∧ c ≠ "0"%char).
Proof.
  unfold pretty, pretty_nat, pretty, pretty_N.
  case_decide as Hn.
  - split; [cbn; apply Forall_singleton, list_elem_of_In; cbn; tauto|].
    left. split; [lia|done].
  - destruct (pretty_N_go_shape (N.of_nat n) ltac:(lia)) as (_ & Hd & Hh).
    split; [exact Hd|by right].
Qed.

Lemma chars_zeros (k : nat) :
  String.list_ascii_of_string (String.concat EmptyString (replicate k "0"))
  = replicate k "0"%char.
Proof.
  induction k as [|k IH]; [done|]. destruct k as [|k]; [done|].
  change (String.concat EmptyString (replicate (S (S k)) "0"))
    with ("0" +:+ EmptyString
          +:+ String.concat EmptyString (replicate (S k) "0")).
  by rewrite !chars_app, IH.
Qed.

Lemma chars_format_05d (n : nat) :
  String.list_ascii_of_string (format_05d n)
  = replicate (5 - length (String.list_ascii_of_string (pretty n))) "0"%char
    ++ String.list_ascii_of_string (pretty n).
Proof.
  unfold format_05d. cbv zeta. by rewrite chars_app, chars_zeros, length_chars.
Qed.

Lemma zeros_pretty_le (k1 k2 : nat) (n1 n2 : nat) :
  (k1 ≤ k2)%nat →
  replicate k1 "0"%char ++ String.list_ascii_of_string (pretty n1)
  = replicate k2 "0"%char ++ String.list_ascii_of_string (pretty n2) →
  n1 = n2.
Proof.
  intros Hle Heq.
  replace k2 with (k1 + (k2 - k1))%nat in Heq by lia.
  rewrite replicate_add, <- app_assoc in Heq. apply app_inv_head in Heq.
  destruct (k2 - k1)%nat as [|k] eqn:Hk.
  - cbn in Heq. by apply (inj pretty), chars_inj.
  - cbn in Heq.
    destruct (pretty_nat_shape n1) as [_ [[-> Hzero]|(c & r & Hhead & Hc)]].
    + rewrite Hzero in Heq. cbn in Heq. injection Heq as Heq.
      symmetry in Heq. apply app_eq_nil in Heq as [_ Heq].
      destruct (pretty_nat_shape n2) as [_ [[-> _]|(c & r & Hhead & _)]];
        [done|congruence].
    + rewrite Hhead in Heq. congruence.
Qed.

Lemma format_05d_inj (n1 n2 : nat) : format_05d n1 = format_05d n2 → n1 = n2.
Proof.
  intros Heq. apply (f_equal String.list_ascii_of_string) in Heq.
  rewrite !chars_format_05d in Heq.
  destruct (decide (5 - length (String.list_ascii_of_string (pretty n1))
                    ≤ 5 - length (String.list_ascii_of_string (pretty n2)))%nat).
  - by eapply zeros_pretty_le.
  - symmetry. eapply zeros_pretty_le; [|symmetry; exact Heq]. lia.
Qed.

Lemma Forall_digit_format_05d (n : nat) :
  Forall (λ c, c ∈ digit_chars) (String.list_ascii_of_string (format_05d n))
  ∧ ∃ c r, String.list_ascii_of_string (format_05d n) = c :: r.
Proof.
  rewrite chars_format_05d.
  destruct (pretty_nat_shape n) as [Hd Hshape]. split.
  - apply Forall_app. split; [|exact Hd]. apply Forall_replicate.
    apply list_elem_of_In. cbn. tauto.
  - destruct (5 - _)%nat; cbn; [|eauto].
    destruct Hshape as [[-> ->]|(c & r & -> & _)]; cbn; eauto.
Qed.

Lemma digits_before_underscore (d1 d2 r1 r2 : list ascii) :
  Forall (λ c, c ∈ digit_chars) d1 → Forall (λ c, c ∈ digit_chars) d2 →
  d1 ++ "_"%char :: r1 = d2 ++ "_"%char :: r2 → d1 = d2.
Proof.
  assert (¬ "_"%char ∈ digit_chars) as Hnot.
  { rewrite list_elem_of_In. cbn. intros H'. repeat destruct H' as [?|H']; done. }
  revert d2. induction d1 as [|c d1 IH]; intros [|c' d2] H1 H2 Heq;
    cbn in Heq; try done.
  - injection Heq as <- _. by inversion H2.
  - injection Heq as -> _. by inversion H1.
  - injection Heq as -> Heq. f_equal.
    apply IH; [by inversion H1|by inversion H2|done].
Qed.

Lemma output_path_of_inj (output_dir : string) (k1 k2 : nat)
    (name1 name2 : string) :
  output_path_of output_dir k1 name1 = output_path_of output_dir k2 name2 →
  k1 = k2.
Proof.
  unfold output_path_of.
  assert (∀ k name, path_join output_dir
            (format_05d (k + 1) +:+ "_" +:+ str_map safe_char name +:+ ".jpg")
          = output_dir +:+ "/" +:+ format_05d (k + 1) +:+ "_"
              +:+ str_map safe_char name +:+ ".jpg") as Hjoin.
  { intros k name. unfold path_join.
    destruct (Forall_digit_format_05d (k + 1)) as [Hd (c & r & Hhead)].
    destruct (format_05d (k + 1)) as [|c' s] eqn:Hfmt; [done|].
    cbn in Hhead, Hd. injection Hhead as -> _. cbn.
    rewrite Forall_cons in Hd. destruct Hd as [Hc _].
    rewrite list_elem_of_In in Hc. cbn in Hc.
    repeat destruct Hc as [<-|Hc]; done. }
  rewrite !Hjoin. intros Heq.
  apply (inj (String.app output_dir)) in Heq. cbn in Heq.
  injection Heq as Heq.
  apply (f_equal String.list_ascii_of_string) in Heq.
  rewrite !chars_app in Heq. cbn in Heq.
  apply digits_before_underscore in Heq;
    [|apply Forall_digit_format_05d..].
  apply chars_inj, format_05d_inj in Heq. lia.
Qed.

Lemma prepare_tasks_spec (output_dir field : string) (font_size : Z)
    (rows : list (gmap string string)) :
  ∀ i tasks all,
  prepare_tasks output_dir field font_size i rows tasks = inr all →
  ∃ new, all = tasks ++ new
    ∧ length new = length rows
    ∧ ∀ k item, new !! k = Some item →
        ∃ row name, rows !! k = Some row ∧ row !! field = Some name
          ∧ item = (name, output_path_of output_dir (i + k) name, font_size).
Proof.
  induction rows as [|row rows IH]; intros i tasks all; cbn [prepare_tasks].
  - intros [= <-]. exists []. rewrite app_nil_r. by repeat split.
  - destruct (row !! field) as [name|] eqn:Hname; [|done]. intros Hall.
    apply IH in Hall as (new & -> & Hlen & Hnew).
    eexists (_ :: new). rewrite <- app_assoc. split; [done|].
    split; [cbn; by rewrite Hlen|].
    intros [|k] item; cbn.
    + intros [= <-]. exists row, name. rewrite Nat.add_0_r. by repeat split.
    + intros Hk. destruct (Hnew k item Hk) as (row' & name' & ? & ? & ->).
      exists row', name'. repeat split; try done.
      by replace (S i + k)%nat with (i + S k)%nat by lia.
Qed.

(** X14: when [main] prepares its tasks, every row gets a task, in order,
    with the name of the row and the font size of the run; no two tasks
    have the same output path, so no certificate overwrites another one,
    even for rows with the same name. *)
Theorem prepare_tasks_distinct_paths (output_dir field : string)
    (font_size : Z) (rows : list (gmap string string)) (tasks : list task) :
  prepare_tasks output_dir field font_size 0 rows [] = inr tasks →
  length tasks = length rows
  ∧ (∀ k item, tasks !! k = Some item →
       ∃ row, rows !! k = Some row ∧ row !! field = Some item.1.1
              ∧ item.2 = font_size)
  ∧ NoDup ((λ item : task, item.1.2) <$> tasks).
Proof.
  intros Hprep.
  apply prepare_tasks_spec in Hprep as (new & -> & Hlen & Hnew).
  cbn [app]. split; [exact Hlen|]. split.
  { intros k item Hk.
    destruct (Hnew k item Hk) as (row & name & Hrow & Hname & ->).
    by exists row. }
  apply NoDup_alt. intros k1 k2 path.
  rewrite !list_lookup_fmap.
  destruct (new !! k1) as [item1|] eqn:H1; [|done].
  destruct (new !! k2) as [item2|] eqn:H2; [|done].
  destruct (Hnew k1 item1 H1) as (? & name1 & _ & _ & ->).
  destruct (Hnew k2 item2 H2) as (? & name2 & _ & _ & ->).
  cbn. intros [= <-] [= Heq]. by apply output_path_of_inj in Heq.
Qed.

(** ** The archive of [generate_certificates] *)

Lemma row_names_cons (name_column : string) (row : gmap string string)
    (rows : list (gmap string string)) :
  row_names name_column (row :: rows)
  = if decide (strip (default EmptyString (row !! name_column)) = EmptyString)
    then row_names name_column rows
    else strip (default EmptyString (row !! name_column))
         :: row_names name_column rows.
Proof.
  unfold row_names. rewrite fmap_cons, filter_cons.
  destruct (decide (strip _ = _)) as [Heq|Hne].
  - by rewrite decide_False by (intros Hne; by apply Hne).
  - by rewrite decide_True by done.
Qed.

Lemma generate_rows_entries_gen (template_img : nat) (name_column : string)
    (box : Z * Z * Z * Z) (font_size : Z) (font_color font_file : string)
    (rows : list (gmap string string)) :
  ∀ zf n w zf' n',
  (generate_rows template_img name_column box font_size font_color font_file
                 rows zf n w).1 = inr (zf', n') →
  n' = (n + length (row_names name_column rows))%nat
  ∧ zf'.*1 = zf.*1 ++ (row_names name_column rows ≫= archive_names)
  ∧ ∃ ps, length ps = length (row_names name_column rows)
          ∧ zf'.*2 = zf.*2 ++ (ps ≫= λ p, [p; p]).
Proof.
  induction rows as [|row rows IH]; intros zf n w zf' n';
    rewrite ?row_names_cons; cbn [generate_rows].
  - intros [= <- <-]. cbn. rewrite !app_nil_r.
    split; [lia|]. split; [done|]. exists []. by rewrite app_nil_r.
  - destruct (decide (strip (default EmptyString (row !! name_column))
                      = EmptyString)) as [Hblank|Hname]; [apply IH|].
    unfold bind at 1.
    destruct (draw_certificate _ _ _ _ _ _ w) as [[e|cert_img] w1]; [done|].
    unfold bind, gets. cbn [fst snd].
    destruct (images w1 !! cert_img) as [p|]; [|done].
    intros Hrun. apply IH in Hrun as (-> & Hnames & ps & Hlen & Hps).
    split; [cbn; lia|]. split.
    + rewrite Hnames, fmap_app, <- app_assoc. done.
    + exists (p :: ps). split; [cbn; by rewrite Hlen|].
      rewrite Hps, fmap_app, <- app_assoc. done.
Qed.

Lemma lookup_bind_archive_names (names : list string) (i : nat)
    (name : string) :
  names !! i = Some name →
  (names ≫= archive_names) !! (2 * i)%nat
  = Some ("certificates_jpg/" +:+ sanitize_filename name +:+ ".jpg").
Proof.
  revert i. induction names as [|a names IH]; intros [|i]; try done.
  - by intros [= ->].
  - intros Hi. replace (2 * S i)%nat with (S (S (2 * i))) by lia.
    cbn. by apply IH.
Qed.

Lemma generate_rows_entries_names (template_img : nat) (name_column : string)
    (box : Z * Z * Z * Z) (font_size : Z) (font_color font_file : string)
    (rows : list (gmap string string)) w
    (zf : list (string * pixels)) (generated_count : nat) :
  (generate_rows template_img name_column box font_size font_color font_file
                 rows [] 0 w).1 = inr (zf, generated_count) →
  generated_count = length (row_names name_column rows)
  ∧ zf.*1 = row_names name_column rows ≫= archive_names
  ∧ (∃ ps, length ps = generated_count ∧ zf.*2 = ps ≫= λ p, [p; p])
  ∧ ∀ i j a b, (i < j)%nat →
      row_names name_column rows !! i = Some a →
      row_names name_column rows !! j = Some b →
      sanitize_filename a = sanitize_filename b →
      ¬ NoDup zf.*1.
Proof.
  intros Hrun.
  apply generate_rows_entries_gen in Hrun as (-> & Hnames & ps & Hlen & Hps).
  cbn in Hnames, Hps. split; [done|]. split; [exact Hnames|].
  split; [by exists ps|].
  intros i j a b Hij Ha Hb Hsame Hnodup. rewrite Hnames in Hnodup.
  apply lookup_bind_archive_names in Ha, Hb. rewrite Hsame in Ha.
  pose proof (proj1 (NoDup_alt _) Hnodup _ _ _ Ha Hb). lia.
Qed.

Lemma row_names_values (name_column : string)
    (rows : list (gmap string string)) (values : list string) :
  column_values name_column rows values →
  row_names name_column rows = stripped_names values.
Proof.
  unfold row_names, stripped_names. intros Hvalues. f_equal.
  induction Hvalues as [|row value rows values [Hvalue _] _ IH]; [done|].
  cbn. by rewrite Hvalue, IH.
Qed.

(** X15: for rows that hold a value of plain characters under the name
    column, when the loop of [generate_certificates] ends, the count it
    reports is the number of values that are not blank, and the archive
    holds for each of them, in order, a JPG and a PDF entry of the same
    picture, named by the sanitised name alone: two rows whose names
    sanitise to the same file name give entries of the same name. *)
Theorem generate_rows_entries (template_img : nat) (name_column : string)
    (box : Z * Z * Z * Z) (font_size : Z) (font_color font_file : string)
    (rows : list (gmap string string)) (values : list string) w
    (zf : list (string * pixels)) (generated_count : nat) :
  column_values name_column rows values →
  (generate_rows template_img name_column box font_size font_color font_file
                 rows [] 0 w).1 = inr (zf, generated_count) →
  generated_count = length (stripped_names values)
  ∧ zf.*1 = stripped_names values ≫= archive_names
  ∧ (∃ ps, length ps = generated_count ∧ zf.*2 = ps ≫= λ p, [p; p])
  ∧ ∀ i j a b, (i < j)%nat →
      stripped_names values !! i = Some a →
      stripped_names values !! j = Some b →
      sanitize_filename a = sanitize_filename b →
      ¬ NoDup zf.*1.
Proof.
  intros Hvalues Hrun. rewrite <- (row_names_values _ _ _ Hvalues).
  by apply (generate_rows_entries_names template_img name_column box font_size
              font_color font_file rows w).
Qed.

(** The loop over [pre ++ post] is the loop over [pre] and then over
    [post]. *)
Lemma generate_rows_app (template_img : nat) (name_column : string)
    (box : Z * Z * Z * Z) (font_size : Z) (font_color font_file : string)
    (pre post : list (gmap string string)) w
    (zf : list (string * pixels)) (generated_count : nat) :
  generate_rows template_img name_column box font_size font_color font_file
                (pre ++ post) zf generated_count w
  = match generate_rows template_img name_column box font_size font_color
                        font_file pre zf generated_count w with
    | (inr (zf1, count1), w1) =>
        generate_rows template_img name_column box font_size font_color
                      font_file post zf1 count1 w1
    | (inl e, w1) => (inl e, w1)
    end.
Proof.
  revert zf generated_count w.
  induction pre as [|row pre IH]; intros zf generated_count w;
    cbn [app generate_rows]; [done|].
  destruct (decide (strip (default EmptyString (row !! name_column))
                    = EmptyString)); [apply IH|].
  unfold bind at 1 3.
  destruct (draw_certificate _ _ _ _ _ _ w) as [[e|cert_img] w1]; [done|].
  unfold bind, gets. cbn [fst snd].
  destruct (images w1 !! cert_img) as [p|]; [apply IH|done].
Qed.

(** ** The picture of a certificate in the backend *)

Lemma draw_certificate_picture (template : nat) (name : string)
    (box : Z * Z * Z * Z) (max_font_size : Z) (color font_filename : string)
    w (tp : pixels) :
  images w !! template = Some tp →
  match certificate_picture tp name box max_font_size color font_filename with
  | inr p =>
      (draw_certificate template name box max_font_size color font_filename
         w).1 = inr (length (images w))
      ∧ images (draw_certificate template name box max_font_size color
                  font_filename w).2 !! length (images w) = Some p
  | inl e =>
      (draw_certificate template name box max_font_size color font_filename
         w).1 = inl e
  end.
Proof.
  intros Hp. destruct box as [[[x y] bw] bh].
  unfold certificate_picture, draw_certificate, bind, lift, Image_copy.
  rewrite Hp.
  pose proof (images_get_font_for_text_loop name bw bh font_filename
                (Z.to_nat (max_font_size - 9)) max_font_size
                (set_images (images w ++ [tp]) w) ltac:(lia)) as Hpre.
  fold (get_font_for_text name bw bh max_font_size font_filename
          (set_images (images w ++ [tp]) w)) in Hpre.
  destruct (get_font_for_text_spec (set_images (images w ++ [tp]) w) name
              bw bh max_font_size font_filename) as [Hsize Hface].
  destruct (get_font_for_text name bw bh max_font_size font_filename _)
    as [[f fsize] w1].
  cbn [fst snd draw_textbbox set_images images] in *.
  rewrite <- Hsize, <- Hface.
  assert (images w1 !! length (images w) = Some tp) as Hcell.
  { eapply prefix_lookup_Some; [|exact Hpre]. by apply list_lookup_middle. }
  unfold ImageDraw_text. cbn zeta. cbn [log images]. rewrite Hcell.
  destruct (draw_text tp _ name (font_face f) (ColorSpec color)) as [e|p];
    cbn [fst snd ret]; [done|].
  split; [done|]. cbn [set_images images log].
  apply list_lookup_insert_eq. by eapply lookup_lt_Some.
Qed.


(** ** The request handlers of the backend *)

Lemma open_template_eq (template_bytes : string) w :
  open_template template_bytes w
  = match decode template_bytes with
    | inr p => (inr (inr (length (images w))),
                set_images (images w ++ [p]) w)
    | inl e => (inr (inl e), w)
    end.
Proof.
  unfold open_template, try_except, bind, Image_open, ret.
  by destruct (decode template_bytes).
Qed.

Lemma generate_rows_pictures (template_img : nat) (name_column : string)
    (box : Z * Z * Z * Z) (font_size : Z) (font_color font_file : string)
    (tp : pixels) (rows : list (gmap string string)) :
  ∀ zf n w zf' n',
  images w !! template_img = Some tp →
  (generate_rows template_img name_column box font_size font_color font_file
                 rows zf n w).1 = inr (zf', n') →
  ∃ ps, zf'.*2 = zf.*2 ++ (ps ≫= λ p, [p; p])
    ∧ Forall2 (λ name p, certificate_picture tp name box font_size font_color
                           font_file = inr p)
              (row_names name_column rows) ps.
Proof.
  induction rows as [|row rows IH]; intros zf n w zf' n' Htp;
    rewrite ?row_names_cons; cbn [generate_rows].
  - intros [= <- <-]. exists []. cbn. by rewrite app_nil_r.
  - destruct (decide (strip (default EmptyString (row !! name_column))
                      = EmptyString)) as [Hblank|Hname]; [by apply IH|].
    unfold bind at 1.
    pose proof (draw_certificate_picture template_img
                  (strip (default EmptyString (row !! name_column)))
                  box font_size font_color font_file w tp Htp) as Hpic.
    pose proof (draw_certificate_images template_img
                  (strip (default EmptyString (row !! name_column)))
                  box font_size font_color font_file w) as [Hpre _].
    destruct (draw_certificate _ _ _ _ _ _ w) as [[e|cert_img] w1]; [done|].
    cbn [fst snd] in *.
    destruct (certificate_picture tp _ box font_size font_color font_file)
      as [e|p] eqn:Hp; [done|].
    destruct Hpic as [[= ->] Hcell].
    unfold bind, gets. cbn [fst snd]. rewrite Hcell.
    intros Hrun. apply IH in Hrun as (ps & Hps & Hall);
      [|by eapply prefix_lookup_Some].
    exists (p :: ps). split.
    + rewrite Hps, fmap_app, <- app_assoc. done.
    + by constructor.
Qed.

Lemma length_bind_archive_names (names : list string) :
  length (names ≫= archive_names) = (2 * length names)%nat.
Proof. induction names as [|a names IH]; [done|]. cbn. rewrite IH. lia. Qed.

Lemma generate_rows_no_names (template_img : nat) (name_column : string)
    (box : Z * Z * Z * Z) (font_size : Z) (font_color font_file : string)
    (rows : list (gmap string string)) zf n w :
  row_names name_column rows = [] →
  generate_rows template_img name_column box font_size font_color font_file
                rows zf n w = (inr (zf, n), w).
Proof.
  induction rows as [|row rows IH]; [done|].
  rewrite row_names_cons. cbn [generate_rows].
  destruct (decide (strip (default EmptyString (row !! name_column))
                    = EmptyString)); [exact IH|done].
Qed.

Lemma preview_matches_archive_names (content_type : option string)
    (template_bytes : string) (rows : list (gmap string string))
    (name_column : string) (box : Z * Z * Z * Z) (font_size : Z)
    (font_color font_file : string) (tp : pixels) w :
  decode template_bytes = inr tp →
  (∀ name w',
     (preview_certificate template_bytes name box font_size font_color
                          font_file w').1
     = match certificate_picture tp name box font_size font_color font_file
       with
       | inr p => inr (ImageResponse p)
       | inl e => inl e
       end)
  ∧ ∀ zf n,
      (generate_certificates content_type template_bytes (inr rows)
         name_column box font_size font_color font_file w).1
      = inr (ZipResponse zf n) →
      ∃ ps, zf.*2 = ps ≫= (λ p, [p; p])
        ∧ Forall2 (λ name p, ∀ w',
                     (preview_certificate template_bytes name box font_size
                        font_color font_file w').1 = inr (ImageResponse p))
                  (row_names name_column rows) ps.
Proof.
  intros Hdecode.
  assert (∀ name w',
     (preview_certificate template_bytes name box font_size font_color
                          font_file w').1
     = match certificate_picture tp name box font_size font_color font_file
       with
       | inr p => inr (ImageResponse p)
       | inl e => inl e
       end) as Hpreview.
  { intros name w'. unfold preview_certificate. unfold bind at 1.
    rewrite open_template_eq, Hdecode. unfold bind at 1.
    pose proof (draw_certificate_picture (length (images w')) name box
                  font_size font_color font_file
                  (set_images (images w' ++ [tp]) w') tp
                  ltac:(by apply list_lookup_middle)) as Hpic.
    destruct (draw_certificate _ _ _ _ _ _ _) as [[e|cert_img] w1];
      destruct (certificate_picture tp name box font_size font_color
                  font_file) as [e'|p]; cbn [fst snd] in *;
      try done; try (by destruct Hpic).
    - congruence.
    - destruct Hpic as [[= ->] Hcell]. unfold bind, gets.
      cbn [fst snd set_images images] in *. by rewrite Hcell. }
  split; [exact Hpreview|].
  intros zf n. unfold generate_certificates.
  destruct (negb _); [done|]. unfold bind at 1.
  rewrite open_template_eq, Hdecode.
  destruct rows as [|row0 rows]; [done|].
  destruct (decide (row0 !! name_column = None)); [done|].
  unfold bind at 1.
  destruct (generate_rows _ _ _ _ _ _ _ _ _ _) as [[e|[zf' n']] w1] eqn:Hrun;
    [done|].
  cbn [fst snd]. destruct (decide (n' = 0%nat)); [done|].
  intros [= <- <-].
  apply (f_equal fst) in Hrun. cbn [fst] in Hrun.
  apply generate_rows_pictures with (tp := tp) in Hrun as (ps & Hps & Hall);
    [|by apply list_lookup_middle].
  exists ps. split; [exact Hps|].
  eapply Forall2_impl; [exact Hall|].
  intros name p Hp w'. by rewrite Hpreview, Hp.
Qed.

(** X18: the preview shows the certificate the archive will hold.  For a
    template that decodes, [preview_certificate] answers with the picture
    of the name as it is given, blank or not, whatever the state of the
    process; and for rows that hold a value of plain characters under the
    name column, when [generate_certificates] answers with an archive, the
    two entries of each value that is not blank hold the picture that the
    preview of the stripped value shows. *)
Theorem preview_matches_archive (content_type : option string)
    (template_bytes : string) (rows : list (gmap string string))
    (values : list string)
    (name_column : string) (box : Z * Z * Z * Z) (font_size : Z)
    (font_color font_file : string) (tp : pixels) w :
  decode template_bytes = inr tp →
  column_values name_column rows values →
  (∀ name w',
     (preview_certificate template_bytes name box font_size font_color
                          font_file w').1
     = match certificate_picture tp name box font_size font_color font_file
       with
       | inr p => inr (ImageResponse p)
       | inl e => inl e
       end)
  ∧ ∀ zf n,
      (generate_certificates content_type template_bytes (inr rows)
         name_column box font_size font_color font_file w).1
      = inr (ZipResponse zf n) →
      ∃ ps, zf.*2 = ps ≫= (λ p, [p; p])
        ∧ Forall2 (λ name p, ∀ w',
                     (preview_certificate template_bytes name box font_size
                        font_color font_file w').1 = inr (ImageResponse p))
                  (stripped_names values) ps.
Proof.
  intros Hdecode Hvalues. rewrite <- (row_names_values _ _ _ Hvalues).
  by apply preview_matches_archive_names.
Qed.

Lemma generate_certificates_refused (content_type : option string)
    (template_bytes : string) (csv_rows : string + list (gmap string string))
    (name_column : string) (box : Z * Z * Z * Z) (font_size : Z)
    (font_color font_file : string) w w' (status : Z) (d : detail) :
  generate_certificates content_type template_bytes csv_rows name_column
    box font_size font_color font_file w
  = (inr (HTTPException status d), w') →
  status = 400 ∧ calls w' = calls w ∧ files w' = files w.
Proof.
  unfold generate_certificates, ret.
  destruct (negb _); [intros ?; by simplify_eq/=|]. unfold bind at 1.
  rewrite open_template_eq.
  destruct (decode template_bytes) as [e|tp]; [intros ?; by simplify_eq/=|].
  destruct csv_rows as [e|[|row0 rest]]; try (intros ?; by simplify_eq/=).
  destruct (decide (row0 !! name_column = None)); [intros ?; by simplify_eq/=|].
  unfold bind at 1.
  destruct (generate_rows _ _ _ _ _ _ _ _ _ _) as [[e|[zf' n']] w1] eqn:Hrun;
    [done|].
  cbn [fst snd]. destruct (decide (n' = 0%nat)) as [->|]; [|done].
  intros Heq. cbv beta in Heq. injection Heq as <- <- <-.
  pose proof (f_equal fst Hrun) as Hfst. cbn [fst] in Hfst.
  apply generate_rows_entries_gen in Hfst as (Hn & _).
  assert (row_names name_column (row0 :: rest) = []) as Hnone
    by (apply length_zero_iff_nil; lia).
  rewrite (generate_rows_no_names _ _ _ _ _ _ _ _ _ _ Hnone) in Hrun.
  injection Hrun as <- <-. done.
Qed.

Lemma generate_certificates_responses_names (content_type : option string)
    (template_bytes : string) (rows : list (gmap string string))
    (csv_rows : string + list (gmap string string))
    (name_column : string) (box : Z * Z * Z * Z) (font_size : Z)
    (font_color font_file : string) w :
  (∀ status d,
     (generate_certificates content_type template_bytes csv_rows name_column
        box font_size font_color font_file w).1
     = inr (HTTPException status d) →
     status = 400
     ∧ calls (generate_certificates content_type template_bytes csv_rows
                name_column box font_size font_color font_file w).2
       = calls w
     ∧ files (generate_certificates content_type template_bytes csv_rows
                name_column box font_size font_color font_file w).2
       = files w)
  ∧ (∀ zf n,
       (generate_certificates content_type template_bytes (inr rows)
          name_column box font_size font_color font_file w).1
       = inr (ZipResponse zf n) →
       (1 ≤ n)%nat ∧ n = length (row_names name_column rows)
       ∧ length zf = (2 * n)%nat)
  ∧ (∀ tp row0 rest,
       String.prefix "image/" (default EmptyString content_type) = true →
       decode template_bytes = inr tp →
       rows = row0 :: rest → is_Some (row0 !! name_column) →
       row_names name_column rows = [] →
       (generate_certificates content_type template_bytes (inr rows)
          name_column box font_size font_color font_file w).1
       = inr (HTTPException 400 NoValidNames)).
Proof.
  split; [|split].
  - intros status d.
    destruct (generate_certificates content_type template_bytes csv_rows
                name_column box font_size font_color font_file w)
      as [r w'] eqn:Hg.
    cbn [fst snd]. intros ->. by eapply generate_certificates_refused.
  - intros zf n. unfold generate_certificates.
    destruct (negb _); [done|]. unfold bind at 1.
    rewrite open_template_eq.
    destruct (decode template_bytes) as [e|tp]; [done|].
    destruct rows as [|row0 rest]; [done|].
    destruct (decide (row0 !! name_column = None)); [done|].
    unfold bind at 1.
    destruct (generate_rows _ _ _ _ _ _ _ _ _ _) as [[e|[zf' n']] w1] eqn:Hrun;
      [done|].
    cbn [fst snd]. destruct (decide (n' = 0%nat)); [done|].
    intros [= <- <-].
    apply (f_equal fst) in Hrun. cbn [fst] in Hrun.
    apply generate_rows_entries_gen in Hrun as (Hn & Hnames & _).
    split; [lia|]. split; [exact Hn|].
    rewrite <- (length_fmap fst zf'), Hnames, length_app,
      length_bind_archive_names, Hn.
    cbn [fmap list_fmap length]. lia.
  - intros tp row0 rest Hct Hdecode -> [name Hname] Hnone.
    unfold generate_certificates. rewrite Hct. cbn [negb].
    unfold bind at 1. rewrite open_template_eq, Hdecode.
    rewrite decide_False by (by rewrite Hname).
    unfold bind at 1.
    by rewrite (generate_rows_no_names _ _ _ _ _ _ _ _ _ _ Hnone).
Qed.

(** X19: on a table whose records have as many fields as the header,
    [generate_certificates] answers a request it refuses with status 400
    before any work is done for it: no font is loaded, no text is measured
    or drawn and no file is written.  An archive it answers with is never
    empty: it holds two entries for each value of the name column that is
    not blank, and the count is their number, at least one.  When the name
    column is there and every value is blank, the answer is the 400 for no
    valid names. *)
Theorem generate_certificates_responses (content_type : option string)
    (template_bytes : string)
    (csv_rows : string + list (gmap string string))
    (name_column : string) (box : Z * Z * Z * Z) (font_size : Z)
    (font_color font_file : string) w :
  csv_table name_column csv_rows →
  (∀ status d,
     (generate_certificates content_type template_bytes csv_rows name_column
        box font_size font_color font_file w).1
     = inr (HTTPException status d) →
     status = 400
     ∧ calls (generate_certificates content_type template_bytes csv_rows
                name_column box font_size font_color font_file w).2
       = calls w
     ∧ files (generate_certificates content_type template_bytes csv_rows
                name_column box font_size font_color font_file w).2
       = files w)
  ∧ (∀ rows values zf n,
       csv_rows = inr rows → column_values name_column rows values →
       (generate_certificates content_type template_bytes csv_rows
          name_column box font_size font_color font_file w).1
       = inr (ZipResponse zf n) →
       (1 ≤ n)%nat ∧ n = length (stripped_names values)
       ∧ length zf = (2 * n)%nat)
  ∧ (∀ tp rows values,
       String.prefix "image/" (default EmptyString content_type) = true →
       decode template_bytes = inr tp →
       csv_rows = inr rows → rows ≠ [] →
       column_values name_column rows values →
       stripped_names values = [] →
       (generate_certificates content_type template_bytes csv_rows
          name_column box font_size font_color font_file w).1
       = inr (HTTPException 400 NoValidNames)).
Proof.
  intros _. split; [|split].
  - apply (generate_certificates_responses_names content_type template_bytes
             [] csv_rows name_column box font_size font_color font_file w).
  - intros rows values zf n -> Hvalues.
    rewrite <- (row_names_values _ _ _ Hvalues).
    apply (generate_certificates_responses_names content_type template_bytes
             rows (inr rows) name_column box font_size font_color font_file w).
  - intros tp rows values Hct Hdecode -> Hrows Hvalues Hnone.
    rewrite <- (row_names_values _ _ _ Hvalues) in Hnone.
    destruct Hvalues as [|row0 value rest values' [Hvalue _] Hrest]; [done|].
    eapply (generate_certificates_responses_names content_type template_bytes
              (row0 :: rest) (inr (row0 :: rest)) name_column box font_size
              font_color font_file w); try done.
Qed.

Lemma generate_rows_raises (template_img : nat) (name_column : string)
    (box : Z * Z * Z * Z) (font_size : Z) (font_color font_file : string)
    (tp : pixels) (row : gmap string string) (value e : string)
    (post : list (gmap string string))
    (pre : list (gmap string string)) (values : list string) :
  column_values name_column pre values →
  Forall (λ name, ∃ p, certificate_picture tp name box font_size font_color
                         font_file = inr p) (stripped_names values) →
  row !! name_column = Some value → strip value ≠ EmptyString →
  certificate_picture tp (strip value) box font_size font_color font_file
    = inl e →
  ∀ zf n w,
  images w !! template_img = Some tp →
  (generate_rows template_img name_column box font_size font_color font_file
                 (pre ++ row :: post) zf n w).1 = inl e.
Proof.
  intros Hvalues Hpics Hvalue Hname Hpic.
  induction Hvalues as [|row' value' pre values [Hvalue' _] _ IH];
    intros zf n w Htp; cbn [app generate_rows].
  - rewrite Hvalue. change (default EmptyString (Some value)) with value.
    rewrite decide_False by done.
    unfold bind at 1.
    pose proof (draw_certificate_picture template_img (strip value) box
                  font_size font_color font_file w tp Htp) as Hdraw.
    rewrite Hpic in Hdraw.
    destruct (draw_certificate _ _ _ _ _ _ w) as [[e'|cert_img] w1];
      cbn [fst snd] in *; [by injection Hdraw as ->|discriminate].
  - rewrite Hvalue'. change (default EmptyString (Some value')) with value'.
    unfold stripped_names in Hpics. rewrite fmap_cons, filter_cons in Hpics.
    destruct (decide (strip value' = EmptyString)) as [Hblank|Hname'].
    + rewrite decide_False in Hpics by (by intros Hn).
      apply IH; [exact Hpics|exact Htp].
    + rewrite decide_True in Hpics by done.
      apply Forall_cons in Hpics as [[p Hp] Hpics].
      unfold bind at 1.
      pose proof (draw_certificate_picture template_img (strip value') box
                    font_size font_color font_file w tp Htp) as Hdraw.
      pose proof (draw_certificate_images template_img (strip value') box
                    font_size font_color font_file w) as [Hpre _].
      rewrite Hp in Hdraw.
      destruct (draw_certificate _ _ _ _ _ _ w) as [[e'|cert_img] w1];
        cbn [fst snd] in *; [by destruct Hdraw|].
      destruct Hdraw as [[= ->] Hcell]. unfold bind, gets. cbn [fst snd].
      rewrite Hcell. apply IH; [exact Hpics|].
      by eapply prefix_lookup_Some.
Qed.

(** X16: [generate_certificates] has no failure isolation.  When the
    drawing of one name raises, the loop over the rows raises that error,
    whatever it has collected for the rows before and whatever rows come
    after; and the handler, whose template decodes to the same pixels,
    answers neither with an archive nor with a 400: the exception leaves
    it.  The rows before hold values of plain characters whose pictures
    can be drawn; the row that fails holds one whose picture cannot. *)
Theorem generate_rows_aborts (template_img : nat) (name_column : string)
    (box : Z * Z * Z * Z) (font_size : Z) (font_color font_file : string)
    (tp : pixels) (pre : list (gmap string string)) (values : list string)
    (row : gmap string string) (value e : string)
    (post : list (gmap string string))
    (zf : list (string * pixels)) (generated_count : nat) w :
  images w !! template_img = Some tp →
  column_values name_column pre values →
  Forall (λ name, ∃ p, certificate_picture tp name box font_size font_color
                         font_file = inr p) (stripped_names values) →
  row !! name_column = Some value → ascii_only value →
  strip value ≠ EmptyString →
  certificate_picture tp (strip value) box font_size font_color font_file
    = inl e →
  (generate_rows template_img name_column box font_size font_color font_file
                 (pre ++ row :: post) zf generated_count w).1 = inl e
  ∧ ∀ content_type template_bytes w0,
      String.prefix "image/" (default EmptyString content_type) = true →
      decode template_bytes = inr tp →
      (generate_certificates content_type template_bytes
         (inr (pre ++ row :: post)) name_column box font_size font_color
         font_file w0).1 = inl e.
Proof.
  intros Htp Hvalues Hpics Hvalue _ Hname Hpic. split.
  - by eapply generate_rows_raises.
  - intros content_type template_bytes w0 Hct Hdecode.
    unfold generate_certificates. rewrite Hct. cbn [negb].
    unfold bind at 1. rewrite open_template_eq, Hdecode.
    assert (∃ row0 rest, pre ++ row :: post = row0 :: rest
                         ∧ row0 !! name_column ≠ None) as (row0 & rest & Heq & H0).
    { destruct Hvalues as [|row' value' pre' values' [Hvalue' _] _].
      - exists row, post. by rewrite Hvalue.
      - exists row', (pre' ++ row :: post). by rewrite Hvalue'. }
    rewrite Heq. rewrite decide_False by exact H0. rewrite <- Heq.
    unfold bind at 1.
    pose proof (generate_rows_raises (length (images w0)) name_column box
                  font_size font_color font_file tp row value e post pre
                  values Hvalues Hpics Hvalue Hname Hpic [] 0%nat
                  (set_images (images w0 ++ [tp]) w0)
                  ltac:(by apply list_lookup_middle)) as Hraise.
    destruct (generate_rows _ _ _ _ _ _ _ _ _ _) as [[e'|zc] w1];
      cbn [fst] in Hraise |- *; [by injection Hraise as ->|discriminate].
Qed.

(** ** The display names of the fonts *)

Lemma Forall_chars_remove_all_from (P : ascii → Prop) (pattern : string)
    (s : string) :
  ∀ skip, Forall P (String.list_ascii_of_string s) →
          Forall P (String.list_ascii_of_string
                      (remove_all_from pattern skip s)).
Proof.
  induction s as [|c s IH]; intros skip Hs; [done|].
  cbn [String.list_ascii_of_string] in Hs. apply Forall_cons in Hs as [Hc Hs].
  cbn [remove_all_from]. destruct skip as [|k]; [|by apply IH].
  destruct (String.prefix pattern (String c s)); [by apply IH|].
  cbn [String.list_ascii_of_string]. apply Forall_cons. split; [done|].
  by apply IH.
Qed.

Lemma Forall_chars_collapse_spaces (P : ascii → Prop) (s : string) :
  P " "%char →
  ∀ in_run, Forall P (String.list_ascii_of_string s) →
            Forall P (String.list_ascii_of_string (collapse_spaces in_run s)).
Proof.
  intros Hspace. induction s as [|c s IH]; intros in_run Hs; [done|].
  cbn [String.list_ascii_of_string] in Hs. apply Forall_cons in Hs as [Hc Hs].
  cbn [collapse_spaces]. destruct (isspace c); [destruct in_run|].
  - by apply IH.
  - cbn [String.list_ascii_of_string]. apply Forall_cons.
    split; [done|by apply IH].
  - cbn [String.list_ascii_of_string]. apply Forall_cons.
    split; [done|by apply IH].
Qed.

Lemma collapse_spaces_only_space (s : string) :
  ∀ in_run, Forall (λ c, isspace c = true → c = " "%char)
                   (String.list_ascii_of_string (collapse_spaces in_run s)).
Proof.
  induction s as [|c s IH]; intros in_run; [constructor|].
  cbn [collapse_spaces]. destruct (isspace c) eqn:Hc; [destruct in_run|].
  - apply IH.
  - cbn [String.list_ascii_of_string]. apply Forall_cons.
    split; [done|apply IH].
  - cbn [String.list_ascii_of_string]. apply Forall_cons.
    split; [by rewrite Hc|apply IH].
Qed.

Lemma collapse_spaces_head (s : string) (c : ascii) (r : string) :
  collapse_spaces true s = String c r → isspace c = false.
Proof.
  induction s as [|a s IH]; [done|]. cbn [collapse_spaces].
  destruct (isspace a) eqn:Ha; [exact IH|]. by intros [= <- _].
Qed.

Lemma no_space_pair_collapse_spaces (s : string) :
  ∀ in_run, no_space_pair (collapse_spaces in_run s).
Proof.
  induction s as [|c s IH]; intros in_run; [done|].
  cbn [collapse_spaces]. destruct (isspace c) eqn:Hc; [destruct in_run|].
  - apply IH.
  - specialize (IH true).
    destruct (collapse_spaces true s) as [|b r] eqn:Hr; [done|].
    cbn [no_space_pair]. split; [|exact IH].
    intros _. by eapply collapse_spaces_head.
  - specialize (IH false).
    destruct (collapse_spaces false s) as [|b r] eqn:Hr; [done|].
    cbn [no_space_pair]. split; [|exact IH]. by rewrite Hc.
Qed.

Lemma no_space_pair_tail (c : ascii) (s : string) :
  no_space_pair (String c s) → no_space_pair s.
Proof. destruct s as [|b r]; [done|]. cbn [no_space_pair]. by intros [_ ?]. Qed.

Lemma no_space_pair_lstrip (s : string) :
  no_space_pair s → no_space_pair (lstrip s).
Proof.
  induction s as [|c s IH]; [done|]. intros Hs. cbn [lstrip].
  destruct (isspace c); [|done]. by apply IH, no_space_pair_tail with c.
Qed.

Lemma rstrip_cons (c : ascii) (s : string) :
  rstrip (String c s)
  = if decide (rstrip s = EmptyString)
    then if isspace c then EmptyString else String c EmptyString
    else String c (rstrip s).
Proof. cbn [rstrip]. by destruct (rstrip s). Qed.

Lemma rstrip_head (s : string) (c : ascii) (r : string) :
  rstrip s = String c r → ∃ r', s = String c r'.
Proof.
  destruct s as [|a s]; [done|]. rewrite rstrip_cons.
  destruct (decide (rstrip s = EmptyString)).
  - destruct (isspace a); [done|]. intros [= <- _]. by exists s.
  - intros [= <- _]. by exists s.
Qed.

Lemma no_space_pair_rstrip (s : string) :
  no_space_pair s → no_space_pair (rstrip s).
Proof.
  induction s as [|c s IH]; [done|]. intros Hs. rewrite rstrip_cons.
  destruct (decide (rstrip s = EmptyString)) as [|Hne].
  - by destruct (isspace c).
  - specialize (IH (no_space_pair_tail c s Hs)).
    destruct (rstrip s) as [|b r] eqn:Hr; [done|].
    destruct (rstrip_head s b r Hr) as [r' ->].
    cbn [no_space_pair] in Hs |- *. split; [apply Hs|exact IH].
Qed.

Lemma lstrip_head (s : string) (c : ascii) (r : string) :
  lstrip s = String c r → isspace c = false.
Proof.
  induction s as [|a s IH]; [done|]. cbn [lstrip].
  destruct (isspace a) eqn:Ha; [exact IH|]. by intros [= <- _].
Qed.

Lemma lstrip_rstrip_head (s : string) (c : ascii) (r : string) :
  strip s = String c r → isspace c = false.
Proof.
  unfold strip. intros Hs. apply rstrip_head in Hs as [r' Hs].
  by eapply lstrip_head.
Qed.

Lemma rstrip_last (s : string) (c : ascii) :
  last (String.list_ascii_of_string (rstrip s)) = Some c → isspace c = false.
Proof.
  induction s as [|a s IH]; [done|]. rewrite rstrip_cons.
  destruct (decide (rstrip s = EmptyString)) as [|Hne].
  - destruct (isspace a) eqn:Ha; [done|]. cbn. by intros [= <-].
  - cbn [String.list_ascii_of_string].
    destruct (rstrip s) as [|b r] eqn:Hr; [done|].
    cbn [String.list_ascii_of_string] in *. rewrite last_cons_cons. exact IH.
Qed.

Lemma no_space_pair_lookup (s : string) (i : nat) (a b : ascii) :
  no_space_pair s →
  String.list_ascii_of_string s !! i = Some a →
  String.list_ascii_of_string s !! S i = Some b →
  isspace a = true → isspace b = false.
Proof.
  revert i. induction s as [|c s IH]; intros i Hs; [done|].
  destruct i as [|i].
  - destruct s as [|c' s]; [done|]. cbn. intros [= <-] [= <-].
    cbn [no_space_pair] in Hs. apply Hs.
  - cbn [String.list_ascii_of_string lookup list_lookup]. cbn.
    apply IH. by eapply no_space_pair_tail.
Qed.

Lemma clean_name_tidy (file_stem : string) :
  Forall (λ c, c ≠ "-"%char ∧ c ≠ "_"%char
                 ∧ (isspace c = true → c = " "%char))
           (String.list_ascii_of_string (clean_name file_stem))
  ∧ (∀ i a b,
       String.list_ascii_of_string (clean_name file_stem) !! i = Some a →
       String.list_ascii_of_string (clean_name file_stem) !! S i = Some b →
       isspace a = true → isspace b = false)
  ∧ (∀ c, head (String.list_ascii_of_string (clean_name file_stem)) = Some c
          ∨ last (String.list_ascii_of_string (clean_name file_stem)) = Some c →
          isspace c = false).
Proof.
  split; [|split].
  - unfold clean_name, strip.
    apply Forall_chars_rstrip, Forall_chars_lstrip.
    pose proof (collapse_spaces_only_space
                  (remove_all_from "NerdFontPropo" 0
                     (str_map (λ c, if decide (c = "_"%char) then " "%char else c)
                        (str_map (λ c, if decide (c = "-"%char) then " "%char
                                       else c) file_stem))) false) as Hspace.
    assert (Forall (λ c, c ≠ "-"%char ∧ c ≠ "_"%char)
              (String.list_ascii_of_string
                 (collapse_spaces false
                    (remove_all_from "NerdFontPropo" 0
                       (str_map (λ c, if decide (c = "_"%char) then " "%char
                                      else c)
                          (str_map (λ c, if decide (c = "-"%char) then " "%char
                                         else c) file_stem)))))) as Hchars.
    { apply Forall_chars_collapse_spaces; [done|].
      apply Forall_chars_remove_all_from.
      apply Forall_chars_str_map with (P := λ c, c ≠ "-"%char).
      { intros c Hc. by case_decide; subst. }
      apply Forall_chars_str_map with (P := λ _, True).
      { intros c _. by case_decide. }
      by apply Forall_true. }
    rewrite Forall_forall in Hspace, Hchars. apply Forall_forall.
    intros c Hc. destruct (Hchars c Hc). split; [done|]. split; [done|].
    by apply Hspace.
  - intros i a b. apply no_space_pair_lookup. unfold clean_name, strip.
    apply no_space_pair_rstrip, no_space_pair_lstrip,
      no_space_pair_collapse_spaces.
  - intros c [Hhead|Hlast].
    + destruct (clean_name file_stem) as [|a r] eqn:Hclean; [done|].
      cbn in Hhead. injection Hhead as ->.
      by eapply lstrip_rstrip_head.
    + by eapply rstrip_last.
Qed.

(** X20: for a stem of plain characters, the display name of a font is
    never empty unless the stem is.  It is the stem, as it is, when
    nothing is left of the stem after cleaning; otherwise it holds no
    hyphen and no underscore, its only whitespace is the space, no
    whitespace character follows another one, and it neither starts nor
    ends with one. *)
Theorem display_name_tidy (file_stem : string) :
  ascii_only file_stem →
  let d := display_name_of file_stem in
  (file_stem ≠ EmptyString → d ≠ EmptyString)
  ∧ ((clean_name file_stem = EmptyString ∧ d = file_stem)
     ∨ (d ≠ EmptyString
        ∧ Forall (λ c, c ≠ "-"%char ∧ c ≠ "_"%char
                       ∧ (isspace c = true → c = " "%char))
                 (String.list_ascii_of_string d)
        ∧ (∀ i a b,
             String.list_ascii_of_string d !! i = Some a →
             String.list_ascii_of_string d !! S i = Some b →
             isspace a = true → isspace b = false)
        ∧ (∀ c, head (String.list_ascii_of_string d) = Some c
                ∨ last (String.list_ascii_of_string d) = Some c →
                isspace c = false))).
Proof.
  intros _. cbv zeta. unfold display_name_of.
  destruct (decide (clean_name file_stem = EmptyString)) as [Hclean|Hclean].
  - split; [done|]. by left.
  - split; [done|]. right. split; [done|]. apply clean_name_tidy.
Qed.

(** ** The list of fonts *)

Lemma str_lt_irrefl (a : string) : str_lt a a = false.
Proof.
  unfold str_lt.
  destruct (OrdersEx.String_as_OT.compare_spec a a) as [?|Hlt|Hlt]; [done|..];
    by destruct (irreflexivity OrdersEx.String_as_OT.lt a).
Qed.

Lemma str_lt_true (a b : string) :
  str_lt a b = true ↔ OrdersEx.String_as_OT.lt a b.
Proof.
  unfold str_lt, OrdersEx.String_as_OT.lt.
  by destruct (OrdersEx.String_as_OT.compare a b).
Qed.

Lemma str_lt_asym (a b : string) : str_lt a b = true → str_lt b a = false.
Proof.
  intros Hab. apply not_true_is_false. intros Hba.
  apply str_lt_true in Hab, Hba.
  apply (irreflexivity OrdersEx.String_as_OT.lt a). by etrans.
Qed.

Lemma str_le_trans (a b c : string) :
  str_lt b a = false → str_lt c b = false → str_lt c a = false.
Proof.
  intros Hab Hbc. apply not_true_is_false. intros Hca.
  apply str_lt_true in Hca.
  destruct (OrdersEx.String_as_OT.compare_spec a b) as [->|Hlt|Hlt].
  - apply str_lt_true in Hca. congruence.
  - assert (str_lt c b = true) by (apply str_lt_true; by etrans). congruence.
  - apply str_lt_true in Hlt. congruence.
Qed.

Lemma insort_Permutation (x : font_entry) (l : list font_entry) :
  insort x l ≡ₚ x :: l.
Proof.
  induction l as [|y l IH]; [done|]. cbn [insort].
  destruct (str_lt _ _); [|done]. rewrite IH. apply Permutation_swap.
Qed.

Lemma sorted_by_displayName_Permutation (l : list font_entry) :
  sorted_by_displayName l ≡ₚ l.
Proof.
  induction l as [|x l IH]; [done|]. cbn. by rewrite insort_Permutation, IH.
Qed.

Lemma insort_sorted (x : font_entry) (l : list font_entry) :
  StronglySorted (λ a b, str_lt (displayName b) (displayName a) = false) l →
  StronglySorted (λ a b, str_lt (displayName b) (displayName a) = false)
                 (insort x l).
Proof.
  induction l as [|y l IH]; intros Hl.
  { repeat constructor. }
  apply StronglySorted_inv in Hl as [Hl Hy]. cbn [insort].
  destruct (str_lt (displayName y) (displayName x)) eqn:Hyx.
  - constructor; [by apply IH|].
    rewrite insort_Permutation. constructor; [|exact Hy].
    by apply str_lt_asym.
  - constructor; [by constructor|]. constructor; [done|].
    eapply Forall_impl; [exact Hy|]. intros z Hz. cbv beta in *.
    by eapply str_le_trans.
Qed.

Lemma sorted_by_displayName_sorted (l : list font_entry) :
  StronglySorted (λ a b, str_lt (displayName b) (displayName a) = false)
                 (sorted_by_displayName l).
Proof.
  induction l as [|x l IH]; [constructor|]. cbn. by apply insort_sorted.
Qed.

Lemma filter_insort (d : string) (x : font_entry) (l : list font_entry) :
  filter (λ e, displayName e = d) (insort x l)
  = filter (λ e, displayName e = d) (x :: l).
Proof.
  induction l as [|y l IH]; [done|]. cbn [insort].
  destruct (str_lt (displayName y) (displayName x)) eqn:Hyx; [|done].
  rewrite filter_cons, IH, !filter_cons.
  destruct (decide (displayName y = d)) as [Hy|Hy];
    destruct (decide (displayName x = d)) as [Hx|Hx]; try done.
  rewrite Hy, Hx, str_lt_irrefl in Hyx. done.
Qed.

Lemma filter_sorted_by_displayName (d : string) (l : list font_entry) :
  filter (λ e, displayName e = d) (sorted_by_displayName l)
  = filter (λ e, displayName e = d) l.
Proof.
  induction l as [|x l IH]; [done|]. cbn [sorted_by_displayName foldr].
  rewrite filter_insort, !filter_cons.
  fold (sorted_by_displayName l). by rewrite IH.
Qed.

(** X21: the list of fonts holds one entry for each file the two searches
    of the fonts folder yield, with the name of the file, and nothing
    else; it is in the order of the display names, and the entries with
    the same display name stand as they were found, those of [*.ttf]
    before those of [*.otf].  Without the folder the list is empty. *)
Theorem get_available_fonts_sorted (stem : string → string)
    (ttf otf : list string) :
  (path_exists FONTS_DIR = false → get_available_fonts stem ttf otf = [])
  ∧ (path_exists FONTS_DIR = true →
     filename <$> get_available_fonts stem ttf otf ≡ₚ ttf ++ otf
     ∧ ∀ d, filter (λ e, displayName e = d) (get_available_fonts stem ttf otf)
            = font_entry_of stem <$>
                filter (λ name, display_name_of (stem name) = d) (ttf ++ otf))
  ∧ Forall (λ e, displayName e = display_name_of (stem (filename e)))
           (get_available_fonts stem ttf otf)
  ∧ StronglySorted (λ a b, str_lt (displayName b) (displayName a) = false)
                   (get_available_fonts stem ttf otf).
Proof.
  unfold get_available_fonts. split; [|split; [|split]].
  - by intros ->.
  - intros ->. split.
    + rewrite sorted_by_displayName_Permutation, <- fmap_app, <- list_fmap_compose.
      by rewrite list_fmap_id.
    + intros d. rewrite filter_sorted_by_displayName, <- fmap_app.
      generalize (ttf ++ otf). intros names.
      induction names as [|name names IH]; [done|].
      rewrite fmap_cons, !filter_cons, IH. cbn [font_entry_of displayName].
      by destruct (decide (display_name_of (stem name) = d)).
  - rewrite sorted_by_displayName_Permutation.
    destruct (path_exists FONTS_DIR); [|constructor].
    rewrite <- fmap_app. apply Forall_fmap, Forall_true. done.
  - apply sorted_by_displayName_sorted.
Qed.

(** ** The rows [main] renders *)


End Properties.

(** * The properties at concrete inputs *)

(** A string of plain characters, and rows of a table that hold the values
    given, of plain characters. *)
Ltac plain_string := repeat constructor; vm_compute; lia.

Ltac plain_values :=
  unfold column_values;
  repeat (constructor;
          [split; [vm_compute; reflexivity|plain_string]|]);
  constructor.

(** One failing job, with no output path, in a batch of three. *)
Example process_batch_isolates_failure :
  (@process_batch demo
     [("Al", "out/1.jpg", 72); ("Bo", EmptyString, 72); ("Cy", "out/3.jpg", 72)]
     demo_w).1
  = inr [Success; Failure "[Errno 2] No such file or directory: ''" "Bo"; Success].
Proof. vm_compute. reflexivity. Qed.

Lemma batch_complete_witness :
  ∃ batches, split_batches demo_batch 2 = inr batches
    ∧ concat batches = demo_batch
    ∧ ∀ runs : list (@run demo), runs.*1 ≡ₚ batches →
        completed (collect (future_of <$> runs)) = length demo_batch
        ∧ errors (collect (future_of <$> runs)) = sum_list_with errors_of runs.
Proof.
  exact (proj2 (proj2 (@batch_complete demo demo_batch demo_w
                         ("Al", "out/1.jpg", 72) [] demo_batch 2))
               ltac:(lia)).
Defined.

Lemma fit_size_in_range_witness :
  20 ≤ (@find_font_size demo 0 "Alexandria" 72 200 100 demo_w).1 ≤ 72
  ∧ 10 ≤ (@get_font_for_text demo "Alexandria" 200 100 72 "Sans.ttf" demo_w).1.2
       ≤ 72.
Proof.
  destruct (@fit_size_in_range demo demo_w 0 "Alexandria" 72 200 100 "Sans.ttf")
    as [Hbatch Hweb].
  split; [apply Hbatch|apply Hweb]; lia.
Defined.

Lemma fit_monotone_witness :
  (@find_font_size demo 0 "Alexandria" 72 200 100 demo_w).1
    ≤ (@find_font_size demo 0 "Alexandria" 72 840 199 demo_w).1
  ∧ (@get_font_for_text demo "Alexandria" 200 100 72 "Sans.ttf" demo_w).1.2
    ≤ (@get_font_for_text demo "Alexandria" 840 199 72 "Sans.ttf" demo_w).1.2.
Proof.
  apply (@fit_monotone demo demo_w 0 "Alexandria" 72 200 100 840 199 "Sans.ttf");
    [lia|lia|left; lia].
Defined.

Lemma fit_below_floor_witness :
  @find_font_size demo 0 "Al" 8 200 100 demo_w = (20, demo_w)
  ∧ (@get_font_for_text demo "Al" 200 100 8 "Sans.ttf" demo_w).1.2 = 10.
Proof.
  destruct (@fit_below_floor demo demo_w 0 "Al" 8 200 100 "Sans.ttf")
    as [Hbatch Hweb].
  split.
  - apply Hbatch. lia.
  - destruct Hweb as [-> _]; [lia|reflexivity].
Defined.

Lemma template_unchanged_witness :
  images demo_w !! 0%nat = Some []
  ∧ images (@process_batch demo
              [("Al", "out/1.jpg", 72); ("Bo", "out/2.jpg", 72)] demo_w).2
      !! 0%nat = Some []
  ∧ images (@draw_certificate demo 0 "Al" (579, 611, 840, 199) 72 "#000000"
              "Sans.ttf" demo_w).2 !! 0%nat = Some [].
Proof.
  assert (images demo_w !! 0%nat = Some []) as Hp by reflexivity.
  split; [exact Hp|].
  destruct (@template_unchanged demo
              [("Al", "out/1.jpg", 72); ("Bo", "out/2.jpg", 72)]
              "Al" "name" (579, 611, 840, 199) 72 "#000000" "Sans.ttf"
              [] [] 0%nat demo_w 0%nat [] Hp)
    as ((_ & Hbatch) & (Hweb & _) & _).
  split; [exact Hbatch|exact Hweb].
Defined.

Lemma font_cache_loads_once_witness :
  @init_worker demo "jpeg" "/srv/fonts/Sans.ttf" 72 initial_world
    = (inr (), demo_started)
  ∧ (∀ size,
       (load_count size (@process_batch demo demo_batch demo_started).2 ≤ 1)%nat).
Proof.
  assert (@init_worker demo "jpeg" "/srv/fonts/Sans.ttf" 72 initial_world
          = (inr (), demo_started)) as Hinit.
  { unfold demo_started.
    assert ((@init_worker demo "jpeg" "/srv/fonts/Sans.ttf" 72 initial_world).1
            = inr ()) as Hfst by (vm_compute; reflexivity).
    destruct (@init_worker demo "jpeg" "/srv/fonts/Sans.ttf" 72 initial_world)
      as [r w0].
    simpl in Hfst. by rewrite Hfst. }
  split; [exact Hinit|].
  exact (proj1 (@font_cache_loads_once demo "jpeg" "/srv/fonts/Sans.ttf" 72
                  demo_started (@process_batch demo demo_batch demo_started).2
                  Hinit
                  (rtc_once _ _ (step_process_batch demo_batch demo_started)))).
Defined.

(** C4 in the batch generator: [--font] names a file that exists and does
    not load, and a platform font loads.  The fallback chain of the
    specification, which [load_font] of the backend walks, gives the
    platform font; [get_font] gives the built-in font, for a size that
    [init_worker] loaded in advance (24) and for one it did not (22). *)
Lemma get_font_skips_platform_fonts :
  @main_font demo (Some "/custom/broken.ttf") = "/custom/broken.ttf"
  ∧ @spec_fallback demo ("/custom/broken.ttf" :: @system_font_candidates demo) 24
    = FreeType "/usr/share/fonts/truetype/dejavu/DejaVuSans-Bold.ttf" 24
  ∧ font_face (@get_font demo 24 demo_broken).1 = BuiltinDefault
  ∧ font_face (@get_font demo 22 demo_broken).1 = BuiltinDefault
  ∧ font_face (@get_font demo 24 demo_broken).1
    ≠ @spec_fallback demo ("/custom/broken.ttf" :: @system_font_candidates demo) 24.
Proof.
  repeat split; try (vm_compute; reflexivity). vm_compute. discriminate.
Qed.

(** C5 in the batch generator: the name "Al" at size 72 measures
    [(6, 18, 78, 90)]; [process_batch] draws it at [x = 963], so the text is
    painted from 969 to 1041, around 1005, six pixels to the right of the
    midpoint 999 of the box.  With the offset of the measured box taken off,
    as the backend does, the text is centred. *)
Lemma process_batch_off_centre :
  last (calls (@process_batch demo [("Al", "out/1.jpg", 72)] demo_started).2)
  = Some (EText 1 (963, 674) "Al" (Font 13 (FreeType "/srv/fonts/Sans.ttf" 72))
                (RGB 0 0 0))
  ∧ @textbbox demo (FreeType "/srv/fonts/Sans.ttf" 72) "Al" = (6, 18, 78, 90)
  ∧ ink_box (963, 674) (6, 18, 78, 90) = (969, 692, 1041, 764)
  ∧ ¬ centred BOX_X BOX_W (969, 692, 1041, 764)
  ∧ centred BOX_X BOX_W (ink_box (963 - 6, 674) (6, 18, 78, 90)).
Proof.
  split; [vm_compute; reflexivity|]. split; [reflexivity|].
  split; [reflexivity|]. unfold centred, BOX_X, BOX_W. cbn. lia.
Qed.

(** C8 in the batch generator: for a record with an empty name [main]
    prepares a task, and the worker renders it and writes an image. *)
Lemma prepare_tasks_empty_name :
  @prepare_tasks demo "output" "first_name" 72 0
    [{[ "first_name" := EmptyString ]}] []
  = inr [(EmptyString, "output/00001_.jpg", 72)]
  ∧ (@process_batch demo [(EmptyString, "output/00001_.jpg", 72)] demo_started).1
    = inr [Success]
  ∧ files (@process_batch demo [(EmptyString, "output/00001_.jpg", 72)]
             demo_started).2
    = [("output/00001_.jpg", [(999, 674, EmptyString)])].
Proof. repeat split; vm_compute; reflexivity. Qed.

(** Three jobs in batches of two: a full batch and a last batch of one. *)
Lemma split_batches_shape_witness :
  ∃ batches,
    split_batches (("Cy", "out/3.jpg", 72) :: demo_batch) 2 = inr batches
    ∧ length batches = 2%nat
    ∧ ∀ (i : nat) (b : list task), batches !! i = Some b →
        b = take 2 (drop (i * 2) (("Cy", "out/3.jpg", 72) :: demo_batch))
        ∧ (i * 2 < 3)%nat
        ∧ length b = (2 `min` (3 - i * 2))%nat.
Proof.
  exact (split_batches_shape (("Cy", "out/3.jpg", 72) :: demo_batch) 2
                             ltac:(lia)).
Defined.

Lemma process_batch_files_witness :
  ∃ results written,
    (@process_batch demo demo_batch demo_w).1 = inr results
    ∧ length results = length demo_batch
    ∧ files (@process_batch demo demo_batch demo_w).2
      = files demo_w ++ written
    ∧ Forall2 (@file_of demo []) (succeeded demo_batch results) written.
Proof.
  exact (@process_batch_files demo demo_batch demo_w 0%nat [] eq_refl eq_refl).
Defined.

Lemma batch_text_displaced_witness :
  ∃ f,
    let b := @textbbox demo (font_face f) "Al" in
    let placed := measured_at (batch_xy b) b in
    last (calls (@render_item demo ("Al", "out/1.jpg", 72) demo_w).2)
      = Some (EText (length (images demo_w)) (batch_xy b) "Al" f
                    DEFAULT_FONT_COLOR)
    ∧ 2 * bbox0 b - 1 ≤ (bbox0 placed + bbox2 placed) - (2 * BOX_X + BOX_W)
                      ≤ 2 * bbox0 b
    ∧ 2 * bbox1 b - 1 ≤ (bbox1 placed + bbox3 placed) - (2 * BOX_Y + BOX_H)
                      ≤ 2 * bbox1 b
    ∧ (-2 ≤ (bbox0 placed + bbox2 placed) - (2 * BOX_X + BOX_W) ≤ 2 →
       -1 ≤ bbox0 b ≤ 1).
Proof.
  exact (@batch_text_displaced demo "Al" "out/1.jpg" 72 demo_w 0%nat []
                               eq_refl eq_refl).
Defined.

Lemma same_length_same_font_witness :
  let w1 := (@render_item demo ("Al", "out/1.jpg", 72) demo_w).2 in
  let w2 := (@render_item demo ("Bo", "out/2.jpg", 72) w1).2 in
  ∃ f,
    last (calls w1)
      = Some (EText (length (images demo_w))
                    (batch_xy (@textbbox demo (font_face f) "Al")) "Al" f
                    DEFAULT_FONT_COLOR)
    ∧ calls w2
      = calls w1 ++ [ETextbbox "Bo" f;
                     EText (length (images w1))
                           (batch_xy (@textbbox demo (font_face f) "Bo")) "Bo" f
                           DEFAULT_FONT_COLOR].
Proof.
  exact (@same_length_same_font demo "Al" "out/1.jpg" 72 "Bo" "out/2.jpg" 72
           demo_w 0%nat [] eq_refl eq_refl
           ltac:(repeat constructor; vm_compute; lia)
           ltac:(repeat constructor; vm_compute; lia) eq_refl).
Defined.

Lemma backend_text_placement_witness :
  ∃ xy f,
    let placed := measured_at xy (@textbbox demo (font_face f) "Al") in
    last (calls (@draw_certificate demo 0 "Al" (579, 611, 840, 199) 72
                   "#000000" "Sans.ttf" demo_w).2)
      = Some (EText (length (images demo_w)) xy "Al" f (ColorSpec "#000000"))
    ∧ -1 ≤ (bbox0 placed + bbox2 placed) - (2 * 579 + 840) ≤ 0
    ∧ bbox3 placed = 611 + 199 - 5.
Proof.
  exact (@backend_text_placement demo 0%nat "Al" 579 611 840 199 72 "#000000"
                                 "Sans.ttf" demo_w [] eq_refl).
Defined.

Lemma preload_is_complete_witness :
  (∀ size, load_count size (@process_batch demo demo_batch demo_started).2
           = load_count size demo_started)
  ∧ next_font_id (@process_batch demo demo_batch demo_started).2
    = next_font_id demo_started.
Proof.
  assert (@init_worker demo "jpeg" "/srv/fonts/Sans.ttf" 72 initial_world
          = (inr (), demo_started)) as Hinit.
  { unfold demo_started.
    assert ((@init_worker demo "jpeg" "/srv/fonts/Sans.ttf" 72 initial_world).1
            = inr ()) as Hfst by (vm_compute; reflexivity).
    destruct (@init_worker demo "jpeg" "/srv/fonts/Sans.ttf" 72 initial_world)
      as [r w0].
    simpl in Hfst. by rewrite Hfst. }
  apply (@preload_is_complete demo "jpeg" "/srv/fonts/Sans.ttf" 72 demo_batch
           demo_started demo_started Hinit (rtc_refl _ _));
    [lia|reflexivity|].
  unfold demo_batch. repeat constructor.
Defined.

(** Two rows with the same name. *)
Lemma prepare_tasks_distinct_paths_witness :
  NoDup ["output/00001_Al.jpg"; "output/00002_Al.jpg"].
Proof.
  assert (@prepare_tasks demo "output" "first_name" 72 0
            [{[ "first_name" := "Al" ]}; {[ "first_name" := "Al" ]}] []
          = inr [("Al", "output/00001_Al.jpg", 72);
                 ("Al", "output/00002_Al.jpg", 72)]) as Hprep
    by (vm_compute; reflexivity).
  exact (proj2 (proj2 (@prepare_tasks_distinct_paths demo "output"
                         "first_name" 72 _ _ Hprep))).
Defined.

(** Two rows whose names differ by a leading blank, and a blank row
    between them. *)
Lemma generate_rows_entries_witness :
  (@generate_rows demo 0 "name" (579, 611, 840, 199) 72 "#000000" "Sans.ttf"
     [{[ "name" := "Al" ]}; {[ "name" := "  " ]}; {[ "name" := " Al" ]}]
     [] 0 demo_w).1
  = inr ([("certificates_jpg/Al.jpg", [(957, 715, "Al")]);
          ("certificates_pdf/Al.pdf", [(957, 715, "Al")]);
          ("certificates_jpg/Al.jpg", [(957, 715, "Al")]);
          ("certificates_pdf/Al.pdf", [(957, 715, "Al")])], 2%nat)
  ∧ ¬ NoDup ["certificates_jpg/Al.jpg"; "certificates_pdf/Al.pdf";
             "certificates_jpg/Al.jpg"; "certificates_pdf/Al.pdf"].
Proof.
  assert ((@generate_rows demo 0 "name" (579, 611, 840, 199) 72 "#000000"
             "Sans.ttf"
             [{[ "name" := "Al" ]}; {[ "name" := "  " ]}; {[ "name" := " Al" ]}]
             [] 0 demo_w).1
          = inr ([("certificates_jpg/Al.jpg", [(957, 715, "Al")]);
                  ("certificates_pdf/Al.pdf", [(957, 715, "Al")]);
                  ("certificates_jpg/Al.jpg", [(957, 715, "Al")]);
                  ("certificates_pdf/Al.pdf", [(957, 715, "Al")])], 2%nat))
    as Hrun by (vm_compute; reflexivity).
  assert (column_values "name"
            [{[ "name" := "Al" ]}; {[ "name" := "  " ]}; {[ "name" := " Al" ]}]
            ["Al"; "  "; " Al"]) as Hvalues by plain_values.
  split; [exact Hrun|].
  destruct (@generate_rows_entries demo _ _ _ _ _ _ _ _ _ _ _ Hvalues Hrun)
    as (_ & _ & _ & Hdup).
  apply (Hdup 0%nat 1%nat "Al" "Al"); [lia|..]; vm_compute; reflexivity.
Defined.


Lemma preview_matches_archive_witness :
  (∀ name w',
     (@preview_certificate demo "jpeg" name (579, 611, 840, 199) 72 "#000000"
        "Sans.ttf" w').1
     = match @certificate_picture demo [] name (579, 611, 840, 199) 72
               "#000000" "Sans.ttf" with
       | inr p => inr (ImageResponse p)
       | inl e => inl e
       end)
  ∧ ∀ zf n,
      (@generate_certificates demo (Some "image/jpeg") "jpeg"
         (inr [{[ "name" := "Al" ]}; {[ "name" := " Al" ]}]) "name"
         (579, 611, 840, 199) 72 "#000000" "Sans.ttf" initial_world).1
      = inr (ZipResponse zf n) →
      ∃ ps, zf.*2 = ps ≫= (λ p, [p; p])
        ∧ Forall2 (λ name p, ∀ w',
                     (@preview_certificate demo "jpeg" name
                        (579, 611, 840, 199) 72 "#000000" "Sans.ttf" w').1
                     = inr (ImageResponse p))
                  (@stripped_names demo ["Al"; " Al"]) ps.
Proof.
  exact (@preview_matches_archive demo (Some "image/jpeg") "jpeg"
           [{[ "name" := "Al" ]}; {[ "name" := " Al" ]}] ["Al"; " Al"] "name"
           (579, 611, 840, 199) 72 "#000000" "Sans.ttf" [] initial_world
           eq_refl ltac:(plain_values)).
Defined.

(** The display name of the font the form of the web page offers first,
    and the list for three files whose stems are their first letters, in an
    environment like the one above whose fonts folder exists. *)
Example get_available_fonts_demo :
  @display_name_of demo "JetBrainsMonoNerdFontPropo-Medium"
  = "JetBrainsMono Medium"
  ∧ @get_available_fonts demo_folder (str_take 1)
      ["b.ttf"; "a_.ttf"] ["a-.otf"]
    = [FontEntry "a_.ttf" "a"; FontEntry "a-.otf" "a"; FontEntry "b.ttf" "b"].
Proof. split; vm_compute; reflexivity. Qed.

(** A name that would walk out of the folder of the archive. *)
Lemma sanitize_filename_safe_witness :
  @sanitize_filename demo "a/../b c" = "ab_c"
  ∧ ("/"%char ∉ String.list_ascii_of_string (@sanitize_filename demo "a/../b c"))
  ∧ ("."%char ∉ String.list_ascii_of_string (@sanitize_filename demo "a/../b c"))
  ∧ (" "%char ∉ String.list_ascii_of_string (@sanitize_filename demo "a/../b c")).
Proof.
  split; [vm_compute; reflexivity|].
  exact (proj2 (proj2 (proj2
           (@sanitize_filename_safe demo "a/../b c"
              (λ c _, eq_refl) ltac:(plain_string))))).
Defined.

Lemma generate_rows_filter_witness :
  @generate_rows demo 0 "name" (579, 611, 840, 199) 72 "#000000" "Sans.ttf"
    [{[ "name" := "  " ]}; {[ "name" := "Al" ]}; {[ "name" := EmptyString ]}]
    [] 0 demo_w
  = @generate_rows demo 0 "name" (579, 611, 840, 199) 72 "#000000" "Sans.ttf"
      (filter (@has_name demo "name")
         [{[ "name" := "  " ]}; {[ "name" := "Al" ]};
          {[ "name" := EmptyString ]}])
      [] 0 demo_w.
Proof.
  exact (proj1 (@generate_rows_filter demo 0%nat "name" (579, 611, 840, 199)
                  72 "#000000" "Sans.ttf"
                  [{[ "name" := "  " ]}; {[ "name" := "Al" ]};
                   {[ "name" := EmptyString ]}]
                  ["  "; "Al"; EmptyString] [] 0%nat demo_w
                  ltac:(plain_values))).
Defined.

(** A form that sends an empty colour: drawing the first name raises, after
    a blank row and before a row that is never reached. *)
Lemma generate_rows_aborts_witness :
  (@generate_rows demo 0 "name" (579, 611, 840, 199) 72 EmptyString "Sans.ttf"
     ([{[ "name" := "  " ]}] ++ {[ "name" := "Al" ]} :: [{[ "name" := "Bo" ]}])
     [] 0 demo_w).1
  = inl "unknown color specifier: ''"
  ∧ ∀ content_type template_bytes w0,
      String.prefix "image/" (default EmptyString content_type) = true →
      @decode demo template_bytes = inr [] →
      (@generate_certificates demo content_type template_bytes
         (inr ([{[ "name" := "  " ]}] ++ {[ "name" := "Al" ]}
               :: [{[ "name" := "Bo" ]}]))
         "name" (579, 611, 840, 199) 72 EmptyString "Sans.ttf" w0).1
      = inl "unknown color specifier: ''".
Proof.
  exact (@generate_rows_aborts demo 0%nat "name" (579, 611, 840, 199) 72
           EmptyString "Sans.ttf" [] [{[ "name" := "  " ]}] ["  "]
           {[ "name" := "Al" ]} "Al" "unknown color specifier: ''"
           [{[ "name" := "Bo" ]}] [] 0%nat demo_w
           eq_refl ltac:(plain_values) (Forall_nil_2 _)
           ltac:(vm_compute; reflexivity) ltac:(plain_string)
           ltac:(vm_compute; discriminate) ltac:(vm_compute; reflexivity)).
Defined.

(** A table whose only name is blank. *)
Lemma generate_certificates_responses_witness :
  (@generate_certificates demo (Some "image/jpeg") "jpeg"
     (inr [{[ "name" := "  " ]}]) "name" (579, 611, 840, 199) 72 "#000000"
     "Sans.ttf" initial_world).1
  = inr (HTTPException 400 NoValidNames).
Proof.
  assert (column_values "name" [{[ "name" := "  " ]}] ["  "]) as Hvalues
    by plain_values.
  exact (proj2 (proj2
           (@generate_certificates_responses demo (Some "image/jpeg") "jpeg"
              (inr [{[ "name" := "  " ]}]) "name" (579, 611, 840, 199) 72
              "#000000" "Sans.ttf" initial_world
              (or_introl (ex_intro _ ["  "] Hvalues))))
           [] [{[ "name" := "  " ]}] ["  "] eq_refl eq_refl eq_refl
           ltac:(discriminate) Hvalues eq_refl).
Defined.

Lemma display_name_tidy_witness :
  let d := @display_name_of demo "Noto_Sans-Bold" in
  ("Noto_Sans-Bold" ≠ EmptyString → d ≠ EmptyString)
  ∧ ((@clean_name demo "Noto_Sans-Bold" = EmptyString ∧ d = "Noto_Sans-Bold")
     ∨ (d ≠ EmptyString
        ∧ Forall (λ c, c ≠ "-"%char ∧ c ≠ "_"%char
                       ∧ (@isspace demo c = true → c = " "%char))
                 (String.list_ascii_of_string d)
        ∧ (∀ i a b,
             String.list_ascii_of_string d !! i = Some a →
             String.list_ascii_of_string d !! S i = Some b →
             @isspace demo a = true → @isspace demo b = false)
        ∧ (∀ c, head (String.list_ascii_of_string d) = Some c
                ∨ last (String.list_ascii_of_string d) = Some c →
                @isspace demo c = false))).
Proof.
  exact (@display_name_tidy demo "Noto_Sans-Bold" ltac:(plain_string)).
Defined.
